(** * mix-cli package manager: resolver, store and transaction engine

    A shallow embedding of [src/mix-cli/pkg/manager/resolver.go] and
    [src/mix-cli/pkg/manager/manager.go] (with the SQLite-backed [Database]
    that follows it), and the properties of the package-management engine
    proved or refuted on it. *)

From Stdlib Require Import ZArith Ascii String List Lia Bool.
From stdpp Require Import base decidable option list gmap strings fin_maps fin_sets.

#[local] Set Warnings "-clear-no-such-hyp".

Local Open Scope string_scope.
Local Open Scope list_scope.
Local Open Scope Z_scope.

(** ** Go standard-library functions used by the code

    [strings.Index], [strings.Split], [strings.HasPrefix],
    [strings.TrimPrefix], [strings.TrimSpace] and [fmt.Sscanf] with the verb
    [%d], over byte strings.  White space is the ASCII white space
    (tab, line feed, vertical tab, form feed, carriage return, space). *)
Module Go.

Definition HasPrefix (s pre : string) : bool := String.prefix pre s.

Definition TrimPrefix (s pre : string) : string :=
  if HasPrefix s pre
  then String.substring (String.length pre) (String.length s - String.length pre) s
  else s.

Fixpoint index_from (n : nat) (s sep : string) : option nat :=
  if String.prefix sep s then Some n
  else match s with
       | EmptyString => None
       | String _ s' => index_from (S n) s' sep
       end.

(** [strings.Index]: the byte offset of the first occurrence, or [-1]. *)
Definition Index (s sep : string) : Z :=
  match index_from 0 s sep with
  | Some i => Z.of_nat i
  | None => -1
  end.

(** The slice expression [s[:idx]] for [0 <= idx <= len(s)]. *)
Definition slice_to (s : string) (idx : Z) : string :=
  String.substring 0 (Z.to_nat idx) s.

Fixpoint split_go (sep : string) (skip : nat) (cur : string) (s : string)
  : list string :=
  match s with
  | EmptyString => [cur]
  | String c s' =>
      match skip with
      | S k => split_go sep k cur s'
      | O =>
          if String.prefix sep s
          then cur :: split_go sep (String.length sep - 1) EmptyString s'
          else split_go sep 0 (cur +:+ String c EmptyString) s'
      end
  end.

Fixpoint explode (s : string) : list string :=
  match s with
  | EmptyString => []
  | String c s' => String c EmptyString :: explode s'
  end.

(** [strings.Split]: the pieces between the non-overlapping occurrences
    of [sep], left to right; an empty [sep] splits after each byte. *)
Definition Split (s sep : string) : list string :=
  match sep with
  | EmptyString => explode s
  | _ => split_go sep 0 EmptyString s
  end.

Definition is_space (c : ascii) : bool :=
  let n := nat_of_ascii c in
  ((9 <=? n)%nat && (n <=? 13)%nat) || (n =? 32)%nat.

Fixpoint trim_left (s : string) : string :=
  match s with
  | EmptyString => EmptyString
  | String c s' => if is_space c then trim_left s' else s
  end.

Fixpoint trim_right (s : string) : string :=
  match s with
  | EmptyString => EmptyString
  | String c s' =>
      match trim_right s' with
      | EmptyString => if is_space c then EmptyString else String c EmptyString
      | t => String c t
      end
  end.

Definition TrimSpace (s : string) : string := trim_right (trim_left s).

(** *** [fmt.Sscanf(s, "%d", &n)] on a variable [n] that holds [0]

    Leading blanks are skipped (a line feed is an error in [Sscanf]), a
    sign is accepted, then the longest run of digits and underscores is
    read and handed to [strconv.ParseInt(tok, 10, 64)].  When the scan
    fails [n] keeps its zero value; the code ignores the error. *)
Definition is_blank (c : ascii) : bool :=
  let n := nat_of_ascii c in
  (n =? 9)%nat || (n =? 11)%nat || (n =? 12)%nat || (n =? 13)%nat || (n =? 32)%nat.

Fixpoint skip_blanks (s : string) : string :=
  match s with
  | EmptyString => EmptyString
  | String c s' => if is_blank c then skip_blanks s' else s
  end.

Definition digit_val (c : ascii) : option Z :=
  let n := nat_of_ascii c in
  if ((48 <=? n)%nat && (n <=? 57)%nat) then Some (Z.of_nat n - 48) else None.

Definition is_underscore (c : ascii) : bool := (nat_of_ascii c =? 95)%nat.

(** Reads the number token: [Some (v, seen)] is the value of the digits
    read so far and whether any byte was consumed; [None] when the token
    holds an underscore, which base 10 rejects. *)
Fixpoint scan_number (s : string) (acc : Z) (seen : bool) : option (Z * bool) :=
  match s with
  | EmptyString => Some (acc, seen)
  | String c s' =>
      match digit_val c with
      | Some d => scan_number s' (10 * acc + d) true
      | None => if is_underscore c then None else Some (acc, seen)
      end
  end.

Definition int64_min : Z := - 2 ^ 63.
Definition int64_max : Z := 2 ^ 63 - 1.

Definition Sscanf_d (s : string) : Z :=
  let s1 := skip_blanks s in
  let '(neg, s2) :=
    match s1 with
    | String c r =>
        if (nat_of_ascii c =? 45)%nat then (true, r)
        else if (nat_of_ascii c =? 43)%nat then (false, r)
        else (false, s1)
    | EmptyString => (false, s1)
    end in
  match scan_number s2 0 false with
  | Some (v, true) =>
      let v' := if neg then - v else v in
      if (int64_min <=? v') && (v' <=? int64_max) then v' else 0
  | _ => 0
  end.

End Go.

(** ** Dependency specifiers and versions *)

(** [parseDependency] (resolver.go): the specifier is trimmed, cut at the
    first occurrence of the first operator of [">="; "<="; "="; ">"; "<"]
    that occurs in it, and trimmed again. *)
Definition separators : list string := [">="; "<="; "="; ">"; "<"].

Fixpoint parseDependency_loop (dep : string) (seps : list string) : string :=
  match seps with
  | [] => dep
  | sep :: rest =>
      let idx := Go.Index dep sep in
      if negb (idx =? -1)
      then Go.TrimSpace (Go.slice_to dep idx)
      else parseDependency_loop dep rest
  end.

Definition parseDependency (dep : string) : string :=
  parseDependency_loop (Go.TrimSpace dep) separators.

(** The name extraction inlined in [Database.GetReverseDependencies]
    (manager.go): three successive [strings.Split(_)[0]] and a trim. *)
Definition split_head (s sep : string) : string :=
  match Go.Split s sep with
  | p :: _ => p
  | [] => EmptyString
  end.

Definition revdep_name (dep : string) : string :=
  let depName := split_head dep ">=" in
  let depName := split_head depName "<=" in
  let depName := split_head depName "=" in
  Go.TrimSpace depName.

(** [compareVersions] (manager.go). *)
Fixpoint compareVersions_loop (parts1 parts2 : list string) (i steps : nat) : Z :=
  match steps with
  | O => 0
  | S k =>
      let n1 := match parts1 !! i with Some p => Go.Sscanf_d p | None => 0 end in
      let n2 := match parts2 !! i with Some p => Go.Sscanf_d p | None => 0 end in
      if n1 <? n2 then -1
      else if n1 >? n2 then 1
      else compareVersions_loop parts1 parts2 (S i) k
  end.

Definition compareVersions (v1 v2 : string) : Z :=
  let parts1 := Go.Split v1 "." in
  let parts2 := Go.Split v2 "." in
  let maxLen := Nat.max (length parts1) (length parts2) in
  compareVersions_loop parts1 parts2 0 maxLen.


(** ** Errors

    The Go code returns [fmt.Errorf] values that wrap a cause with the stage
    that failed.  [error] keeps the stage as a constructor and the wrapped
    cause as its argument. *)
Inductive oserror : Type :=
| ENOENT | EACCES | ENOTEMPTY | EEXIST | EISDIR | ENOTDIR | EIO.

(** [os.IsNotExist]. *)
Definition IsNotExist (e : oserror) : bool :=
  match e with ENOENT => true | _ => false end.

Inductive cause : Type :=
| OsError (e : oserror)
| ChecksumMismatch (expected actual : string)  (* "checksum mismatch: expected %s, got %s" *)
| HttpStatus (code : Z)                        (* "package not found in repository (HTTP %d)" *)
| TransportError                               (* http.Get failed *)
| BadArchive                                   (* gzip or tar stream error *)
| BadMetadata                                  (* json decoding error *)
| MetadataNotFound                             (* "metadata.json not found in package" *)
| ExitError.                                   (* the script did not exit with status 0 *)

Inductive error : Type :=
| CircularDependency (pkg : string)       (* "circular dependency detected: %s" *)
| AlreadyInstalled (pkg : string)         (* "package %s is already installed" *)
| NotInstalled (pkg : string)             (* "package %s is not installed" *)
| NotInDatabase (pkg : string)            (* "package %s not found in database" *)
| DownloadFailed (c : cause)              (* "failed to download package: %w" *)
| ChecksumFailed (c : cause)              (* "checksum verification failed: %w" *)
| ExtractFailed (c : cause)               (* "failed to extract package: %w" *)
| ScriptFailed (stage : string) (c : cause) (* "<stage> script failed: %w" *)
| InstallFilesFailed (c : cause)          (* "failed to install files: %w" *)
| GetFilesFailed                          (* "failed to get installed files: %w" *)
| RemoveFilesFailed (c : cause).          (* "failed to remove files: %w" *)

Inductive result (A : Type) : Type :=
| Ok (a : A)
| Err (e : error).
Arguments Ok {A} a.
Arguments Err {A} e.

(** ** The package store

    The three SQLite tables of [Database.init], each keyed by its primary
    key.  The [dependencies] and [files] columns hold the JSON encoding of a
    [[]string], written by [json.Marshal] and read back by [json.Unmarshal]
    with the error ignored; the rows keep the decoded list.  The
    [install_time] column is never read.  Failures of the database file
    itself are outside the model: a query either finds its row or not. *)
Record PackageRow : Type := mkPackageRow {
  pkg_version : string;
  pkg_description : string;
  pkg_dependencies : list string;
  pkg_files : list string;
  pkg_checksum : string;
  pkg_size : Z
}.

Record InstalledRow : Type := mkInstalledRow {
  inst_version : string;
  inst_files : list string
}.

Record Database : Type := mkDatabase {
  packages : gmap string PackageRow;
  installed : gmap string InstalledRow;
  files : gmap string string
}.

(** [PackageInfo], the record the store's queries return. *)
Record PackageInfo : Type := mkPackageInfo {
  info_Name : string;
  info_Version : string;
  info_Description : string;
  info_Dependencies : list string;
  info_Files : list string;
  info_Checksum : string;
  info_Size : Z;
  info_Installed : bool;
  info_PreRemove : string;
  info_PostRemove : string
}.

Definition empty_db : Database :=
  {| packages := ∅; installed := ∅; files := ∅ |}.

(** [Database.IsInstalled]: [SELECT COUNT( * ) FROM installed WHERE name = ?]. *)
Definition IsInstalled (d : Database) (name : string) : bool :=
  bool_decide (is_Some (installed d !! name)).

(** [Database.GetDependencies]: [None] stands for the "not found" error. *)
Definition GetDependencies (d : Database) (name : string) : option (list string) :=
  pkg_dependencies <$> packages d !! name.

(** [Database.RecordInstallation]: one transaction that replaces the ledger
    row and upserts one ownership row per file. *)
Definition RecordInstallation (d : Database) (name version : string)
    (fs : list string) : Database :=
  {| packages := packages d;
     installed := <[name := mkInstalledRow version fs]> (installed d);
     files := foldl (fun m file => <[file := name]> m) (files d) fs |}.

(** [Database.RemoveInstallation]: one transaction that deletes the
    ownership rows of [name] and its ledger row. *)
Definition RemoveInstallation (d : Database) (name : string) : Database :=
  {| packages := packages d;
     installed := delete name (installed d);
     files := filter (fun kv => kv.2 ≠ name) (files d) |}.

(** [Database.GetInstalledFiles]. *)
Definition GetInstalledFiles (d : Database) (name : string) : option (list string) :=
  inst_files <$> installed d !! name.

(** ** The dependency resolver (resolver.go)

    [resolved] and [unresolved] are Go [map[string]bool] values that only
    ever store [true] and are read with the zero default, i.e. sets:
    [m[k] = true] is [{[k]} ∪ m], [delete(m, k)] is [m ∖ {[k]}] and [m[k]]
    is membership. *)
Record Resolver : Type := mkResolver {
  resolved : gset string;
  unresolved : gset string;
  order : list string
}.

Definition mark_resolved (pkg : string) (r : Resolver) : Resolver :=
  {| resolved := {[pkg]} ∪ resolved r; unresolved := unresolved r; order := order r |}.

Definition mark_unresolved (pkg : string) (r : Resolver) : Resolver :=
  {| resolved := resolved r; unresolved := {[pkg]} ∪ unresolved r; order := order r |}.

(** The three statements that end [resolve]: [r.resolved[pkg] = true],
    [delete(r.unresolved, pkg)], [r.order = append(r.order, pkg)]. *)
Definition finish (pkg : string) (r : Resolver) : Resolver :=
  {| resolved := {[pkg]} ∪ resolved r;
     unresolved := unresolved r ∖ {[pkg]};
     order := order r ++ [pkg] |}.

Section resolve.
Variable db : Database.

(** The loop over [deps] in [resolve]; [rec] is the recursive call. *)
Fixpoint resolve_deps (rec : string -> Resolver -> option (result Resolver))
    (deps : list string) (r : Resolver) : option (result Resolver) :=
  match deps with
  | [] => Some (Ok r)
  | dep :: rest =>
      let depName := parseDependency dep in
      if IsInstalled db depName
      then resolve_deps rec rest (mark_resolved depName r)
      else match rec depName r with
           | Some (Ok r') => resolve_deps rec rest r'
           | other => other
           end
  end.

(** [Resolver.resolve].  The recursion of the Go method is bounded by
    [fuel], the depth still allowed; [None] means the bound was reached. *)
Fixpoint resolve (fuel : nat) (pkg : string) (r : Resolver)
    : option (result Resolver) :=
  match fuel with
  | O => None
  | S fuel' =>
      if bool_decide (pkg ∈ unresolved r) then Some (Err (CircularDependency pkg))
      else if bool_decide (pkg ∈ resolved r) then Some (Ok r)
      else
        let r1 := mark_unresolved pkg r in
        match GetDependencies db pkg with
        | None => Some (Ok (finish pkg r1))
        | Some deps =>
            match resolve_deps (resolve fuel') deps r1 with
            | Some (Ok r2) => Some (Ok (finish pkg r2))
            | other => other
            end
        end
  end.

(** The first loop of [Resolve]. *)
Definition mark_installed (pkgs : list string) (r : Resolver) : Resolver :=
  foldl (fun r pkg => if IsInstalled db pkg then mark_resolved pkg r else r) r pkgs.

(** The second loop of [Resolve]. *)
Fixpoint resolve_each (fuel : nat) (pkgs : list string) (r : Resolver)
    : option (result Resolver) :=
  match pkgs with
  | [] => Some (Ok r)
  | pkg :: rest =>
      if bool_decide (pkg ∈ resolved r) then resolve_each fuel rest r
      else match resolve fuel pkg r with
           | Some (Ok r') => resolve_each fuel rest r'
           | other => other
           end
  end.

Definition new_run : Resolver :=
  {| resolved := ∅; unresolved := ∅; order := [] |}.

Definition Resolve_fuel (fuel : nat) (pkgs : list string)
    : option (result (list string)) :=
  match resolve_each fuel pkgs (mark_installed pkgs new_run) with
  | Some (Ok r) =>
      Some (Ok (filter (fun pkg => IsInstalled db pkg = false) (order r)))
  | Some (Err e) => Some (Err e)
  | None => None
  end.

(** [Resolver.Resolve].  A call of [resolve] that goes past its two checks
    puts a name of the catalog into [unresolved] unless it returns at once,
    so the nesting never exceeds the number of catalog rows plus one
    ([Resolve_total] below). *)
Definition Resolve (pkgs : list string) : option (result (list string)) :=
  Resolve_fuel (S (size (packages db))) pkgs.

End resolve.

(** [Database.AddPackage]: [INSERT OR REPLACE INTO packages]. *)
Definition AddPackage (d : Database) (pkg : PackageInfo) : Database :=
  {| packages :=
       <[info_Name pkg :=
           mkPackageRow (info_Version pkg) (info_Description pkg) (info_Dependencies pkg)
                        (info_Files pkg) (info_Checksum pkg) (info_Size pkg)]> (packages d);
     installed := installed d;
     files := files d |}.

(** Test fixtures of manager_test.go: [db.AddPackage(&PackageInfo{Name: name,
    Version: "1.0.0", Dependencies: deps})]. *)
Definition add_package (name : string) (deps : list string) (d : Database) : Database :=
  AddPackage d
    {| info_Name := name; info_Version := "1.0.0"; info_Description := "";
       info_Dependencies := deps; info_Files := []; info_Checksum := ""; info_Size := 0;
       info_Installed := false; info_PreRemove := ""; info_PostRemove := "" |}.

Definition db_simple : Database :=
  add_package "app" ["base"] (add_package "base" [] empty_db).

Definition db_base_installed : Database :=
  RecordInstallation db_simple "base" "1.0.0" [].

Definition db_circular : Database :=
  add_package "b" ["a"] (add_package "a" ["b"] empty_db).

Definition db_chain : Database :=
  add_package "level3" ["level2"]
    (add_package "level2" ["level1"]
       (add_package "level1" ["level0"]
          (add_package "level0" [] empty_db))).


(** ** Vocabulary of the resolver's properties *)

(** [a] occurs at a position strictly before a position of [b]. *)
Definition precedes (l : list string) (a b : string) : Prop :=
  ∃ i j : nat, l !! i = Some a ∧ l !! j = Some b ∧ (i < j)%nat.

(** [a] is named by one of the dependency specifiers of the catalog row
    of [b]. *)
Definition dependency (d : Database) (a b : string) : Prop :=
  ∃ deps dep, GetDependencies d b = Some deps ∧ dep ∈ deps ∧ parseDependency dep = a.

(** [a] is a dependency of [b] that is not installed: the ones [resolve]
    recurses into. *)
Definition needed (d : Database) (a b : string) : Prop :=
  dependency d a b ∧ IsInstalled d a = false.

(** The dependency graph of the catalog has no cycle. *)
Definition acyclic (d : Database) : Prop :=
  ∀ x, ¬ tc (dependency d) x x.

(** Some requested name reaches, along dependency edges, a name that lies
    on a cycle. *)
Definition reaches_cycle (edge : string -> string -> Prop) (pkgs : list string) : Prop :=
  ∃ p x, p ∈ pkgs ∧ rtc (flip edge) p x ∧ tc edge x x.

(** Fixtures: [mid] is installed although its dependency [low] is not;
    [b], on the cycle [a -> b -> a], is installed. *)
Definition db_installed_between : Database :=
  RecordInstallation
    (add_package "top" ["mid"] (add_package "mid" ["low"] (add_package "low" [] empty_db)))
    "mid" "1.0.0" [].

Definition db_cycle_installed : Database :=
  RecordInstallation db_circular "b" "1.0.0" [].

(** ** Invariants of a resolver run *)

Section resolver_invariants.
Variable db : Database.

(** What every state of a run satisfies. *)
Record Inv (r : Resolver) : Prop := mkInv {
  inv_order_resolved : ∀ x, x ∈ order r → x ∈ resolved r;
  inv_order_fresh : ∀ x, x ∈ order r → IsInstalled db x = false;
  inv_resolved : ∀ x, x ∈ resolved r → IsInstalled db x = true ∨ x ∈ order r;
  inv_nodup : NoDup (order r);
  inv_deps : ∀ a b, b ∈ order r → needed db a b → precedes (order r) a b
}.

Definition Pre (r : Resolver) : Prop :=
  Inv r ∧ ∀ x, x ∈ order r → x ∉ unresolved r.

(** How a successful call may change the state. *)
Record Step (r r' : Resolver) : Prop := mkStep {
  step_inv : Inv r';
  step_unresolved : unresolved r' = unresolved r;
  step_resolved : resolved r ⊆ resolved r';
  step_order : ∃ ext, order r' = order r ++ ext ∧ ∀ x, x ∈ ext → x ∉ unresolved r
}.

(** What a successful call of the recursive function guarantees. *)
Definition resolve_spec (rec : string -> Resolver -> option (result Resolver)) : Prop :=
  ∀ pkg r r', rec pkg r = Some (Ok r') → IsInstalled db pkg = false → Pre r →
              Step r r' ∧ pkg ∈ order r'.

(** The recursive function returns on every state whose [unresolved] set
    is [U], and leaves that set as it found it. *)
Definition total_on (U : gset string) (rec : string -> Resolver -> option (result Resolver)) : Prop :=
  ∀ pkg r, unresolved r = U →
    ∃ o, rec pkg r = Some o ∧ ∀ r', o = Ok r' → unresolved r' = U.

(** The only error [resolve] produces is the circular-dependency error. *)
Definition only_circular (o : option (result Resolver)) : Prop :=
  ∀ e, o = Some (Err e) → ∃ pkg, e = CircularDependency pkg.

End resolver_invariants.

(** A ranking of the names that every dependency edge of the catalog
    increases; it is a decidable certificate of acyclicity. *)
Definition ranked (d : Database) (rank : string -> nat) : Prop :=
  map_Forall (fun b row =>
    Forall (fun dep => (rank (parseDependency dep) < rank b)%nat) (pkg_dependencies row))
    (packages d).

Definition rank_between (s : string) : nat :=
  if (s =? "low")%string then 0%nat else if (s =? "mid")%string then 1%nat else 2%nat.

(** [Database.GetReverseDependencies]: the installed packages whose catalog
    row names [name] among its dependencies.  The query has no [ORDER BY];
    the rows come in the order of [map_to_list]. *)
Definition GetReverseDependencies (d : Database) (name : string) : list string :=
  omap (fun kv : string * InstalledRow =>
          match packages d !! kv.1 with
          | Some row =>
              if bool_decide (Exists (fun dep => revdep_name dep = name) (pkg_dependencies row))
              then Some kv.1 else None
          | None => None
          end)
       (map_to_list (installed d)).

(** The same scan with the resolver's [parseDependency] in place of the
    inlined splits. *)
Definition reverse_dependencies_by_parser (d : Database) (name : string) : list string :=
  omap (fun kv : string * InstalledRow =>
          match packages d !! kv.1 with
          | Some row =>
              if bool_decide (Exists (fun dep => parseDependency dep = name) (pkg_dependencies row))
              then Some kv.1 else None
          | None => None
          end)
       (map_to_list (installed d)).

(** [app], installed, depends on [pkg>1.0]. *)
Definition db_greater_than : Database :=
  RecordInstallation
    (add_package "app" ["pkg>1.0"] (add_package "pkg" [] empty_db))
    "app" "1.0.0" [].

(** ** Version comparison as the specification words it

    Each version is the list of the numbers of its dot-separated segments;
    the shorter list is padded with zeros, and the lists are compared
    number by number from the left. *)
Definition segment_values (v : string) : list Z :=
  map Go.Sscanf_d (Go.Split v ".").

Definition pad (n : nat) (l : list Z) : list Z :=
  l ++ replicate (n - length l) 0.

Fixpoint lex_compare (l1 l2 : list Z) : Z :=
  match l1, l2 with
  | x :: l1', y :: l2' =>
      if x <? y then -1 else if x >? y then 1 else lex_compare l1' l2'
  | _, _ => 0
  end.


(** ** The transaction engine (manager.go) *)

Record PackageMetadata : Type := mkPackageMetadata {
  meta_Name : string;
  meta_Version : string;
  meta_Description : string;
  meta_Dependencies : list string;
  meta_Files : list string;
  meta_Checksum : string;
  meta_PreInstall : string;
  meta_PostInstall : string;
  meta_PreRemove : string;
  meta_PostRemove : string
}.

(** [Percent] is kept in hundredths: the code only sends the constants
    0.0, 0.1, 0.25, 0.5, 0.75, 0.8 and 1.0. *)
Record ProgressUpdate : Type := mkProgressUpdate {
  Stage : string;
  Percent : Z;
  Message : string
}.

(** The entries of a tar stream as [tar.Reader.Next] yields them. *)
Inductive Typeflag : Type :=
| TypeReg | TypeDir | TypeSymlink | TypeLink | TypeChar | TypeBlock | TypeFifo.

Record TarEntry : Type := mkTarEntry {
  hdr_Name : string;
  hdr_Typeflag : Typeflag;
  hdr_Mode : Z;
  hdr_Linkname : string;
  hdr_Content : string
}.

(** A decoded archive: its entries, and whether the stream ends in an
    error instead of [io.EOF]. *)
Record Archive : Type := mkArchive {
  entries : list TarEntry;
  stream_error : bool
}.

(** What the engine does to the world outside the database, in order. *)
Inductive Event : Type :=
| EvProgress (u : ProgressUpdate)          (* a send on the progress channel *)
| EvScript (name script : string)          (* /bin/sh run on the script *)
| EvMkdirAll (path : string)
| EvCreate (path : string)
| EvWrite (path : string)
| EvSymlink (path : string)
| EvRemove (path : string).

(** The operating system, the network and the library codecs the engine
    calls.  Nothing is assumed about them: every property below holds for
    every [Env]. *)
Record Env : Type := mkEnv {
  FS : Type;
  os_Stat : FS -> string -> bool;                      (* [err == nil] of os.Stat *)
  os_ReadFile : FS -> string -> oserror + string;      (* os.Open and reading to the end *)
  os_Remove : FS -> string -> FS * option oserror;
  os_MkdirAll : FS -> string -> Z -> FS * option oserror;
  os_Create : FS -> string -> Z -> FS * option oserror; (* os.Create, os.OpenFile(O_CREATE|O_WRONLY|O_TRUNC) *)
  os_Write : FS -> string -> string -> FS * option oserror; (* io.Copy / WriteString into the open file *)
  os_Symlink : FS -> string -> string -> FS * option oserror;
  os_CreateTemp : FS -> string -> FS * (oserror + string);
  os_Chmod : FS -> string -> Z -> FS;
  exec_sh : FS -> string -> FS * bool;                 (* exec.Command("/bin/sh", path).Run() == nil *)
  http_Get : string -> option (Z * string);            (* status code and body; None: transport error *)
  gunzip_tar : string -> option Archive;               (* None: gzip.NewReader fails *)
  json_metadata : string -> option PackageMetadata;    (* json.Decode of metadata.json *)
  sha256_hex : string -> string;                       (* hex.EncodeToString(sha256 of the bytes) *)
  filepath_Join : string -> string -> string;
  filepath_Dir : string -> string;
  (* rows.Scan of a TEXT column into a []string field; database/sql has no
     such conversion and reports an error, which is [None] *)
  sql_scan_strings : list string -> option (list string)
}.

(** The fields of [Manager] other than the database. *)
Record Config : Type := mkConfig {
  repoURL : string;
  cacheDir : string;
  progressChan : bool          (* whether a channel is registered *)
}.

Record World (E : Env) : Type := mkWorld {
  w_db : Database;
  w_fs : FS E;
  w_log : list Event
}.
Arguments mkWorld {E} _ _ _.
Arguments w_db {E} _.
Arguments w_fs {E} _.
Arguments w_log {E} _.

(** [Database.GetPackage]. *)
Definition GetPackage (d : Database) (name : string) : option PackageInfo :=
  match packages d !! name with
  | Some row =>
      Some {| info_Name := name; info_Version := pkg_version row;
              info_Description := pkg_description row;
              info_Dependencies := pkg_dependencies row;
              info_Files := pkg_files row; info_Checksum := pkg_checksum row;
              info_Size := pkg_size row; info_Installed := false;
              info_PreRemove := ""; info_PostRemove := "" |}
  | None => None
  end.

Section manager.
Variable E : Env.
Variable cfg : Config.

(** [Database.GetInstalledPackage]: the ledger row left-joined with the
    catalog row.  The query selects no script column and the function
    assigns none, so [PreRemove] and [PostRemove] keep their zero value. *)
Definition GetInstalledPackage (d : Database) (name : string) : option PackageInfo :=
  match installed d !! name with
  | None => None
  | Some i =>
      let p := packages d !! name in
      match sql_scan_strings E (from_option pkg_dependencies [] p) with
      | None => None
      | Some deps =>
          Some {| info_Name := name; info_Version := inst_version i;
                  info_Description := from_option pkg_description "" p;
                  info_Dependencies := deps;
                  info_Files := inst_files i;
                  info_Checksum := from_option pkg_checksum "" p;
                  info_Size := from_option pkg_size 0 p;
                  info_Installed := true;
                  info_PreRemove := ""; info_PostRemove := "" |}
      end
  end.

Definition with_fs (w : World E) (fs : FS E) (evs : list Event) : World E :=
  {| w_db := w_db w; w_fs := fs; w_log := w_log w ++ evs |}.

Definition with_db (w : World E) (d : Database) : World E :=
  {| w_db := d; w_fs := w_fs w; w_log := w_log w |}.

(** [if m.progressChan != nil { m.progressChan <- u }]. *)
Definition send (stage : string) (percent : Z) (message : string) (w : World E) : World E :=
  if progressChan cfg
  then with_fs w (w_fs w) [EvProgress (mkProgressUpdate stage percent message)]
  else w.

Definition do_Remove (path : string) (w : World E) : World E * option oserror :=
  let '(fs, r) := os_Remove E (w_fs w) path in (with_fs w fs [EvRemove path], r).

Definition do_MkdirAll (path : string) (mode : Z) (w : World E) : World E * option oserror :=
  let '(fs, r) := os_MkdirAll E (w_fs w) path mode in (with_fs w fs [EvMkdirAll path], r).

Definition do_Create (path : string) (mode : Z) (w : World E) : World E * option oserror :=
  let '(fs, r) := os_Create E (w_fs w) path mode in (with_fs w fs [EvCreate path], r).

Definition do_Write (path content : string) (w : World E) : World E * option oserror :=
  let '(fs, r) := os_Write E (w_fs w) path content in (with_fs w fs [EvWrite path], r).

Definition do_Symlink (linkname path : string) (w : World E) : World E * option oserror :=
  let '(fs, r) := os_Symlink E (w_fs w) linkname path in (with_fs w fs [EvSymlink path], r).

(** [Manager.downloadPackage]. *)
Definition pkgFile (name version : string) : string :=
  name +:+ "-" +:+ version +:+ ".mixpkg".

Definition downloadPackage (name version : string) (w : World E)
    : World E * (cause + string) :=
  let pkgPath := filepath_Join E (cacheDir cfg) (pkgFile name version) in
  if os_Stat E (w_fs w) pkgPath then (w, inr pkgPath)
  else
    match http_Get E (repoURL cfg +:+ "/" +:+ pkgFile name version) with
    | None =>
        let localPath := filepath_Join E (cacheDir cfg) (pkgFile name version) in
        if os_Stat E (w_fs w) localPath then (w, inr localPath)
        else (w, inl TransportError)
    | Some (status, body) =>
        if negb (status =? 200) then (w, inl (HttpStatus status))
        else
          let w1 := fst (do_MkdirAll (cacheDir cfg) 493 w) in
          match do_Create pkgPath 438 w1 with
          | (w2, Some e) => (w2, inl (OsError e))
          | (w2, None) =>
              match do_Write pkgPath body w2 with
              | (w3, Some e) => (fst (do_Remove pkgPath w3), inl (OsError e))
              | (w3, None) => (w3, inr pkgPath)
              end
          end
    end.

(** [Manager.verifyChecksum]. *)
Definition verifyChecksum (path expected : string) (w : World E) : option cause :=
  match os_ReadFile E (w_fs w) path with
  | inl e => Some (OsError e)
  | inr content =>
      let actual := sha256_hex E content in
      if bool_decide (actual ≠ expected)
      then Some (ChecksumMismatch expected actual)
      else None
  end.

(** [Manager.readPackageMetadata] (and [extractPackage], which calls it). *)
Fixpoint find_metadata (es : list TarEntry) (stream_err : bool) : cause + PackageMetadata :=
  match es with
  | [] => if stream_err then inl BadArchive else inl MetadataNotFound
  | e :: rest =>
      if bool_decide (hdr_Name e = "metadata.json" ∨ hdr_Name e = "./metadata.json")
      then match json_metadata E (hdr_Content e) with
           | Some m => inr m
           | None => inl BadMetadata
           end
      else find_metadata rest stream_err
  end.

Definition readPackageMetadata (pkgPath : string) (w : World E) : cause + PackageMetadata :=
  match os_ReadFile E (w_fs w) pkgPath with
  | inl e => inl (OsError e)
  | inr bytes =>
      match gunzip_tar E bytes with
      | None => inl BadArchive
      | Some ar => find_metadata (entries ar) (stream_error ar)
      end
  end.

Definition extractPackage := readPackageMetadata.

(** [Manager.installFiles]. *)
Definition skipped_name (name : string) : bool :=
  bool_decide (name = "metadata.json") || Go.HasPrefix name "scripts/".

(** The two successive [if strings.HasPrefix ... TrimPrefix]. *)
Definition strip_files_prefix (name : string) : string :=
  let name := if Go.HasPrefix name "files/" then Go.TrimPrefix name "files/" else name in
  if Go.HasPrefix name "./files/" then Go.TrimPrefix name "./files/" else name.

(** Where an entry goes, or [None] when the loop [continue]s on it. *)
Definition target_of (name : string) : option string :=
  if skipped_name name then None
  else
    let name := strip_files_prefix name in
    if bool_decide (name = "" ∨ name = ".") then None
    else Some ("/" +:+ name).

Fixpoint installFiles_loop (es : list TarEntry) (stream_err : bool)
    (w : World E) (installedFiles : list string)
    : World E * (list string * option cause) :=
  match es with
  | [] => (w, (installedFiles, if stream_err then Some BadArchive else None))
  | e :: rest =>
      match target_of (hdr_Name e) with
      | None => installFiles_loop rest stream_err w installedFiles
      | Some target =>
          match hdr_Typeflag e with
          | TypeDir =>
              match do_MkdirAll target (hdr_Mode e) w with
              | (w1, Some err) => (w1, (installedFiles, Some (OsError err)))
              | (w1, None) => installFiles_loop rest stream_err w1 installedFiles
              end
          | TypeReg =>
              match do_MkdirAll (filepath_Dir E target) 493 w with
              | (w1, Some err) => (w1, (installedFiles, Some (OsError err)))
              | (w1, None) =>
                  match do_Create target (hdr_Mode e) w1 with
                  | (w2, Some err) => (w2, (installedFiles, Some (OsError err)))
                  | (w2, None) =>
                      match do_Write target (hdr_Content e) w2 with
                      | (w3, Some err) => (w3, (installedFiles, Some (OsError err)))
                      | (w3, None) =>
                          installFiles_loop rest stream_err w3 (installedFiles ++ [target])
                      end
                  end
              end
          | TypeSymlink =>
              let w1 := fst (do_Remove target w) in
              match do_Symlink (hdr_Linkname e) target w1 with
              | (w2, Some err) => (w2, (installedFiles, Some (OsError err)))
              | (w2, None) =>
                  installFiles_loop rest stream_err w2 (installedFiles ++ [target])
              end
          | _ => installFiles_loop rest stream_err w installedFiles
          end
      end
  end.

Definition installFiles (pkgPath : string) (w : World E)
    : World E * (list string * option cause) :=
  match os_ReadFile E (w_fs w) pkgPath with
  | inl e => (w, ([], Some (OsError e)))
  | inr bytes =>
      match gunzip_tar E bytes with
      | None => (w, ([], Some BadArchive))
      | Some ar => installFiles_loop (entries ar) (stream_error ar) w []
      end
  end.

(** [Manager.removeFiles]: from the last path to the first; when a removal
    fails with anything but "does not exist", the parent directory is tried
    instead.  The function has one [return], [return nil]. *)
Definition remove_one (w : World E) (path : string) : World E :=
  match do_Remove path w with
  | (w1, Some err) =>
      if negb (IsNotExist err) then fst (do_Remove (filepath_Dir E path) w1) else w1
  | (w1, None) => w1
  end.

Definition removeFiles (paths : list string) (w : World E) : World E * option cause :=
  (foldl remove_one w (reverse paths), None).

(** [Manager.runScript]. *)
Definition runScript (script name : string) (w : World E) : World E * option cause :=
  let pattern := "mix-script-" +:+ (if bool_decide (name ≠ "") then name +:+ "-" else "") in
  match os_CreateTemp E (w_fs w) (pattern +:+ "*") with
  | (fs1, inl e) => (with_fs w fs1 [], Some (OsError e))
  | (fs1, inr tmp) =>
      let w1 := with_fs w fs1 [EvCreate tmp] in
      match do_Write tmp script w1 with
      | (w2, Some e) => (fst (do_Remove tmp w2), Some (OsError e))
      | (w2, None) =>
          let fs3 := os_Chmod E (w_fs w2) tmp 493 in
          let '(fs4, ok) := exec_sh E fs3 tmp in
          let w4 := with_fs w2 fs4 [EvScript name script] in
          (fst (do_Remove tmp w4), if ok then None else Some ExitError)
      end
  end.

(** [Manager.Install]. *)
Definition Install (pkgName : string) (w : World E) : World E * result unit :=
  if IsInstalled (w_db w) pkgName then (w, Err (AlreadyInstalled pkgName))
  else
  match GetPackage (w_db w) pkgName with
  | None => (w, Err (NotInDatabase pkgName))
  | Some info =>
  let w := send "start" 0 "Starting installation" w in
  match downloadPackage pkgName (info_Version info) w with
  | (w, inl c) => (w, Err (DownloadFailed c))
  | (w, inr pkgPath) =>
  let '(w, verified) :=
    if bool_decide (info_Checksum info ≠ "")
    then
      let w := send "verify" 25 "Verifying checksum" w in
      match verifyChecksum pkgPath (info_Checksum info) w with
      | Some c => (fst (do_Remove pkgPath w), Some c)
      | None => (w, None)
      end
    else (w, None) in
  match verified with
  | Some c => (w, Err (ChecksumFailed c))
  | None =>
  let w := send "extract" 50 "Extracting package" w in
  match extractPackage pkgPath w with
  | inl c => (w, Err (ExtractFailed c))
  | inr metadata =>
  let '(w, pre) :=
    if bool_decide (meta_PreInstall metadata ≠ "")
    then runScript (meta_PreInstall metadata) "pre-install" w
    else (w, None) in
  match pre with
  | Some c => (w, Err (ScriptFailed "pre-install" c))
  | None =>
  let w := send "install" 75 "Installing files" w in
  match installFiles pkgPath w with
  | (w, (_, Some c)) => (w, Err (InstallFilesFailed c))
  | (w, (installedFiles, None)) =>
  let '(w, post) :=
    if bool_decide (meta_PostInstall metadata ≠ "")
    then
      match runScript (meta_PostInstall metadata) "post-install" w with
      | (w, Some c) => (fst (removeFiles installedFiles w), Some c)
      | (w, None) => (w, None)
      end
    else (w, None) in
  match post with
  | Some c => (w, Err (ScriptFailed "post-install" c))
  | None =>
  let w := with_db w (RecordInstallation (w_db w) pkgName (info_Version info) installedFiles) in
  let w := send "done" 100 "Installation complete" w in
  (w, Ok tt)
  end end end end end end end.

(** [Manager.Remove], from the point where [info] has been looked up. *)
Definition Remove_with (info : option PackageInfo) (files : list string)
    (pkgName : string) (w : World E) : World E * result unit :=
  let w := send "start" 0 "Starting removal" w in
  let '(w, pre) :=
    match info with
    | Some i =>
        if bool_decide (info_PreRemove i ≠ "")
        then
          let w := send "pre-remove" 10 "Running pre-remove script" w in
          runScript (info_PreRemove i) "pre-remove" w
        else (w, None)
    | None => (w, None)
    end in
  match pre with
  | Some c => (w, Err (ScriptFailed "pre-remove" c))
  | None =>
  let w := send "remove-files" 50 "Removing files" w in
  match removeFiles files w with
  | (w, Some c) => (w, Err (RemoveFilesFailed c))
  | (w, None) =>
  let '(w, post) :=
    match info with
    | Some i =>
        if bool_decide (info_PostRemove i ≠ "")
        then
          let w := send "post-remove" 80 "Running post-remove script" w in
          runScript (info_PostRemove i) "post-remove" w
        else (w, None)
    | None => (w, None)
    end in
  match post with
  | Some c => (w, Err (ScriptFailed "post-remove" c))
  | None =>
  let w := with_db w (RemoveInstallation (w_db w) pkgName) in
  let w := send "done" 100 "Removal complete" w in
  (w, Ok tt)
  end end end.

(** [Manager.Remove]; [purge] is not read. *)
Definition Remove (pkgName : string) (purge : bool) (w : World E)
    : World E * result unit :=
  if negb (IsInstalled (w_db w) pkgName) then (w, Err (NotInstalled pkgName))
  else
    match GetInstalledFiles (w_db w) pkgName with
    | None => (w, Err GetFilesFailed)
    | Some files =>
        let info := GetInstalledPackage (w_db w) pkgName in
        Remove_with info files pkgName w
    end.

(** [Manager.Upgrade]. *)
Definition Upgrade (pkgName : string) (w : World E) : World E * result unit :=
  match Remove pkgName false w with
  | (w, Err e) => (w, Err e)
  | (w, Ok _) => Install pkgName w
  end.

End manager.

(** ** Vocabulary of the engine's properties *)

(** The events a call appended to the log of [w] to reach [w']. *)
Definition added {E : Env} (w w' : World E) : list Event :=
  drop (length (w_log w)) (w_log w').

Definition is_script (ev : Event) : bool :=
  match ev with EvScript _ _ => true | _ => false end.

(** The path an event wrote as a regular file or a symbolic link. *)
Definition written_path (ev : Event) : option string :=
  match ev with
  | EvWrite p => Some p
  | EvSymlink p => Some p
  | _ => None
  end.

Definition listed (t : Typeflag) : bool :=
  match t with TypeReg | TypeSymlink => true | _ => false end.

(** The paths [installFiles] is to return for a list of entries: the
    targets of the regular-file and symbolic-link entries, in order. *)
Definition planned (es : list TarEntry) : list string :=
  omap (fun e => if listed (hdr_Typeflag e) then target_of (hdr_Name e) else None) es.

(** The directories it is to create for directory entries. *)
Definition planned_dirs (es : list TarEntry) : list string :=
  omap (fun e => match hdr_Typeflag e with
                 | TypeDir => target_of (hdr_Name e)
                 | _ => None
                 end) es.

(** Entry names of an archive packed from [.]: the metadata document and
    the scripts directory behind a [./]. *)
Definition dot_prefixed (name : string) : bool :=
  bool_decide (name = "./metadata.json") || Go.HasPrefix name "./scripts/".

(** The extraction target as the specification words it: the metadata
    entry and entries under [scripts/] are skipped, a [files/] or a
    [./files/] prefix is stripped, an empty or [.] name is skipped, and the
    target is [/] followed by the stripped name. *)
Definition spec_strip (name : string) : string :=
  if Go.HasPrefix name "files/" then Go.TrimPrefix name "files/"
  else if Go.HasPrefix name "./files/" then Go.TrimPrefix name "./files/"
  else name.

Definition spec_target (name : string) : option string :=
  if bool_decide (name = "metadata.json") || Go.HasPrefix name "scripts/" then None
  else
    let name := spec_strip name in
    if bool_decide (name = "" ∨ name = ".") then None
    else Some ("/" +:+ name).

(** The path an event acts on, for the events that create something. *)
Definition created_path (ev : Event) : option string :=
  match ev with
  | EvMkdirAll p | EvCreate p | EvWrite p | EvSymlink p => Some p
  | _ => None
  end.

(** ** Invariants of the engine's log *)

Section engine_invariants.
Variable E : Env.

(** [w'] has the database of [w] and its log extended by events that all
    satisfy [P]. *)
Definition grows (P : Event -> Prop) (w w' : World E) : Prop :=
  w_db w' = w_db w ∧ ∃ evs, w_log w' = w_log w ++ evs ∧ Forall P evs.

(** [P] holds of every event other than a script run. *)
Definition quiet (P : Event -> Prop) : Prop :=
  ∀ ev, is_script ev = false → P ev.

(** The log alone: [w'] extends the log of [w] by events satisfying [P]. *)
Definition extends (P : Event -> Prop) (w w' : World E) : Prop :=
  ∃ evs, w_log w' = w_log w ++ evs ∧ Forall P evs.

End engine_invariants.

(** ** A small concrete environment

    Files are a map from path to content; directories are not tracked.
    Removing one of the [stuck] paths fails with [EACCES].  A script fails
    exactly when its text is [exit 1].  Archives and metadata documents are
    looked up in the tables [archives] and [documents]; the checksum is a
    tag in front of the content.  The network is down. *)
Definition last_slash (s : string) : option nat :=
  foldl (fun acc i => if bool_decide (String.get i s = Some "/"%char) then Some i else acc)
        None (seq 0 (String.length s)).

Definition simple_Dir (path : string) : string :=
  match last_slash path with
  | None => "."
  | Some O => "/"
  | Some i => String.substring 0 i path
  end.

Definition table_lookup {A : Type} (t : list (string * A)) (k : string) : option A :=
  snd <$> List.find (fun kv => bool_decide (kv.1 = k)) t.

Definition test_env (stuck : list string)
    (archives : list (string * Archive))
    (documents : list (string * PackageMetadata)) : Env :=
  {| FS := gmap string string;
     os_Stat := fun fs p => bool_decide (is_Some (fs !! p));
     os_ReadFile := fun fs p =>
       match fs !! p with Some c => inr c | None => inl ENOENT end;
     os_Remove := fun fs p =>
       match fs !! p with
       | None => (fs, Some ENOENT)
       | Some _ => if bool_decide (p ∈ stuck) then (fs, Some EACCES) else (delete p fs, None)
       end;
     os_MkdirAll := fun fs _ _ => (fs, None);
     os_Create := fun fs p _ => (<[p := ""]> fs, None);
     os_Write := fun fs p c => (<[p := c]> fs, None);
     os_Symlink := fun fs l p =>
       match fs !! p with
       | Some _ => (fs, Some EEXIST)
       | None => (<[p := "-> " +:+ l]> fs, None)
       end;
     os_CreateTemp := fun fs pat => (<["/tmp/" +:+ pat := ""]> fs, inr ("/tmp/" +:+ pat));
     os_Chmod := fun fs _ _ => fs;
     exec_sh := fun fs p => (fs, bool_decide (fs !! p ≠ Some "exit 1"));
     http_Get := fun _ => None;
     gunzip_tar := table_lookup archives;
     json_metadata := table_lookup documents;
     sha256_hex := fun c => "sha256:" +:+ c;
     filepath_Join := fun a b => a +:+ "/" +:+ b;
     filepath_Dir := simple_Dir;
     sql_scan_strings := fun _ => None |}.

Definition test_cfg : Config :=
  {| repoURL := "http://localhost:8080"; cacheDir := "/cache"; progressChan := true |}.

(** The package [svc]: one file, and a pre-remove and a post-remove script
    that would fail. *)
Definition svc_metadata : PackageMetadata :=
  {| meta_Name := "svc"; meta_Version := "1.0.0"; meta_Description := "";
     meta_Dependencies := []; meta_Files := ["/usr/bin/svc"]; meta_Checksum := "";
     meta_PreInstall := ""; meta_PostInstall := "";
     meta_PreRemove := "exit 1"; meta_PostRemove := "exit 1" |}.

Definition svc_archive : Archive :=
  {| entries := [ mkTarEntry "metadata.json" TypeReg 420 "" "svc.json";
                  mkTarEntry "files/" TypeDir 493 "" "";
                  mkTarEntry "files/usr/bin/svc" TypeReg 493 "" "#!svc" ];
     stream_error := false |}.

(** The package [bad]: two files and a post-install script that fails. *)
Definition bad_metadata : PackageMetadata :=
  {| meta_Name := "bad"; meta_Version := "2.0"; meta_Description := "";
     meta_Dependencies := []; meta_Files := []; meta_Checksum := "";
     meta_PreInstall := ""; meta_PostInstall := "exit 1";
     meta_PreRemove := ""; meta_PostRemove := "" |}.

Definition bad_archive : Archive :=
  {| entries := [ mkTarEntry "metadata.json" TypeReg 420 "" "bad.json";
                  mkTarEntry "files/etc/bad.conf" TypeReg 420 "" "x=1";
                  mkTarEntry "files/usr/bin/bad" TypeSymlink 511 "/bin/true" "" ];
     stream_error := false |}.

(** An entry that is a hard link, and an archive that holds it next to a
    regular file whose name begins with [files/./files/]. *)
Definition hardlink_entry : TarEntry :=
  mkTarEntry "files/bin/gunzip" TypeLink 493 "bin/gzip" "".

Definition nested_entry : TarEntry :=
  mkTarEntry "files/./files/etc/x" TypeReg 420 "" "x".

Definition odd_archive : Archive :=
  {| entries := [ mkTarEntry "metadata.json" TypeReg 420 "" "odd.json";
                  hardlink_entry; nested_entry ];
     stream_error := false |}.

Definition env0 : Env :=
  test_env []
    [("svc.mixpkg", svc_archive); ("bad.mixpkg", bad_archive); ("odd.mixpkg", odd_archive)]
    [("svc.json", svc_metadata); ("bad.json", bad_metadata)].

Definition catalog0 : Database :=
  {| packages :=
       <["svc" := mkPackageRow "1.0.0" "a service" [] [] "" 0]>
         (<["bad" := mkPackageRow "2.0" "" [] [] "" 0]>
            (<["sum" := mkPackageRow "3.1" "" [] [] "sha256:expected" 0]> ∅));
     installed := ∅; files := ∅ |}.

Definition world0 : World env0 :=
  {| w_db := catalog0;
     w_fs := <["/cache/svc-1.0.0.mixpkg" := "svc.mixpkg"]>
               (<["/cache/bad-2.0.mixpkg" := "bad.mixpkg"]>
                  (<["/cache/sum-3.1.mixpkg" := "corrupted"]>
                     (<["/cache/odd-1.0.mixpkg" := "odd.mixpkg"]> ∅)));
     w_log := [] |}.

(** An environment in which the removal of [/a] and of [/b] fails. *)
Definition env_stuck : Env := test_env ["/a"; "/b"] [] [].

Definition world_stuck : World env_stuck :=
  {| w_db := RecordInstallation (add_package "two" [] empty_db) "two" "1.0.0" ["/a"; "/b"];
     w_fs := <["/a" := "1"]> (<["/b" := "2"]> ∅);
     w_log := [] |}.

(** * Further functions of the resolver, the store and the engine *)

From stdpp Require sorting.

(** ** Resolver: [ResolveDependencies], [CheckDependencies], [GetRemoveOrder] *)

Definition rank_chain (s : string) : nat :=
  if (s =? "level0")%string then 0%nat
  else if (s =? "level1")%string then 1%nat
  else if (s =? "level2")%string then 2%nat else 3%nat.

(** Some requested name that is not installed reaches [x] through
    dependencies that are not installed. *)
Definition wanted (d : Database) (pkgs : list string) (x : string) : Prop :=
  ∃ p, p ∈ pkgs ∧ IsInstalled d p = false ∧ rtc (flip (needed d)) p x.

(** Every name on the recursion stack needs [pkg], through dependencies
    that are not installed. *)
Definition on_stack (d : Database) (r : Resolver) (pkg : string) : Prop :=
  ∀ u, u ∈ unresolved r → tc (flip (needed d)) u pkg.

(** An error returned for [pkg] names a package that [pkg] reaches and that
    needs itself. *)
Definition cycle_found (d : Database) (pkg : string) (o : option (result Resolver)) : Prop :=
  ∀ e, o = Some (Err e) →
       ∃ y, e = CircularDependency y ∧ tc (needed d) y y ∧ rtc (flip (needed d)) pkg y.

(** [Manager.ResolveDependencies] and [Resolver.GetInstallOrder]: both
    return what [Resolve] returns, which always returns ([Resolve_total]). *)
Definition ResolveDependencies (d : Database) (pkgs : list string) : result (list string) :=
  match Resolve d pkgs with
  | Some r => r
  | None => Ok []
  end.

Definition GetInstallOrder := ResolveDependencies.

(** [Resolver.CheckDependencies]: [None] is the "not found" error of
    [GetDependencies], returned as it is. *)
Fixpoint CheckDependencies_loop (d : Database) (deps missing : list string) : list string :=
  match deps with
  | [] => missing
  | dep :: rest =>
      let depName := parseDependency dep in
      if IsInstalled d depName
      then CheckDependencies_loop d rest missing
      else CheckDependencies_loop d rest (missing ++ [depName])
  end.

Definition CheckDependencies (d : Database) (pkg : string) : option (list string) :=
  match GetDependencies d pkg with
  | None => None
  | Some deps => Some (CheckDependencies_loop d deps [])
  end.

(** [Resolver.GetRemoveOrder] and [getRemoveOrder].  The state is the
    [visited] map, a set as in [Resolver], and the [order] slice.  The only
    error is the one of the database query, which is outside the model;
    [None] means that the bound [fuel] on the recursion depth was reached. *)
Section remove_order.
Variable db : Database.

Fixpoint getRemoveOrder_loop
    (rec : string -> gset string * list string -> option (gset string * list string))
    (revDeps : list string) (st : gset string * list string)
    : option (gset string * list string) :=
  match revDeps with
  | [] => Some st
  | dep :: rest =>
      match rec dep st with
      | Some st' => getRemoveOrder_loop rec rest st'
      | None => None
      end
  end.

Fixpoint getRemoveOrder (fuel : nat) (pkg : string) (st : gset string * list string)
    : option (gset string * list string) :=
  match fuel with
  | O => None
  | S fuel' =>
      if bool_decide (pkg ∈ st.1) then Some st
      else
        let st1 := ({[pkg]} ∪ st.1, st.2) in
        match getRemoveOrder_loop (getRemoveOrder fuel')
                (GetReverseDependencies db pkg) st1 with
        | Some st2 => Some (st2.1, st2.2 ++ [pkg])
        | None => None
        end
  end.

Definition GetRemoveOrder_fuel (fuel : nat) (pkgs : list string) : option (list string) :=
  snd <$> getRemoveOrder_loop (getRemoveOrder fuel) pkgs (∅, []).

(** Every name the recursion descends into is a key of the ledger, so the
    depth never exceeds the number of ledger rows plus one
    ([GetRemoveOrder_spec] below). *)
Definition GetRemoveOrder (pkgs : list string) : option (list string) :=
  GetRemoveOrder_fuel (S (S (size (installed db)))) pkgs.

(** [q] is reported as a reverse dependency of [p]. *)
Definition dependant (p q : string) : Prop := q ∈ GetReverseDependencies db p.

(** What the state of [getRemoveOrder] satisfies between two calls. *)
Record RInv (st : gset string * list string) : Prop := mkRInv {
  rinv_visited : ∀ x, x ∈ st.2 → x ∈ st.1;
  rinv_nodup : NoDup st.2;
  rinv_closed : ∀ x q, x ∈ st.2 → dependant x q → q ∈ st.1;
  rinv_first : ∀ x q, x ∈ st.2 → dependant x q → precedes st.2 q x ∨ tc dependant q q
}.

(** The names visited but not yet in [order] are the callers of the current
    call; each of them has [pkg] among its direct or indirect dependants. *)
Definition callers_reach (st : gset string * list string) (pkg : string) : Prop :=
  ∀ u, u ∈ st.1 → u ∉ st.2 → tc dependant u pkg.

(** How a call on [pkg] changes the state. *)
Record RStep (pkg : string) (st st' : gset string * list string) : Prop := mkRStep {
  rstep_inv : RInv st';
  rstep_order : ∃ ext, st'.2 = st.2 ++ ext ∧ st'.1 = st.1 ∪ list_to_set ext
                       ∧ (∀ x, x ∈ ext → x ∉ st.1)
                       ∧ (∀ x, x ∈ ext → rtc dependant pkg x);
  rstep_done : pkg ∈ st'.1
}.

(** What a call of the recursive function guarantees. *)
Definition remove_rec_spec
    (rec : string -> gset string * list string -> option (gset string * list string)) : Prop :=
  ∀ pkg st st', rec pkg st = Some st' → RInv st → callers_reach st pkg →
                RStep pkg st st'.

(** Calls on ledger keys return as long as [fuel] exceeds the number of
    ledger keys not yet visited. *)
Definition remove_total (fuel : nat) : Prop :=
  ∀ q st, q ∈ dom (installed db) → (size (dom (installed db) ∖ st.1) < fuel)%nat →
          ∃ st', getRemoveOrder fuel q st = Some st' ∧ st.1 ⊆ st'.1.

End remove_order.

(** A ranking that every reported reverse-dependency edge increases. *)
Definition ranked_dependants (d : Database) (rank : string -> nat) : Prop :=
  map_Forall (fun q row =>
    IsInstalled d q = true →
    Forall (fun dep => (rank (revdep_name dep) < rank q)%nat) (pkg_dependencies row))
    (packages d).

Definition rank_dependants (s : string) : nat :=
  if (s =? "lib")%string then 0%nat else if (s =? "tool")%string then 1%nat else 2%nat.

(** Fixture: [lib] is required by the installed [tool] and [gui], and
    [tool] by the installed [gui]. *)
Definition db_dependants : Database :=
  RecordInstallation
    (RecordInstallation
       (RecordInstallation
          (add_package "gui" ["tool>=1.0"; "lib"]
             (add_package "tool" ["lib=1.0"] (add_package "lib" [] empty_db)))
          "lib" "1.0.0" [])
       "tool" "1.0.0" [])
    "gui" "1.0.0" [].

(** ** Versions and upgrades *)

(** The number of segment [i] of a version, 0 when the version has fewer
    segments. *)
Definition segment (v : string) (i : nat) : Z :=
  default 0 (segment_values v !! i).

(** [v1] is below [v2] in the lexicographic order of their segments. *)
Definition version_lt (v1 v2 : string) : Prop :=
  ∃ i, segment v1 i < segment v2 i ∧ ∀ j, (j < i)%nat → segment v1 j = segment v2 j.

Record PackageUpgrade : Type := mkPackageUpgrade {
  up_Name : string;
  up_CurrentVersion : string;
  up_NewVersion : string
}.

(** The two errors of [CheckUpgrade]. *)
Inductive upgrade_error : Type :=
| PackageNotInstalled       (* "package not installed" *)
| PackageNotInRepository.   (* "package not in repository" *)

Section upgrades.
Variable E : Env.

(** [Manager.CheckUpgrade]; [inr None] is the result [nil, nil]. *)
Definition CheckUpgrade (d : Database) (pkgName : string)
    : upgrade_error + option PackageUpgrade :=
  match GetInstalledPackage E d pkgName with
  | None => inl PackageNotInstalled
  | Some inst =>
      match GetPackage d pkgName with
      | None => inl PackageNotInRepository
      | Some available =>
          if compareVersions (info_Version available) (info_Version inst) >? 0
          then inr (Some {| up_Name := pkgName;
                            up_CurrentVersion := info_Version inst;
                            up_NewVersion := info_Version available |})
          else inr None
      end
  end.

(** [Manager.GetPackageInfo]: the ledger first, then the catalog; [None]
    is the error "package %s not found". *)
Definition GetPackageInfo (d : Database) (pkgName : string) : option PackageInfo :=
  match GetInstalledPackage E d pkgName with
  | Some info => Some info
  | None => GetPackage d pkgName
  end.

End upgrades.

(** ** Listings *)

(** [ORDER BY i.name]: the byte order of the names. *)
Definition name_le (a b : string * InstalledRow) : Prop := String.leb a.1 b.1 = true.

#[global] Instance name_le_dec a b : Decision (name_le a b) :=
  decide (String.leb a.1 b.1 = true).

(** [Database.ListInstalled]: the ledger left-joined with the catalog, in
    the order of the names.  The query reads three columns; the other
    fields keep their zero value. *)
Definition ListInstalled (d : Database) : list PackageInfo :=
  (fun kv : string * InstalledRow =>
     {| info_Name := kv.1; info_Version := inst_version kv.2;
        info_Description := from_option pkg_description "" (packages d !! kv.1);
        info_Dependencies := []; info_Files := []; info_Checksum := "";
        info_Size := 0; info_Installed := true;
        info_PreRemove := ""; info_PostRemove := "" |})
  <$> sorting.merge_sort name_le (map_to_list (installed d)).

(** [Manager.GetUpgradablePackages]: a package whose check fails is
    passed over. *)
Definition GetUpgradablePackages (E : Env) (d : Database) : list PackageUpgrade :=
  omap (fun pkg => match CheckUpgrade E d (info_Name pkg) with
                   | inr (Some upgrade) => Some upgrade
                   | _ => None
                   end)
       (ListInstalled d).

(** ** Catalog synchronisation: [UpdateDatabase] and [scanLocalPackages] *)

(** What these two functions need beyond [Env]: the decoder of the
    repository index and [filepath.Glob] ([None]: the pattern is
    malformed). *)
Record IndexEnv (E : Env) : Type := mkIndexEnv {
  json_index : string -> option (list PackageInfo);
  filepath_Glob : FS E -> string -> option (list string)
}.
Arguments json_index {E} _ _.
Arguments filepath_Glob {E} _ _ _.

Inductive update_error : Type :=
| IndexParseFailed      (* "failed to parse package index: %w" *)
| GlobFailed.           (* filepath.ErrBadPattern *)

(** The catalog row [AddPackage] writes for a record. *)
Definition row_of (pkg : PackageInfo) : PackageRow :=
  mkPackageRow (info_Version pkg) (info_Description pkg) (info_Dependencies pkg)
               (info_Files pkg) (info_Checksum pkg) (info_Size pkg).

(** The [PackageInfo] that [scanLocalPackages] builds from a metadata
    document. *)
Definition info_of_metadata (m : PackageMetadata) : PackageInfo :=
  {| info_Name := meta_Name m; info_Version := meta_Version m;
     info_Description := meta_Description m; info_Dependencies := meta_Dependencies m;
     info_Files := meta_Files m; info_Checksum := meta_Checksum m;
     info_Size := 0; info_Installed := false;
     info_PreRemove := ""; info_PostRemove := "" |}.

Section update.
Variable E : Env.
Variable I : IndexEnv E.
Variable cfg : Config.

(** The loop of [scanLocalPackages]: an archive whose metadata cannot be
    read is skipped. *)
Definition scan_one (w : World E) (file : string) : World E :=
  match readPackageMetadata E file w with
  | inl _ => w
  | inr metadata => with_db E w (AddPackage (w_db w) (info_of_metadata metadata))
  end.

Definition scanLocalPackages (w : World E) : World E * option update_error :=
  match filepath_Glob I (w_fs w) (filepath_Join E (cacheDir cfg) "*.mixpkg") with
  | None => (w, Some GlobFailed)
  | Some found => (foldl scan_one w found, None)
  end.

(** [Manager.UpdateDatabase]. *)
Definition UpdateDatabase (w : World E) : World E * option update_error :=
  match http_Get E (repoURL cfg +:+ "/index.json") with
  | None => scanLocalPackages w
  | Some (status, body) =>
      if negb (status =? 200) then scanLocalPackages w
      else
        match json_index I body with
        | None => (w, Some IndexParseFailed)
        | Some pkgs => (with_db E w (foldl AddPackage (w_db w) pkgs), None)
        end
  end.

End update.

(** [d'] differs from [d] only by catalog rows added or replaced. *)
Definition catalog_grew (d d' : Database) : Prop :=
  installed d' = installed d ∧ files d' = files d ∧ dom (packages d) ⊆ dom (packages d').

(** The last record of an index that carries the name. *)
Definition last_named (pkgs : list PackageInfo) (name : string) : option PackageInfo :=
  snd <$> list_find (fun p => info_Name p = name) (reverse pkgs).

(** ** The [install] command: [runInstall] (cmd)

    What the command prints is left out; [response] is the word
    [fmt.Scanln] reads when confirmation is asked for. *)
Inductive cli_error : Type :=
| ResolutionFailed (e : error)                (* "dependency resolution failed: %w" *)
| InstallFailed (pkg : string) (e : error).   (* "failed to install %s: %w" *)

Section commands.
Variable E : Env.
Variable cfg : Config.

(** The loop [for _, pkg := range toInstall]. *)
Fixpoint install_each (toInstall : list string) (w : World E)
    : World E * option cli_error :=
  match toInstall with
  | [] => (w, None)
  | pkg :: rest =>
      match Install E cfg pkg w with
      | (w', Err e) => (w', Some (InstallFailed pkg e))
      | (w', Ok _) => install_each rest w'
      end
  end.

(** The value of the variable [toInstall]. *)
Definition toInstall (noDeps : bool) (d : Database) (args : list string)
    : result (list string) :=
  if noDeps then Ok args else ResolveDependencies d args.

Definition runInstall (yes noDeps : bool) (response : string) (args : list string)
    (w : World E) : World E * option cli_error :=
  match toInstall noDeps (w_db w) args with
  | Err e => (w, Some (ResolutionFailed e))
  | Ok l =>
      match l with
      | [] => (w, None)
      | _ =>
          if negb yes && bool_decide (response ≠ "y" ∧ response ≠ "Y")
          then (w, None)
          else install_each l w
      end
  end.

(** The user agreed to the installation, by flag or at the prompt. *)
Definition confirmed (yes : bool) (response : string) : Prop :=
  yes = true ∨ response = "y" ∨ response = "Y".

End commands.

(** An index that names [svc] twice. *)
Definition index0 : list PackageInfo :=
  [ mkPackageInfo "svc" "1.0.0" "old" [] [] "" 10 false "" "";
    mkPackageInfo "lib" "2.0" "" [] [] "" 20 false "" "";
    mkPackageInfo "svc" "1.1.0" "new" ["lib>=2.0"] [] "" 11 true "exit 0" "" ].

(** [env0] with a repository that serves the index, and the index
    decoder and glob that go with it: the glob finds two cached archives,
    the second of which is not an archive. *)
Definition env_net : Env :=
  {| FS := FS env0;
     os_Stat := os_Stat env0; os_ReadFile := os_ReadFile env0;
     os_Remove := os_Remove env0; os_MkdirAll := os_MkdirAll env0;
     os_Create := os_Create env0; os_Write := os_Write env0;
     os_Symlink := os_Symlink env0; os_CreateTemp := os_CreateTemp env0;
     os_Chmod := os_Chmod env0; exec_sh := exec_sh env0;
     http_Get := fun url =>
       if bool_decide (url = "http://localhost:8080/index.json")
       then Some (200, "index") else None;
     gunzip_tar := gunzip_tar env0; json_metadata := json_metadata env0;
     sha256_hex := sha256_hex env0; filepath_Join := filepath_Join env0;
     filepath_Dir := filepath_Dir env0; sql_scan_strings := sql_scan_strings env0 |}.

Definition world_net : World env_net :=
  mkWorld (E := env_net) (w_db world0) (w_fs world0) [].

Definition index_env (E : Env) : IndexEnv E :=
  {| json_index := fun body => if bool_decide (body = "index") then Some index0 else None;
     filepath_Glob := fun fs pat =>
       Some ["/cache/svc-1.0.0.mixpkg"; "/cache/sum-3.1.mixpkg"] |}.
(** * Properties *)

(** ** The resolver *)

Section resolver_facts.
Variable db : Database.

Lemma precedes_app_l l ext a b : precedes l a b → precedes (l ++ ext) a b.
Proof.
  intros (i & j & Hi & Hj & Hlt). exists i, j.
  split_and!; [by apply lookup_app_l_Some | by apply lookup_app_l_Some | done].
Qed.

Lemma precedes_snoc l a b : a ∈ l → precedes (l ++ [b]) a b.
Proof.
  intros [i Hi]%list_elem_of_lookup. exists i, (length l).
  split_and!.
  - by apply lookup_app_l_Some.
  - rewrite lookup_app_r by lia. by rewrite Nat.sub_diag.
  - by eapply lookup_lt_Some.
Qed.

Lemma precedes_elem_l l a b : precedes l a b → a ∈ l.
Proof. intros (i & j & Hi & _). by eapply list_elem_of_lookup_2. Qed.

Lemma precedes_trans l a b c :
  NoDup l → precedes l a b → precedes l b c → precedes l a c.
Proof.
  intros Hnd (i & j & Hi & Hj & Hij) (j' & k & Hj' & Hk & Hjk).
  assert (j = j') by (eapply NoDup_lookup; eauto). subst j'.
  exists i, k. split_and!; [done | done | lia].
Qed.

Lemma precedes_irrefl l a : NoDup l → ¬ precedes l a a.
Proof.
  intros Hnd (i & j & Hi & Hj & Hij).
  assert (i = j) by (eapply NoDup_lookup; eauto). lia.
Qed.

Lemma Step_refl r : Inv db r → Step db r r.
Proof.
  intros HI. split; [done | done | done |].
  exists []. rewrite app_nil_r. split; [done | intros x Hx; by apply elem_of_nil in Hx].
Qed.

Lemma Step_trans r1 r2 r3 : Step db r1 r2 → Step db r2 r3 → Step db r1 r3.
Proof.
  intros [_ Hu1 Hr1 (e1 & Ho1 & He1)] [HI Hu2 Hr2 (e2 & Ho2 & He2)].
  split; [done | congruence | set_solver |].
  exists (e1 ++ e2). split.
  - by rewrite Ho2, Ho1, <- app_assoc.
  - intros x [Hx | Hx]%elem_of_app; [by apply He1 | rewrite <- Hu1; by apply He2].
Qed.

Lemma Step_Pre r r' : Pre db r → Step db r r' → Pre db r'.
Proof.
  intros [_ Hdis] [HI Hu _ (ext & Ho & Hext)]. split; [done |].
  intros x. rewrite Ho, Hu. intros [Hx | Hx]%elem_of_app; auto.
Qed.

Lemma Step_order_mono r r' x : Step db r r' → x ∈ order r → x ∈ order r'.
Proof. intros [_ _ _ (ext & -> & _)] Hx. apply elem_of_app. by left. Qed.

Lemma Step_mark_resolved r name :
  Inv db r → IsInstalled db name = true → Step db r (mark_resolved name r).
Proof.
  intros [H1 H2 H3 H4 H5] Hinst. split; simpl.
  - split; simpl; [set_solver | done | | done | done].
    intros x [->%elem_of_singleton | Hx]%elem_of_union; auto.
  - done.
  - set_solver.
  - exists []. rewrite app_nil_r. split; [done | intros x Hx; by apply elem_of_nil in Hx].
Qed.

(** Leaving [resolve]: [pkg] is appended behind everything it needs. *)
Lemma Step_finish r pkg :
  Inv db r → IsInstalled db pkg = false → pkg ∉ order r → pkg ∉ unresolved r ∖ {[pkg]} →
  (∀ a, needed db a pkg → a ∈ order r) →
  Inv db (finish pkg r).
Proof.
  intros [H1 H2 H3 H4 H5] Hfresh Hnew _ Hdeps. split; simpl.
  - intros x [Hx | ->%list_elem_of_singleton]%elem_of_app; set_solver.
  - intros x [Hx | ->%list_elem_of_singleton]%elem_of_app; auto.
  - intros x [->%elem_of_singleton | Hx]%elem_of_union.
    + right. apply elem_of_app. right. by apply list_elem_of_singleton.
    + destruct (H3 x Hx); [by left | right; apply elem_of_app; by left].
  - apply NoDup_app. split_and!; [done | | apply NoDup_singleton].
    intros x Hx ->%list_elem_of_singleton. done.
  - intros a b [Hb | ->%list_elem_of_singleton]%elem_of_app Hn.
    + apply precedes_app_l. by apply H5.
    + apply precedes_snoc. by apply Hdeps.
Qed.

Lemma resolve_deps_spec rec :
  resolve_spec db rec →
  ∀ deps r r', resolve_deps db rec deps r = Some (Ok r') → Pre db r →
    Step db r r' ∧
    ∀ dep, dep ∈ deps → IsInstalled db (parseDependency dep) = false →
           parseDependency dep ∈ order r'.
Proof.
  intros Hrec. induction deps as [| dep rest IH]; intros r r' Hrun Hpre; simpl in Hrun.
  - injection Hrun as <-. split; [apply Step_refl, Hpre | intros dep Hd; by apply elem_of_nil in Hd].
  - destruct (IsInstalled db (parseDependency dep)) eqn:Hinst.
    + assert (Hs : Step db r (mark_resolved (parseDependency dep) r))
        by (apply Step_mark_resolved; [apply Hpre | done]).
      destruct (IH _ _ Hrun (Step_Pre _ _ Hpre Hs)) as [Hs' Hin].
      split; [by eapply Step_trans |].
      intros d [-> | Hd]%elem_of_cons Hni; [congruence | by apply Hin].
    + destruct (rec (parseDependency dep) r) as [[r1 | e] |] eqn:Hcall; try discriminate.
      destruct (Hrec _ _ _ Hcall Hinst Hpre) as [Hs1 Hin1].
      destruct (IH _ _ Hrun (Step_Pre _ _ Hpre Hs1)) as [Hs' Hin].
      split; [by eapply Step_trans |].
      intros d [-> | Hd]%elem_of_cons Hni; [by eapply Step_order_mono | by apply Hin].
Qed.

Lemma resolve_ok fuel : resolve_spec db (resolve db fuel).
Proof.
  induction fuel as [| fuel IH]; intros pkg r r' Hrun Hfresh Hpre; simpl in Hrun; [done |].
  destruct Hpre as [HI Hdis].
  case_bool_decide as Hun; [done |].
  case_bool_decide as Hres.
  - injection Hrun as <-. split; [by apply Step_refl |].
    destruct (inv_resolved db _ HI _ Hres); [congruence | done].
  - assert (Hnew : pkg ∉ order r) by (intros Hin; by apply Hres, (inv_order_resolved db _ HI)).
    assert (HI1 : Inv db (mark_unresolved pkg r)) by (destruct HI; by split).
    assert (Hpre1 : Pre db (mark_unresolved pkg r)).
    { split; [done |]. simpl. intros x Hx. specialize (Hdis x Hx). set_solver. }
    destruct (GetDependencies db pkg) as [deps |] eqn:Hdeps.
    + destruct (resolve_deps db (resolve db fuel) deps (mark_unresolved pkg r))
        as [[r2 | e] |] eqn:Hloop; try discriminate.
      injection Hrun as <-.
      destruct (resolve_deps_spec _ IH _ _ _ Hloop Hpre1) as [[HI2 Hu2 Hr2 (ext & Ho2 & Hext)] Hin].
      simpl in *.
      assert (Hnew2 : pkg ∉ order r2).
      { rewrite Ho2. intros [Hx | Hx]%elem_of_app; [done |]. apply (Hext _ Hx). set_solver. }
      split; [split |]; simpl.
      * apply Step_finish; try done; [set_solver |].
        intros a [(deps' & dep & Hd & Hdep & <-) Hni]. apply Hin; [congruence | done].
      * rewrite Hu2. set_solver.
      * set_solver.
      * exists (ext ++ [pkg]). split; [by rewrite Ho2, <- app_assoc |].
        intros x [Hx | ->%list_elem_of_singleton]%elem_of_app; [| done].
        specialize (Hext _ Hx). set_solver.
      * apply elem_of_app. right. by apply list_elem_of_singleton.
    + injection Hrun as <-. split; [split |]; simpl.
      * apply Step_finish; try done; [set_solver |].
        intros a [(deps' & dep & Hd & _) _]. congruence.
      * set_solver.
      * set_solver.
      * exists [pkg]. split; [done |]. by intros x ->%list_elem_of_singleton.
      * apply elem_of_app. right. by apply list_elem_of_singleton.
Qed.


(** *** Termination: the recursion is never deeper than the catalog is large *)

Lemma resolve_deps_total U rec :
  total_on U rec →
  ∀ deps r, unresolved r = U →
    ∃ o, resolve_deps db rec deps r = Some o ∧ ∀ r', o = Ok r' → unresolved r' = U.
Proof.
  intros Hrec. induction deps as [| dep rest IH]; intros r Hu; simpl.
  - exists (Ok r). split; [done |]. by intros r' [= <-].
  - destruct (IsInstalled db (parseDependency dep)).
    + by apply IH.
    + destruct (Hrec (parseDependency dep) r Hu) as ([r1 | e] & -> & Hpres).
      * apply IH. by apply Hpres.
      * exists (Err e). split; [done |]. by intros r' [=].
Qed.

Lemma resolve_total fuel :
  ∀ U, U ⊆ dom (packages db) → (size (dom (packages db) ∖ U) < fuel)%nat →
       total_on U (resolve db fuel).
Proof.
  induction fuel as [| fuel IH]; intros U Hsub Hsize pkg r Hu; [lia |]. simpl.
  case_bool_decide as Hun.
  { exists (Err (CircularDependency pkg)). split; [done |]. by intros r' [=]. }
  case_bool_decide as Hres.
  { exists (Ok r). split; [done |]. by intros r' [= <-]. }
  destruct (GetDependencies db pkg) as [deps |] eqn:Hdeps.
  - assert (Hin : pkg ∈ dom (packages db)).
    { apply elem_of_dom. unfold GetDependencies in Hdeps.
      destruct (packages db !! pkg); [by eexists | done]. }
    assert (Hlt : (size (dom (packages db) ∖ ({[pkg]} ∪ U)) < fuel)%nat).
    { assert (size (dom (packages db) ∖ ({[pkg]} ∪ U)) < size (dom (packages db) ∖ U))%nat;
        [| lia].
      apply subset_size. rewrite <- Hu. set_solver. }
    assert (Hsub' : {[pkg]} ∪ U ⊆ dom (packages db)) by set_solver.
    destruct (resolve_deps_total _ _ (IH _ Hsub' Hlt) deps (mark_unresolved pkg r))
      as ([r2 | e] & -> & Hpres); [simpl; by rewrite Hu | |].
    + exists (Ok (finish pkg r2)). split; [done |]. intros r' [= <-]. simpl.
      rewrite (Hpres r2 eq_refl), <- Hu. set_solver.
    + exists (Err e). split; [done |]. by intros r' [=].
  - exists (Ok (finish pkg (mark_unresolved pkg r))). split; [done |].
    intros r' [= <-]. simpl. rewrite <- Hu. set_solver.
Qed.

Lemma mark_installed_unresolved pkgs r :
  unresolved (mark_installed db pkgs r) = unresolved r.
Proof.
  revert r. induction pkgs as [| p rest IH]; intros r; [done |].
  unfold mark_installed in *. simpl. rewrite IH. by destruct (IsInstalled db p).
Qed.

Lemma resolve_each_total fuel pkgs :
  total_on ∅ (resolve db fuel) →
  ∀ r, unresolved r = ∅ → ∃ o, resolve_each db fuel pkgs r = Some o.
Proof.
  intros Htot. induction pkgs as [| p rest IH]; intros r Hu; simpl; [by eexists |].
  case_bool_decide; [by apply IH |].
  destruct (Htot p r Hu) as ([r1 | e] & -> & Hpres); [apply IH; by apply Hpres | by eexists].
Qed.

(** [Resolve] always returns: the bound of [Resolve] is never reached. *)
Lemma Resolve_total pkgs : ∃ o, Resolve db pkgs = Some o.
Proof.
  unfold Resolve, Resolve_fuel.
  destruct (resolve_each_total (S (size (packages db))) pkgs) with
    (r := mark_installed db pkgs new_run) as [[r | e] ->]; [| | by eexists | by eexists].
  - apply resolve_total; [set_solver |].
    rewrite difference_empty_L, size_dom. lia.
  - by rewrite mark_installed_unresolved.
Qed.

Lemma resolve_deps_error rec :
  (∀ pkg r, only_circular (rec pkg r)) →
  ∀ deps r, only_circular (resolve_deps db rec deps r).
Proof.
  intros Hrec. induction deps as [| dep rest IH]; intros r e; simpl; [done |].
  destruct (IsInstalled db (parseDependency dep)); [apply IH |].
  destruct (rec (parseDependency dep) r) as [[r1 | e1] |] eqn:Hcall; [apply IH | | done].
  intros [= <-]. by eapply Hrec.
Qed.

Lemma resolve_error fuel : ∀ pkg r, only_circular (resolve db fuel pkg r).
Proof.
  induction fuel as [| fuel IH]; intros pkg r e; simpl; [done |].
  case_bool_decide; [intros [= <-]; by eexists |].
  case_bool_decide; [done |].
  destruct (GetDependencies db pkg) as [deps |]; [| done].
  destruct (resolve_deps db (resolve db fuel) deps (mark_unresolved pkg r))
    as [[r2 | e2] |] eqn:Hloop; [done | | done].
  intros [= <-]. by eapply (resolve_deps_error _ IH).
Qed.

Lemma resolve_each_error fuel pkgs : ∀ r, only_circular (resolve_each db fuel pkgs r).
Proof.
  induction pkgs as [| p rest IH]; intros r e; simpl; [done |].
  case_bool_decide; [apply IH |].
  destruct (resolve db fuel p r) as [[r1 | e1] |] eqn:Hcall; [apply IH | | done].
  intros [= <-]. by eapply resolve_error.
Qed.

(** *** The two loops of [Resolve] *)

Lemma mark_installed_spec pkgs r :
  Inv db r → Step db r (mark_installed db pkgs r) ∧
          ∀ p, p ∈ pkgs → IsInstalled db p = true → p ∈ resolved (mark_installed db pkgs r).
Proof.
  revert r. induction pkgs as [| p rest IH]; intros r HI.
  - split; [by apply Step_refl | intros p Hp; by apply elem_of_nil in Hp].
  - unfold mark_installed in *. simpl.
    destruct (IsInstalled db p) eqn:Hinst.
    + pose proof (Step_mark_resolved r p HI Hinst) as Hs.
      destruct (IH _ (step_inv db _ _ Hs)) as [Hs' Hin].
      split; [by eapply Step_trans |].
      intros q [-> | Hq]%elem_of_cons Hqi; [| by apply Hin].
      apply (step_resolved db _ _ Hs'). simpl. set_solver.
    + destruct (IH _ HI) as [Hs' Hin]. split; [done |].
      intros q [-> | Hq]%elem_of_cons Hqi; [congruence | by apply Hin].
Qed.

Lemma resolve_each_spec fuel pkgs :
  ∀ r r', resolve_each db fuel pkgs r = Some (Ok r') → Pre db r →
    (∀ p, p ∈ pkgs → IsInstalled db p = true → p ∈ resolved r) →
    Step db r r' ∧ ∀ p, p ∈ pkgs → p ∈ resolved r'.
Proof.
  induction pkgs as [| p rest IH]; intros r r' Hrun Hpre Hinst; simpl in Hrun.
  - injection Hrun as <-. split; [apply Step_refl, Hpre | intros p Hp; by apply elem_of_nil in Hp].
  - case_bool_decide as Hres.
    + destruct (IH _ _ Hrun Hpre) as [Hs Hin]; [intros q Hq; apply Hinst; by right |].
      split; [done |]. intros q [-> | Hq]%elem_of_cons; [| by apply Hin].
      by apply (step_resolved db _ _ Hs).
    + destruct (resolve db fuel p r) as [[r1 | e] |] eqn:Hcall; try discriminate.
      assert (Hfresh : IsInstalled db p = false).
      { destruct (IsInstalled db p) eqn:Hp; [| done]. exfalso. apply Hres, Hinst; [by left | done]. }
      destruct (resolve_ok fuel _ _ _ Hcall Hfresh Hpre) as [Hs1 Hin1].
      destruct (IH _ _ Hrun (Step_Pre _ _ Hpre Hs1)) as [Hs Hin].
      { intros q Hq Hqi. apply (step_resolved db _ _ Hs1), Hinst; [by right | done]. }
      split; [by eapply Step_trans |].
      intros q [-> | Hq]%elem_of_cons; [| by apply Hin].
      apply (step_resolved db _ _ Hs), (inv_order_resolved db _ (step_inv db _ _ Hs1)), Hin1.
Qed.

Lemma Inv_new_run : Inv db new_run.
Proof.
  split; simpl; [set_solver | set_solver | set_solver | apply NoDup_nil_2 |].
  intros a b Hb. by apply elem_of_nil in Hb.
Qed.

Lemma filter_fresh_id (l : list string) :
  (∀ x, x ∈ l → IsInstalled db x = false) →
  filter (fun pkg => IsInstalled db pkg = false) l = l.
Proof.
  induction l as [| x l IH]; intros H; [done |].
  rewrite filter_cons_True by (apply H; by left).
  f_equal. apply IH. intros y Hy. apply H. by right.
Qed.

(** What a successful [Resolve] returns. *)
Lemma Resolve_Ok pkgs l :
  Resolve db pkgs = Some (Ok l) →
  NoDup l ∧
  (∀ x, x ∈ l → IsInstalled db x = false) ∧
  (∀ p, p ∈ pkgs → IsInstalled db p = false → p ∈ l) ∧
  (∀ a b, b ∈ l → needed db a b → precedes l a b).
Proof.
  unfold Resolve, Resolve_fuel. intros Hrun.
  destruct (resolve_each db _ pkgs _) as [[r | e] |] eqn:Hloop; try discriminate.
  injection Hrun as <-.
  destruct (mark_installed_spec pkgs new_run Inv_new_run) as [Hs0 Hin0].
  assert (Hpre0 : Pre db (mark_installed db pkgs new_run)).
  { apply (Step_Pre new_run); [split; [apply Inv_new_run | set_solver] | done]. }
  destruct (resolve_each_spec _ _ _ _ Hloop Hpre0 Hin0) as [[HI _ _ _] Hin].
  rewrite filter_fresh_id by apply (inv_order_fresh db _ HI).
  split_and!; [apply HI | apply HI | | apply HI].
  intros p Hp Hfresh. destruct (inv_resolved db _ HI p (Hin p Hp)); [congruence | done].
Qed.

End resolver_facts.

Lemma ranked_acyclic d rank : ranked d rank → acyclic d.
Proof.
  intros Hr.
  assert (Hlt : ∀ a b, tc (dependency d) a b → (rank a < rank b)%nat).
  { assert (Hedge : ∀ a b, dependency d a b → (rank a < rank b)%nat).
    { intros a b (deps & dep & Hd & Hin & <-). unfold GetDependencies in Hd.
      destruct (packages d !! b) as [row |] eqn:Hrow; [| done]. injection Hd as <-.
      specialize (Hr b row Hrow). simpl in Hr. rewrite Forall_forall in Hr. by apply Hr. }
    induction 1 as [a b H | a b c H _ IH]; [by apply Hedge |].
    specialize (Hedge _ _ H). lia. }
  intros x Hx. specialize (Hlt _ _ Hx). lia.
Qed.

Lemma needed_chain_precedes d pkgs l a b :
  Resolve d pkgs = Some (Ok l) → b ∈ l → tc (needed d) a b → precedes l a b.
Proof.
  intros Hrun Hb Hchain.
  destruct (Resolve_Ok d pkgs l Hrun) as (Hnd & _ & _ & Hdeps).
  induction Hchain as [a b H | a x b H _ IH]; [by apply Hdeps |].
  specialize (IH Hb). apply (precedes_trans l a x b); [done | | done].
  apply Hdeps; [by eapply precedes_elem_l | done].
Qed.

(** C1 (as amended): on every catalog and request on which [Resolve]
    succeeds, if [b] is in the returned list and [a] is a direct or
    transitive dependency of [b] along a chain of packages none of which is
    installed, then [a] occurs strictly before [b] in the returned list;
    and for the chain level0 <- level1 <- level2 <- level3 the call
    [Resolve ["level3"]] returns exactly level0, level1, level2, level3. *)
Theorem C1_dependencies_first :
  (∀ d pkgs l a b,
      Resolve d pkgs = Some (Ok l) → b ∈ l → tc (needed d) a b → precedes l a b)
  ∧ Resolve db_chain ["level3"] = Some (Ok ["level0"; "level1"; "level2"; "level3"]).
Proof.
  split; [apply needed_chain_precedes | vm_compute; reflexivity].
Qed.

Lemma needed_level n m :
  (n, m) ∈ [("level0", "level1"); ("level1", "level2"); ("level2", "level3")] →
  needed db_chain n m.
Proof.
  intros Hin. split.
  - exists [n], n.
    repeat (apply elem_of_cons in Hin as [[= -> ->] | Hin];
            [split_and!; [vm_compute; reflexivity | apply list_elem_of_here | vm_compute; reflexivity] |]).
    by apply elem_of_nil in Hin.
  - repeat (apply elem_of_cons in Hin as [[= -> ->] | Hin]; [vm_compute; reflexivity |]).
    by apply elem_of_nil in Hin.
Qed.

(** The chain of manager_test.go: level0 comes before level3. *)
Lemma C1_dependencies_first_witness :
  precedes ["level0"; "level1"; "level2"; "level3"] "level0" "level3".
Proof.
  apply (proj1 C1_dependencies_first db_chain ["level3"] _ "level0" "level3").
  - vm_compute; reflexivity.
  - set_solver.
  - apply (tc_l _ "level0" "level1" "level3"); [apply needed_level; set_solver |].
    apply (tc_l _ "level1" "level2" "level3"); [apply needed_level; set_solver |].
    apply tc_once, needed_level. set_solver.
Defined.

(** C1 as stated fails: with the acyclic catalog top -> mid -> low and
    [mid] installed, [low] is a transitive dependency of [top], neither is
    installed, [Resolve ["top"]] succeeds with [["top"]], and [low] does not
    occur before [top] in it. *)
Lemma C1_counterexample :
  ∃ d pkgs l a b,
    acyclic d ∧ Resolve d pkgs = Some (Ok l) ∧ tc (dependency d) a b ∧
    IsInstalled d a = false ∧ IsInstalled d b = false ∧ b ∈ l ∧ ¬ precedes l a b.
Proof.
  exists db_installed_between, ["top"], ["top"], "low", "top". split_and!.
  - apply (ranked_acyclic _ rank_between). unfold ranked.
    refine (bool_decide_unpack _ _). vm_compute. exact I.
  - vm_compute. reflexivity.
  - apply (tc_l _ "low" "mid" "top"); [| apply tc_once].
    + exists ["low"], "low". split_and!; [vm_compute; reflexivity | apply list_elem_of_here | vm_compute; reflexivity].
    + exists ["mid"], "mid". split_and!; [vm_compute; reflexivity | apply list_elem_of_here | vm_compute; reflexivity].
  - vm_compute. reflexivity.
  - vm_compute. reflexivity.
  - apply list_elem_of_here.
  - intros Hp. apply precedes_elem_l in Hp. set_solver.
Qed.

Lemma needed_reach_in_list d pkgs l p x :
  Resolve d pkgs = Some (Ok l) → p ∈ l → rtc (flip (needed d)) p x → x ∈ l.
Proof.
  intros Hrun Hp Hreach.
  destruct (Resolve_Ok d pkgs l Hrun) as (_ & _ & _ & Hdeps).
  induction Hreach as [p | p y x Hedge _ IH]; [done |].
  apply IH. eapply precedes_elem_l. apply Hdeps; [exact Hp | exact Hedge].
Qed.

Lemma cycle_is_refused d pkgs p x :
  p ∈ pkgs → IsInstalled d p = false →
  rtc (flip (needed d)) p x → tc (needed d) x x →
  ∃ y, Resolve d pkgs = Some (Err (CircularDependency y)).
Proof.
  intros Hp Hfresh Hreach Hcycle.
  destruct (Resolve_total d pkgs) as [[l | e] Hrun].
  - exfalso.
    destruct (Resolve_Ok d pkgs l Hrun) as (Hnd & _ & Hreq & _).
    assert (Hx : x ∈ l) by (eapply needed_reach_in_list; eauto).
    apply (precedes_irrefl l x Hnd). by eapply needed_chain_precedes.
  - revert Hrun. unfold Resolve, Resolve_fuel.
    destruct (resolve_each d _ pkgs _) as [[r | e'] |] eqn:Hloop; try discriminate.
    intros [= <-]. destruct (resolve_each_error d _ _ _ _ Hloop) as [y ->]. by exists y.
Qed.

(** C2 (as amended): if a requested name that is not installed reaches,
    through dependencies that are not installed, a cycle of packages none
    of which is installed, then [Resolve] returns the circular-dependency
    error and no list; e.g. on the catalog a -> b, b -> a. *)
Theorem C2_cycle_is_an_error :
  (∀ d pkgs p x,
      p ∈ pkgs → IsInstalled d p = false →
      rtc (flip (needed d)) p x → tc (needed d) x x →
      ∃ y, Resolve d pkgs = Some (Err (CircularDependency y)))
  ∧ Resolve db_circular ["a"] = Some (Err (CircularDependency "a")).
Proof.
  split; [apply cycle_is_refused | vm_compute; reflexivity].
Qed.

(** The two-package cycle of manager_test.go. *)
Lemma C2_cycle_is_an_error_witness :
  ∃ y, Resolve db_circular ["a"] = Some (Err (CircularDependency y)).
Proof.
  apply (proj1 C2_cycle_is_an_error db_circular ["a"] "a" "a").
  - apply list_elem_of_here.
  - vm_compute. reflexivity.
  - apply rtc_refl.
  - apply (tc_l _ "a" "b" "a"); [| apply tc_once].
    + split; [| vm_compute; reflexivity].
      exists ["a"], "a". split_and!; [vm_compute; reflexivity | apply list_elem_of_here | vm_compute; reflexivity].
    + split; [| vm_compute; reflexivity].
      exists ["b"], "b". split_and!; [vm_compute; reflexivity | apply list_elem_of_here | vm_compute; reflexivity].
Defined.

(** C2 as stated fails: on the catalog a -> b, b -> a with [b] installed,
    the requested name [a] lies on a cycle of the dependency graph and
    [Resolve ["a"]] returns the list [["a"]]. *)
Lemma C2_counterexample :
  ∃ d pkgs l, reaches_cycle (dependency d) pkgs ∧ Resolve d pkgs = Some (Ok l).
Proof.
  exists db_cycle_installed, ["a"], ["a"]. split; [| vm_compute; reflexivity].
  exists "a", "a". split_and!; [apply list_elem_of_here | apply rtc_refl |].
  apply (tc_l _ "a" "b" "a"); [| apply tc_once].
  - exists ["a"], "a". split_and!; [vm_compute; reflexivity | apply list_elem_of_here | vm_compute; reflexivity].
  - exists ["b"], "b". split_and!; [vm_compute; reflexivity | apply list_elem_of_here | vm_compute; reflexivity].
Qed.

(** C8: a list returned by [Resolve] holds no installed package, whether
    requested or reached as a dependency, and holds every requested package
    that is not installed (an installed dependency counts as satisfied and
    does not block its dependents); requesting [app], whose only dependency
    [base] is installed, returns exactly [["app"]]. *)
Theorem C8_installed_excluded :
  (∀ d pkgs l,
      Resolve d pkgs = Some (Ok l) →
      (∀ x, x ∈ l → IsInstalled d x = false) ∧
      (∀ p, p ∈ pkgs → IsInstalled d p = false → p ∈ l))
  ∧ Resolve db_base_installed ["app"] = Some (Ok ["app"]).
Proof.
  split; [| vm_compute; reflexivity].
  intros d pkgs l Hrun. destruct (Resolve_Ok d pkgs l Hrun) as (_ & H1 & H2 & _). done.
Qed.

(** [app] with its dependency [base] installed. *)
Lemma C8_installed_excluded_witness :
  (∀ x, x ∈ ["app"] → IsInstalled db_base_installed x = false) ∧
  (∀ p, p ∈ ["app"] → IsInstalled db_base_installed p = false → p ∈ ["app"]).
Proof.
  apply (proj1 C8_installed_excluded db_base_installed ["app"] ["app"]).
  vm_compute. reflexivity.
Defined.

(** ** Specifiers and versions *)

Example parseDependency_tests :
  map parseDependency
      ["package"; "package>=1.0"; "package<=2.0"; "package=1.5.0";
       "package>1.0"; "package<2.0"; "  package  "; "package>=1.0.0"]
  = repeat "package" 8.
Proof. vm_compute. reflexivity. Qed.

Example Split_tests :
  Go.Split "a>=b>=c" ">=" = ["a"; "b"; "c"] ∧ Go.Split "a." "." = ["a"; ""]
  ∧ Go.Split "" "." = [""] ∧ Go.Split "1.10.0" "." = ["1"; "10"; "0"].
Proof. vm_compute. auto. Qed.

Example compareVersions_tests :
  map (fun p => compareVersions (fst p) (snd p))
      [("1.0.0", "1.0.0"); ("1.0.1", "1.0.0"); ("1.0.0", "1.0.1");
       ("2.0.0", "1.9.9"); ("1.10.0", "1.9.0"); ("1.0", "1.0.0"); ("1", "1.0.0")]
  = [0; 1; -1; 1; 1; 0; 0].
Proof. vm_compute. reflexivity. Qed.

(** C7: the name extraction of [GetReverseDependencies] does not cut at a
    bare [>] or [<], which [parseDependency] does: on the specifier
    [pkg>1.0] the two disagree, and the installed dependant [app] of [pkg]
    is not reported. *)
Theorem C7_parsers_disagree :
  revdep_name "pkg>1.0" = "pkg>1.0" ∧ parseDependency "pkg>1.0" = "pkg"
  ∧ GetReverseDependencies db_greater_than "pkg" = []
  ∧ reverse_dependencies_by_parser db_greater_than "pkg" = ["app"].
Proof. vm_compute. auto. Qed.

Lemma pad_length n l : (length l ≤ n)%nat → length (pad n l) = n.
Proof. intros H. unfold pad. rewrite length_app, length_replicate. lia. Qed.

Lemma pad_lookup n (l : list Z) i :
  (i < n)%nat → (length l ≤ n)%nat → pad n l !! i = Some (default 0 (l !! i)).
Proof.
  intros Hi Hn. unfold pad. destruct (l !! i) as [x |] eqn:Hx.
  - by rewrite (lookup_app_l_Some _ _ _ _ Hx).
  - apply lookup_ge_None in Hx. rewrite lookup_app_r by done.
    apply lookup_replicate_2. lia.
Qed.

Lemma compareVersions_loop_spec parts1 parts2 n :
  (length parts1 ≤ n)%nat → (length parts2 ≤ n)%nat →
  ∀ k i, (i + k = n)%nat →
    compareVersions_loop parts1 parts2 i k
    = lex_compare (drop i (pad n (map Go.Sscanf_d parts1)))
                  (drop i (pad n (map Go.Sscanf_d parts2))).
Proof.
  intros H1 H2. induction k as [| k IH]; intros i Hik.
  - rewrite !drop_ge by (rewrite pad_length; rewrite ?length_map; lia). done.
  - assert (Hl : ∀ parts : list string, (length parts ≤ n)%nat →
                 pad n (map Go.Sscanf_d parts) !! i
                 = Some (match parts !! i with Some p => Go.Sscanf_d p | None => 0 end)).
    { intros parts Hp. rewrite pad_lookup by (rewrite ?length_map; lia).
      rewrite list_lookup_fmap. by destruct (parts !! i). }
    rewrite (drop_S _ _ _ (Hl parts1 H1)), (drop_S _ _ _ (Hl parts2 H2)).
    simpl. rewrite IH by lia. reflexivity.
Qed.


(** ** The transaction engine *)

Example Install_svc :
  snd (Install env0 test_cfg "svc" world0) = Ok tt
  ∧ w_fs (fst (Install env0 test_cfg "svc" world0)) !! "/usr/bin/svc" = Some "#!svc"
  ∧ IsInstalled (w_db (fst (Install env0 test_cfg "svc" world0))) "svc" = true
  ∧ GetInstalledFiles (w_db (fst (Install env0 test_cfg "svc" world0))) "svc"
    = Some ["/usr/bin/svc"].
Proof. vm_compute. auto. Qed.

Section engine_facts.
Variable E : Env.
Variable cfg : Config.

Lemma grows_refl P w : grows E P w w.
Proof. split; [done |]. exists []. by rewrite app_nil_r. Qed.

Lemma grows_trans P w1 w2 w3 : grows E P w1 w2 → grows E P w2 w3 → grows E P w1 w3.
Proof.
  intros [Hd1 (e1 & Hl1 & HP1)] [Hd2 (e2 & Hl2 & HP2)]. split; [congruence |].
  exists (e1 ++ e2). split; [by rewrite Hl2, Hl1, <- app_assoc | by apply Forall_app].
Qed.

Lemma grows_added P w w' : grows E P w w' → Forall P (added w w').
Proof.
  intros [_ (evs & Hl & HP)]. unfold added. by rewrite Hl, drop_app_length.
Qed.

Lemma grows_with_fs P w fs evs : Forall P evs → grows E P w (with_fs E w fs evs).
Proof. intros HP. split; [done |]. by exists evs. Qed.

Lemma send_grows P stage percent message w :
  quiet P → grows E P w (send E cfg stage percent message w).
Proof.
  intros HP. unfold send. destruct (progressChan cfg); [| apply grows_refl].
  apply grows_with_fs. repeat constructor. by apply HP.
Qed.

Lemma do_Remove_grows P path w : quiet P → grows E P w (fst (do_Remove E path w)).
Proof.
  intros HP. unfold do_Remove. destruct (os_Remove E (w_fs w) path). simpl.
  apply grows_with_fs. repeat constructor. by apply HP.
Qed.

Lemma do_MkdirAll_grows P path mode w : quiet P → grows E P w (fst (do_MkdirAll E path mode w)).
Proof.
  intros HP. unfold do_MkdirAll. destruct (os_MkdirAll E (w_fs w) path mode). simpl.
  apply grows_with_fs. repeat constructor. by apply HP.
Qed.

Lemma do_Create_grows P path mode w : quiet P → grows E P w (fst (do_Create E path mode w)).
Proof.
  intros HP. unfold do_Create. destruct (os_Create E (w_fs w) path mode). simpl.
  apply grows_with_fs. repeat constructor. by apply HP.
Qed.

Lemma do_Write_grows P path content w : quiet P → grows E P w (fst (do_Write E path content w)).
Proof.
  intros HP. unfold do_Write. destruct (os_Write E (w_fs w) path content). simpl.
  apply grows_with_fs. repeat constructor. by apply HP.
Qed.

Lemma do_Symlink_grows P l path w : quiet P → grows E P w (fst (do_Symlink E l path w)).
Proof.
  intros HP. unfold do_Symlink. destruct (os_Symlink E (w_fs w) l path). simpl.
  apply grows_with_fs. repeat constructor. by apply HP.
Qed.

Lemma remove_one_grows P w path : quiet P → grows E P w (remove_one E w path).
Proof.
  intros HP. unfold remove_one.
  pose proof (do_Remove_grows P path w HP) as H1.
  destruct (do_Remove E path w) as [w1 [err |]]; simpl in *; [| done].
  destruct (IsNotExist err); simpl; [done |].
  eapply grows_trans; [exact H1 | by apply do_Remove_grows].
Qed.

Lemma removeFiles_grows P paths w : quiet P → grows E P w (fst (removeFiles E paths w)).
Proof.
  intros HP. unfold removeFiles. simpl. generalize (reverse paths). intros l.
  revert w. induction l as [| p l IH]; intros w; simpl; [apply grows_refl |].
  eapply grows_trans; [by apply remove_one_grows | apply IH].
Qed.

Lemma runScript_grows P script name w :
  quiet P → P (EvScript name script) → grows E P w (fst (runScript E script name w)).
Proof.
  intros HP Hs. unfold runScript.
  destruct (os_CreateTemp E (w_fs w) _) as [fs1 [e | tmp]]; simpl.
  { by apply grows_with_fs. }
  set (w1 := with_fs E w fs1 [EvCreate tmp]).
  assert (H1 : grows E P w w1) by (apply grows_with_fs; repeat constructor; by apply HP).
  pose proof (do_Write_grows P tmp script w1 HP) as H2.
  destruct (do_Write E tmp script w1) as [w2 [e |]]; simpl in *.
  { eapply grows_trans; [exact H1 |]. eapply grows_trans; [exact H2 | by apply do_Remove_grows]. }
  destruct (exec_sh E _ tmp) as [fs4 ok]. simpl.
  eapply grows_trans; [exact H1 |]. eapply grows_trans; [exact H2 |].
  eapply grows_trans; [| by apply do_Remove_grows].
  apply grows_with_fs. by repeat constructor.
Qed.

(** The scripts of the package information that [Remove] consults. *)
Lemma GetInstalledPackage_scripts d name i :
  GetInstalledPackage E d name = Some i → info_PreRemove i = "" ∧ info_PostRemove i = "".
Proof.
  unfold GetInstalledPackage. intros H.
  destruct (installed d !! name); [| done].
  destruct (sql_scan_strings E _); [| done]. by injection H as <-.
Qed.

Lemma removeFiles_nil paths w : snd (removeFiles E paths w) = None.
Proof. reflexivity. Qed.

(** [Remove_with] ends in success with the ledger row deleted, or in the
    failure of one of the two hooks. *)
Lemma Remove_with_outcome info files name w :
  match snd (Remove_with E cfg info files name w) with
  | Ok _ => w_db (fst (Remove_with E cfg info files name w)) = RemoveInstallation (w_db w) name
  | Err e => ∃ c, e = ScriptFailed "pre-remove" c ∨ e = ScriptFailed "post-remove" c
  end.
Proof.
  assert (Hq : quiet (fun _ => True)) by done.
  unfold Remove_with.
  set (w0 := send E cfg "start" 0 "Starting removal" w).
  assert (H0 : w_db w0 = w_db w) by apply (send_grows _ _ _ _ _ Hq).
  assert (Hhook : ∀ (script : string) (stage label : string) (pc : Z) (wa : World E),
    w_db (fst (if bool_decide (script ≠ "")
               then runScript E script stage (send E cfg stage pc label wa)
               else (wa, None))) = w_db wa).
  { intros script stage label pc wa. case_bool_decide; [| done].
    etrans; [apply (runScript_grows (fun _ => True)); done | apply (send_grows _ _ _ _ _ Hq)]. }
  destruct info as [i |].
  - specialize (Hhook (info_PreRemove i) "pre-remove" "Running pre-remove script" 10 w0) as Hpre.
    destruct (if bool_decide (info_PreRemove i ≠ "") then _ else _) as [w1 [c |]];
      simpl in *; [by eexists; left |].
    set (w2 := foldl (remove_one E) _ _).
    assert (H2 : w_db w2 = w_db w1).
    { etrans; [apply (removeFiles_grows (fun _ => True) files _ Hq) | apply (send_grows _ _ _ _ _ Hq)]. }
    specialize (Hhook (info_PostRemove i) "post-remove" "Running post-remove script" 80 w2) as Hpost.
    destruct (if bool_decide (info_PostRemove i ≠ "") then _ else _) as [w3 [c |]];
      simpl in *; [by eexists; right |].
    etrans; [apply (send_grows _ _ _ _ _ Hq) |]. simpl. congruence.
  - simpl. etrans; [apply (send_grows _ _ _ _ _ Hq) |]. simpl. f_equal.
    etrans; [apply (removeFiles_grows (fun _ => True) files _ Hq) |].
    etrans; [apply (send_grows _ _ _ _ _ Hq) | done].
Qed.

Lemma grows_extends P w w' : grows E P w w' → extends E P w w'.
Proof. by intros [_ H]. Qed.

Lemma extends_trans P w1 w2 w3 : extends E P w1 w2 → extends E P w2 w3 → extends E P w1 w3.
Proof.
  intros (e1 & Hl1 & HP1) (e2 & Hl2 & HP2).
  exists (e1 ++ e2). split; [by rewrite Hl2, Hl1, <- app_assoc | by apply Forall_app].
Qed.

Lemma extends_with_db P w d : extends E P w (with_db E w d).
Proof. exists []. by rewrite app_nil_r. Qed.

Lemma extends_added P w w' :
  extends E P w w' → w_log w' = w_log w ++ added w w' ∧ Forall P (added w w').
Proof. intros (evs & Hl & Hf). unfold added. by rewrite Hl, drop_app_length. Qed.

(** With package information that carries no script, [Remove_with] runs
    none. *)
Lemma Remove_with_quiet P info files name w :
  quiet P →
  from_option info_PreRemove "" info = "" → from_option info_PostRemove "" info = "" →
  ∃ w', Remove_with E cfg info files name w = (w', Ok tt) ∧
        w_log w' = w_log w ++ added w w' ∧ Forall P (added w w').
Proof.
  intros HP Hpre Hpost. unfold Remove_with.
  assert (Hgo : ∀ w1, extends E P w w1 →
    extends E P w
      (send E cfg "done" 100 "Removal complete"
         (with_db E (fst (removeFiles E files (send E cfg "remove-files" 50 "Removing files" w1)))
            (RemoveInstallation
               (w_db (fst (removeFiles E files (send E cfg "remove-files" 50 "Removing files" w1))))
               name)))).
  { intros w1 H1.
    eapply extends_trans; [exact H1 |].
    eapply extends_trans; [apply grows_extends; by apply send_grows |].
    eapply extends_trans; [apply grows_extends; by apply removeFiles_grows |].
    eapply extends_trans; [apply extends_with_db |].
    apply grows_extends. by apply send_grows. }
  destruct info as [i |]; simpl in *.
  - rewrite Hpre, Hpost. simpl. eexists. split; [reflexivity |].
    apply (extends_added P), Hgo, grows_extends. by apply send_grows.
  - eexists. split; [reflexivity |].
    apply (extends_added P), Hgo, grows_extends. by apply send_grows.
Qed.


Lemma send_fs stage percent message w : w_fs (send E cfg stage percent message w) = w_fs w.
Proof. unfold send. by destruct (progressChan cfg). Qed.

Lemma send_db stage percent message w : w_db (send E cfg stage percent message w) = w_db w.
Proof. unfold send. by destruct (progressChan cfg). Qed.

(** What one file-system call leaves in the log. *)
Lemma do_Remove_log path w :
  w_log (fst (do_Remove E path w)) = w_log w ++ [EvRemove path]
  ∧ w_db (fst (do_Remove E path w)) = w_db w
  ∧ w_fs (fst (do_Remove E path w)) = fst (os_Remove E (w_fs w) path).
Proof. unfold do_Remove. by destruct (os_Remove E (w_fs w) path). Qed.

Lemma do_MkdirAll_log path mode w :
  w_log (fst (do_MkdirAll E path mode w)) = w_log w ++ [EvMkdirAll path]
  ∧ w_db (fst (do_MkdirAll E path mode w)) = w_db w.
Proof. unfold do_MkdirAll. by destruct (os_MkdirAll E (w_fs w) path mode). Qed.

Lemma do_Create_log path mode w :
  w_log (fst (do_Create E path mode w)) = w_log w ++ [EvCreate path]
  ∧ w_db (fst (do_Create E path mode w)) = w_db w.
Proof. unfold do_Create. by destruct (os_Create E (w_fs w) path mode). Qed.

Lemma do_Write_log path content w :
  w_log (fst (do_Write E path content w)) = w_log w ++ [EvWrite path]
  ∧ w_db (fst (do_Write E path content w)) = w_db w.
Proof. unfold do_Write. by destruct (os_Write E (w_fs w) path content). Qed.

Lemma do_Symlink_log l path w :
  w_log (fst (do_Symlink E l path w)) = w_log w ++ [EvSymlink path]
  ∧ w_db (fst (do_Symlink E l path w)) = w_db w.
Proof. unfold do_Symlink. by destruct (os_Symlink E (w_fs w) l path). Qed.

(** [removeFiles] tries every path it is given. *)
Lemma remove_one_log w path :
  ∃ rest, w_log (remove_one E w path) = w_log w ++ EvRemove path :: rest.
Proof.
  unfold remove_one. destruct (do_Remove_log path w) as (Hl & _ & _).
  destruct (do_Remove E path w) as [w1 [err |]]; simpl in *; [| by exists []].
  destruct (IsNotExist err); simpl; [by exists [] |].
  destruct (do_Remove_log (filepath_Dir E path) w1) as (Hl1 & _ & _).
  exists [EvRemove (filepath_Dir E path)]. rewrite Hl1, Hl, <- app_assoc. done.
Qed.

Lemma foldl_remove_one_log l : ∀ w,
  ∃ evs, w_log (foldl (remove_one E) w l) = w_log w ++ evs
         ∧ ∀ p, p ∈ l → EvRemove p ∈ evs.
Proof.
  induction l as [| q l IH]; intros w; simpl.
  - exists []. rewrite app_nil_r. split; [done | intros p Hp; by apply elem_of_nil in Hp].
  - destruct (remove_one_log w q) as [rest Hq].
    destruct (IH (remove_one E w q)) as (evs & Hl & Hin).
    exists (EvRemove q :: rest ++ evs). split.
    + rewrite Hl, Hq, <- app_assoc. done.
    + intros p [-> | Hp]%elem_of_cons; [apply list_elem_of_here |].
      apply list_elem_of_further, elem_of_app. right. by apply Hin.
Qed.

Lemma removeFiles_attempts paths w p :
  p ∈ paths → EvRemove p ∈ added w (fst (removeFiles E paths w)).
Proof.
  intros Hp. unfold removeFiles, added. simpl.
  destruct (foldl_remove_one_log (reverse paths) w) as (evs & Hl & Hin).
  rewrite Hl, drop_app_length. apply Hin. by apply elem_of_reverse.
Qed.

(** *** [installFiles] *)

Lemma planned_cons e rest :
  planned (e :: rest)
  = from_option (fun t => [t]) []
      (if listed (hdr_Typeflag e) then target_of (hdr_Name e) else None) ++ planned rest.
Proof.
  unfold planned. simpl.
  by destruct (if listed (hdr_Typeflag e) then target_of (hdr_Name e) else None).
Qed.

Lemma planned_dirs_cons e rest :
  planned_dirs (e :: rest)
  = from_option (fun t => [t]) []
      (match hdr_Typeflag e with TypeDir => target_of (hdr_Name e) | _ => None end)
    ++ planned_dirs rest.
Proof.
  unfold planned_dirs. simpl.
  by destruct (match hdr_Typeflag e with TypeDir => target_of (hdr_Name e) | _ => None end).
Qed.

(** The result of a run of the loop that ends in the error [c] after
    appending nothing more. *)
Lemma installFiles_stop (w w1 w' : World E) (acc files : list string)
    (err : option cause) (c : cause) (evs1 : list Event) (l : list string)
    (Q : list string -> list Event -> Prop) :
  w_log w1 = w_log w ++ evs1 → w_db w1 = w_db w →
  (w1, (acc, Some c)) = (w', (files, err)) →
  ∃ done evs,
    files = acc ++ done ∧ done `prefix_of` l ∧
    w_log w' = w_log w ++ evs ∧ w_db w' = w_db w ∧ (err = None → Q done evs).
Proof.
  intros Hl Hd [= <- <- <-]. exists [], evs1. rewrite app_nil_r.
  split_and!; [done | apply prefix_nil | done | done | done].
Qed.

Lemma installFiles_loop_spec serr : ∀ es w acc w' files err,
  installFiles_loop E es serr w acc = (w', (files, err)) →
  ∃ done evs,
    files = acc ++ done ∧ done `prefix_of` planned es ∧
    w_log w' = w_log w ++ evs ∧ w_db w' = w_db w ∧
    (err = None →
       done = planned es ∧ omap written_path evs = done ∧
       Forall (fun t => EvMkdirAll t ∈ evs) (planned_dirs es) ∧ serr = false).
Proof.
  induction es as [| e rest IH]; intros w acc w' files err Hrun; simpl in Hrun.
  { injection Hrun as <- <- <-. exists [], []. rewrite !app_nil_r.
    split_and!; [done | done | done | done |].
    intros Herr. split_and!; [done | done | constructor | by destruct serr]. }
  rewrite planned_cons, planned_dirs_cons.
  destruct (target_of (hdr_Name e)) as [target |] eqn:Htarget.
  2:{ destruct (hdr_Typeflag e); simpl; exact (IH _ _ _ _ _ Hrun). }
  destruct (hdr_Typeflag e) eqn:Htype; simpl; try exact (IH _ _ _ _ _ Hrun).
  - (* regular file *)
    destruct (do_MkdirAll_log (filepath_Dir E target) 493 w) as [Hl1 Hd1].
    destruct (do_MkdirAll E (filepath_Dir E target) 493 w) as [w1 [err1 |]]; simpl in *.
    { by eapply installFiles_stop. }
    destruct (do_Create_log target (hdr_Mode e) w1) as [Hl2 Hd2].
    destruct (do_Create E target (hdr_Mode e) w1) as [w2 [err2 |]]; simpl in *.
    { eapply installFiles_stop; [by rewrite Hl2, Hl1, <- app_assoc | congruence | done]. }
    destruct (do_Write_log target (hdr_Content e) w2) as [Hl3 Hd3].
    destruct (do_Write E target (hdr_Content e) w2) as [w3 [err3 |]]; simpl in *.
    { eapply installFiles_stop; [by rewrite Hl3, Hl2, Hl1, <- !app_assoc | congruence | done]. }
    destruct (IH _ _ _ _ _ Hrun) as (done & evs & -> & Hpre & Hl & Hd & Hok).
    exists (target :: done),
      ([EvMkdirAll (filepath_Dir E target); EvCreate target; EvWrite target] ++ evs).
    split_and!.
    + by rewrite <- app_assoc.
    + by apply prefix_cons.
    + rewrite Hl, Hl3, Hl2, Hl1, <- !app_assoc. done.
    + congruence.
    + intros Herr. destruct (Hok Herr) as (-> & Hw & Hdir & ->).
      split_and!; [done | by rewrite omap_app, Hw | | done].
      eapply Forall_impl; [exact Hdir |]. intros t Ht. set_solver.
  - (* directory *)
    destruct (do_MkdirAll_log target (hdr_Mode e) w) as [Hl1 Hd1].
    destruct (do_MkdirAll E target (hdr_Mode e) w) as [w1 [err1 |]]; simpl in *.
    { by eapply installFiles_stop. }
    destruct (IH _ _ _ _ _ Hrun) as (done & evs & -> & Hpre & Hl & Hd & Hok).
    exists done, ([EvMkdirAll target] ++ evs).
    split_and!; [done | done | by rewrite Hl, Hl1, <- app_assoc | congruence |].
    intros Herr. destruct (Hok Herr) as (-> & Hw & Hdir & ->).
    split_and!; [done | by rewrite omap_app, Hw | | done].
    constructor; [set_solver |].
    eapply Forall_impl; [exact Hdir |]. intros t Ht. set_solver.
  - (* symbolic link *)
    destruct (do_Remove_log target w) as (Hl1 & Hd1 & _).
    set (w1 := fst (do_Remove E target w)) in *.
    destruct (do_Symlink_log (hdr_Linkname e) target w1) as [Hl2 Hd2].
    destruct (do_Symlink E (hdr_Linkname e) target w1) as [w2 [err2 |]]; simpl in *.
    { eapply installFiles_stop; [by rewrite Hl2, Hl1, <- app_assoc | congruence | done]. }
    destruct (IH _ _ _ _ _ Hrun) as (done & evs & -> & Hpre & Hl & Hd & Hok).
    exists (target :: done), ([EvRemove target; EvSymlink target] ++ evs).
    split_and!.
    + by rewrite <- app_assoc.
    + by apply prefix_cons.
    + rewrite Hl, Hl2, Hl1, <- !app_assoc. done.
    + congruence.
    + intros Herr. destruct (Hok Herr) as (-> & Hw & Hdir & ->).
      split_and!; [done | by rewrite omap_app, Hw | | done].
      eapply Forall_impl; [exact Hdir |]. intros t Ht. set_solver.
Qed.


Lemma installFiles_db pkgPath w w' files err :
  installFiles E pkgPath w = (w', (files, err)) → w_db w' = w_db w.
Proof.
  unfold installFiles. intros H.
  destruct (os_ReadFile E (w_fs w) pkgPath) as [e | bytes]; [by injection H as <- |].
  destruct (gunzip_tar E bytes) as [ar |]; [| by injection H as <-].
  by destruct (installFiles_loop_spec _ _ _ _ _ _ _ H) as (? & ? & ? & ? & ? & ? & ?).
Qed.

Lemma downloadPackage_db name version w :
  w_db (fst (downloadPackage E cfg name version w)) = w_db w.
Proof.
  unfold downloadPackage.
  set (pkgPath := filepath_Join E (cacheDir cfg) (pkgFile name version)).
  destruct (os_Stat E (w_fs w) pkgPath); [done |].
  destruct (http_Get E (repoURL cfg +:+ "/" +:+ pkgFile name version)) as [[status body] |];
    [| done].
  destruct (negb (status =? 200)); [done |].
  destruct (do_MkdirAll_log (cacheDir cfg) 493 w) as [_ Hd1].
  set (w1 := fst (do_MkdirAll E (cacheDir cfg) 493 w)) in *.
  destruct (do_Create_log pkgPath 438 w1) as [_ Hd2].
  destruct (do_Create E pkgPath 438 w1) as [w2 [e |]]; simpl in *; [congruence |].
  destruct (do_Write_log pkgPath body w2) as [_ Hd3].
  destruct (do_Write E pkgPath body w2) as [w3 [e |]]; simpl in *; [| congruence].
  destruct (do_Remove_log pkgPath w3) as (_ & Hd4 & _). congruence.
Qed.


(** The run of [Install] on a cached archive whose checksum differs from
    the one the catalog declares. *)
Lemma Install_checksum_mismatch name w row content :
  IsInstalled (w_db w) name = false →
  packages (w_db w) !! name = Some row →
  pkg_checksum row ≠ "" →
  os_Stat E (w_fs w) (filepath_Join E (cacheDir cfg) (pkgFile name (pkg_version row))) = true →
  os_ReadFile E (w_fs w) (filepath_Join E (cacheDir cfg) (pkgFile name (pkg_version row)))
    = inr content →
  sha256_hex E content ≠ pkg_checksum row →
  ∃ w',
    Install E cfg name w
    = (w', Err (ChecksumFailed (ChecksumMismatch (pkg_checksum row) (sha256_hex E content))))
    ∧ w_db w' = w_db w
    ∧ IsInstalled (w_db w') name = false
    ∧ w_fs w' = fst (os_Remove E (w_fs w)
                       (filepath_Join E (cacheDir cfg) (pkgFile name (pkg_version row))))
    ∧ EvRemove (filepath_Join E (cacheDir cfg) (pkgFile name (pkg_version row))) ∈ added w w'.
Proof.
  intros Hinst Hrow Hsum Hstat Hread Hneq.
  set (pkgPath := filepath_Join E (cacheDir cfg) (pkgFile name (pkg_version row))) in *.
  unfold Install. rewrite Hinst. unfold GetPackage. rewrite Hrow.
  cbn [info_Version info_Checksum].
  unfold downloadPackage. fold pkgPath. rewrite send_fs, Hstat.
  rewrite (bool_decide_true _ Hsum).
  unfold verifyChecksum. rewrite !send_fs, Hread.
  rewrite (bool_decide_true _ Hneq).
  set (w0 := send E cfg "start" 0 "Starting installation" w).
  set (w1 := send E cfg "verify" 25 "Verifying checksum" w0).
  destruct (do_Remove_log pkgPath w1) as (Hl & Hd & Hf).
  eexists. split; [reflexivity |].
  assert (Hdb : w_db w1 = w_db w) by (unfold w1, w0; by rewrite !send_db).
  split_and!.
  - congruence.
  - rewrite Hd, Hdb. done.
  - rewrite Hf. unfold w1, w0. by rewrite !send_fs.
  - assert (Hext : extends E (fun _ => True) w w1).
    { eapply extends_trans; apply grows_extends; by apply send_grows. }
    destruct Hext as (evs & Hl1 & _). unfold added.
    rewrite Hl, Hl1, <- app_assoc, drop_app_length. set_solver.
Qed.

End engine_facts.

(** *** String prefixes *)

Lemma prefix_split p s : String.prefix p s = true → ∃ r, s = p +:+ r.
Proof.
  revert s. induction p as [| a p IH]; intros s H.
  - by exists s.
  - destruct s as [| b s]; simpl in H; [done |].
    destruct (ascii_dec a b) as [-> |]; [| done].
    destruct (IH _ H) as [r ->]. by exists r.
Qed.

Lemma prefix_app p q r : String.prefix (p +:+ q) (p +:+ r) = String.prefix q r.
Proof.
  induction p as [| a p IH]; simpl; [done |]. by destruct (ascii_dec a a).
Qed.

Lemma substring_all r : String.substring 0 (String.length r) r = r.
Proof. induction r as [| a r IH]; simpl; [done | by rewrite IH]. Qed.

Lemma prefix_app_self p r : String.prefix p (p +:+ r) = true.
Proof.
  induction p as [| a p IH]; simpl; [by destruct r |]. by destruct (ascii_dec a a).
Qed.

Lemma TrimPrefix_app p r : Go.TrimPrefix (p +:+ r) p = r.
Proof.
  unfold Go.TrimPrefix, Go.HasPrefix. rewrite prefix_app_self.
  induction p as [| a p IH]; simpl.
  - rewrite Nat.sub_0_r. apply substring_all.
  - exact IH.
Qed.

Lemma HasPrefix_TrimPrefix name p q :
  Go.HasPrefix name p = true →
  Go.HasPrefix (Go.TrimPrefix name p) q = Go.HasPrefix name (p +:+ q).
Proof.
  intros [r ->]%prefix_split. rewrite TrimPrefix_app. unfold Go.HasPrefix.
  by rewrite prefix_app.
Qed.

(** On every name that does not begin with [files/./files/] the target
    computed by the code is the target in the specification's words. *)
Lemma target_of_spec name :
  Go.HasPrefix name "files/./files/" = false → target_of name = spec_target name.
Proof.
  intros H. unfold target_of, spec_target, skipped_name, strip_files_prefix, spec_strip.
  destruct (bool_decide (name = "metadata.json") || Go.HasPrefix name "scripts/"); [done |].
  destruct (Go.HasPrefix name "files/") eqn:Hf; [| done].
  rewrite (HasPrefix_TrimPrefix name "files/" "./files/" Hf).
  change ("files/" +:+ "./files/") with "files/./files/". by rewrite H.
Qed.

(** ** Properties of the engine *)

(** C3: the package information [Remove] looks up never carries a
    pre-remove or post-remove script, so [Remove] runs no script at all;
    e.g. after installing [svc], whose metadata declares a pre-remove script
    that exits with status 1, [Remove] succeeds without running it. *)
Theorem C3_remove_hooks_never_run :
  (∀ E d name,
      from_option info_PreRemove "" (GetInstalledPackage E d name) = ""
      ∧ from_option info_PostRemove "" (GetInstalledPackage E d name) = "")
  ∧ (∀ E cfg name purge (w : World E),
        existsb is_script (added w (fst (Remove E cfg name purge w))) = false)
  ∧ (let w1 := fst (Install env0 test_cfg "svc" world0) in
     snd (Install env0 test_cfg "svc" world0) = Ok tt
     ∧ json_metadata env0 "svc.json" = Some svc_metadata
     ∧ meta_PreRemove svc_metadata = "exit 1"
     ∧ snd (runScript env0 "exit 1" "pre-remove" w1) = Some ExitError
     ∧ snd (Remove env0 test_cfg "svc" false w1) = Ok tt
     ∧ added w1 (fst (Remove env0 test_cfg "svc" false w1))
       = [EvProgress (mkProgressUpdate "start" 0 "Starting removal");
          EvProgress (mkProgressUpdate "remove-files" 50 "Removing files");
          EvRemove "/usr/bin/svc";
          EvProgress (mkProgressUpdate "done" 100 "Removal complete")]).
Proof.
  assert (Hscripts : ∀ E d name,
      from_option info_PreRemove "" (GetInstalledPackage E d name) = ""
      ∧ from_option info_PostRemove "" (GetInstalledPackage E d name) = "").
  { intros E d name. destruct (GetInstalledPackage E d name) as [i |] eqn:Hi; [| done].
    by apply GetInstalledPackage_scripts in Hi. }
  split_and!; [done | | vm_compute; split_and!; reflexivity].
  intros E cfg name purge w. unfold Remove.
  assert (Hnil : existsb is_script (added w w) = false).
  { unfold added. by rewrite drop_all. }
  destruct (negb (IsInstalled (w_db w) name)); [done |].
  destruct (GetInstalledFiles (w_db w) name) as [files |]; [| done].
  destruct (Hscripts E (w_db w) name) as [Hpre Hpost].
  destruct (Remove_with_quiet E cfg (fun ev => is_script ev = false)
              (GetInstalledPackage E (w_db w) name) files name w)
    as (w' & -> & _ & Hall); [by unfold quiet | done | done |].
  simpl. induction Hall as [| ev l Hev _ IH]; simpl; [done | by rewrite Hev].
Qed.

(** C10: [removeFiles] returns nil on every list of paths and whatever the
    file system answers; [Remove] therefore never fails at its remove-files
    stage: past it, only a hook can fail, and otherwise the ledger row is
    deleted.  In [world_stuck] both removals fail and [Remove] still
    succeeds, with the files left on disk. *)
Theorem C10_removeFiles_never_fails :
  (∀ E paths (w : World E), snd (removeFiles E paths w) = None)
  ∧ (∀ E cfg info files name (w : World E),
        match snd (Remove_with E cfg info files name w) with
        | Ok _ =>
            w_db (fst (Remove_with E cfg info files name w))
            = RemoveInstallation (w_db w) name
        | Err e => ∃ c, e = ScriptFailed "pre-remove" c ∨ e = ScriptFailed "post-remove" c
        end)
  ∧ (∀ E cfg name purge (w : World E) c,
        snd (Remove E cfg name purge w) ≠ Err (RemoveFilesFailed c))
  ∧ (let r := Remove env_stuck test_cfg "two" false world_stuck in
     snd r = Ok tt ∧ IsInstalled (w_db (fst r)) "two" = false
     ∧ w_fs (fst r) !! "/a" = Some "1" ∧ w_fs (fst r) !! "/b" = Some "2").
Proof.
  split_and!; [done | apply Remove_with_outcome | | vm_compute; auto].
  intros E cfg name purge w c. unfold Remove.
  destruct (negb (IsInstalled (w_db w) name)); [done |].
  destruct (GetInstalledFiles (w_db w) name) as [files |]; [| done].
  pose proof (Remove_with_outcome E cfg (GetInstalledPackage E (w_db w) name) files name w) as H.
  destruct (snd (Remove_with E cfg _ files name w)) as [[] | e]; [done |].
  destruct H as [c' [-> | ->]]; done.
Qed.

(** C4: when the package is not installed, its catalog row declares a
    checksum, the archive is in the cache and the hex SHA-256 of its bytes
    differs from the declared checksum, [Install] calls [os.Remove] on the
    cached archive and returns the checksum-mismatch error; the database,
    hence the ledger, is unchanged and the package is still not
    installed. *)
Theorem C4_checksum_mismatch E cfg name (w : World E) row content :
  IsInstalled (w_db w) name = false →
  packages (w_db w) !! name = Some row →
  pkg_checksum row ≠ "" →
  os_Stat E (w_fs w) (filepath_Join E (cacheDir cfg) (pkgFile name (pkg_version row))) = true →
  os_ReadFile E (w_fs w) (filepath_Join E (cacheDir cfg) (pkgFile name (pkg_version row)))
    = inr content →
  sha256_hex E content ≠ pkg_checksum row →
  ∃ w',
    Install E cfg name w
    = (w', Err (ChecksumFailed (ChecksumMismatch (pkg_checksum row) (sha256_hex E content))))
    ∧ w_db w' = w_db w
    ∧ IsInstalled (w_db w') name = false
    ∧ w_fs w' = fst (os_Remove E (w_fs w)
                       (filepath_Join E (cacheDir cfg) (pkgFile name (pkg_version row))))
    ∧ EvRemove (filepath_Join E (cacheDir cfg) (pkgFile name (pkg_version row))) ∈ added w w'.
Proof. apply Install_checksum_mismatch. Qed.

(** The cached archive of [sum] does not have the declared checksum. *)
Lemma C4_checksum_mismatch_witness :
  ∃ w',
    Install env0 test_cfg "sum" world0
    = (w', Err (ChecksumFailed (ChecksumMismatch "sha256:expected" "sha256:corrupted")))
    ∧ w_db w' = catalog0
    ∧ IsInstalled (w_db w') "sum" = false
    ∧ w_fs w' = delete "/cache/sum-3.1.mixpkg" (w_fs world0)
    ∧ EvRemove "/cache/sum-3.1.mixpkg" ∈ added world0 w'.
Proof.
  apply (C4_checksum_mismatch env0 test_cfg "sum" world0
           (mkPackageRow "3.1" "" [] [] "sha256:expected" 0) "corrupted").
  - vm_compute. reflexivity.
  - vm_compute. reflexivity.
  - vm_compute. discriminate.
  - vm_compute. reflexivity.
  - vm_compute. reflexivity.
  - vm_compute. discriminate.
Defined.



Example Install_bad_leaves_nothing :
  let w' := fst (Install env0 test_cfg "bad" world0) in
  w_fs w' !! "/etc/bad.conf" = None ∧ w_fs w' !! "/usr/bin/bad" = None
  ∧ w_fs w' = w_fs world0.
Proof. vm_compute. auto. Qed.

Lemma target_of_nested rest :
  target_of ("files/./files/" +:+ rest)
  = if bool_decide (rest = "" ∨ rest = ".") then None else Some ("/" +:+ rest).
Proof.
  assert (F1 : Go.HasPrefix ("files/./files/" +:+ rest) "scripts/" = false) by reflexivity.
  assert (F2 : Go.HasPrefix ("files/./files/" +:+ rest) "files/" = true)
    by exact (prefix_app_self "files/" ("./files/" +:+ rest)).
  assert (F3 : Go.TrimPrefix ("files/./files/" +:+ rest) "files/" = "./files/" +:+ rest)
    by exact (TrimPrefix_app "files/" ("./files/" +:+ rest)).
  assert (F4 : Go.HasPrefix ("./files/" +:+ rest) "./files/" = true)
    by exact (prefix_app_self "./files/" rest).
  unfold target_of, skipped_name, strip_files_prefix.
  rewrite bool_decide_false by (simpl; discriminate).
  rewrite F1, F2, F3, F4, TrimPrefix_app. reflexivity.
Qed.

(** C6 (as amended): on an archive none of whose entries is named
    [./metadata.json] or lies under [./scripts/], [installFiles] skips the
    entry named [metadata.json] and the entries under [scripts/], strips a
    leading [files/] and then a leading [./files/], skips the names left
    empty or [.], and handles the remaining directory, regular-file and
    symbolic-link entries in order at [/] followed by the stripped name,
    ignoring entries of any other type and stopping at the first error.  The
    list it returns is a prefix of the regular-file and symbolic-link
    targets; without an error it is all of them, it is exactly the list of
    paths written as a file or a link, and every directory entry was created.
    The target is the one of the specification for every name that does not
    begin with [files/./files/]. *)
Theorem C6_installFiles :
  (∀ E pkgPath (w w' : World E) bytes ar files err,
      os_ReadFile E (w_fs w) pkgPath = inr bytes →
      gunzip_tar E bytes = Some ar →
      Forall (fun e => dot_prefixed (hdr_Name e) = false) (entries ar) →
      installFiles E pkgPath w = (w', (files, err)) →
      files `prefix_of` planned (entries ar) ∧
      (err = None →
         files = planned (entries ar) ∧
         omap written_path (added w w') = files ∧
         Forall (fun t => EvMkdirAll t ∈ added w w') (planned_dirs (entries ar))))
  ∧ (∀ name, Go.HasPrefix name "files/./files/" = false → target_of name = spec_target name)
  ∧ (∀ rest, target_of ("files/./files/" +:+ rest)
             = if bool_decide (rest = "" ∨ rest = ".") then None else Some ("/" +:+ rest)).
Proof.
  split_and!; [| apply target_of_spec | apply target_of_nested].
  intros E pkgPath w w' bytes ar files err Hread Htar _ Hrun.
  unfold installFiles in Hrun. rewrite Hread, Htar in Hrun.
  destruct (installFiles_loop_spec E _ _ _ _ _ _ _ Hrun)
    as (done & evs & -> & Hpre & Hl & _ & Hok).
  split; [done |]. intros Herr. destruct (Hok Herr) as (-> & Hw & Hdirs & _).
  unfold added. rewrite Hl, drop_app_length. by split_and!.
Qed.

(** The archive of [svc]: one directory entry that strips to nothing and
    one regular file. *)
Lemma C6_installFiles_witness :
  ["/usr/bin/svc"] `prefix_of` planned (entries svc_archive) ∧
  (@None cause = None →
     ["/usr/bin/svc"] = planned (entries svc_archive) ∧
     omap written_path
       (added world0 (fst (installFiles env0 "/cache/svc-1.0.0.mixpkg" world0)))
     = ["/usr/bin/svc"] ∧
     Forall (fun t => EvMkdirAll t
                        ∈ added world0 (fst (installFiles env0 "/cache/svc-1.0.0.mixpkg" world0)))
            (planned_dirs (entries svc_archive))).
Proof.
  apply (proj1 C6_installFiles env0 "/cache/svc-1.0.0.mixpkg" world0
           (fst (installFiles env0 "/cache/svc-1.0.0.mixpkg" world0))
           "svc.mixpkg" svc_archive ["/usr/bin/svc"] None).
  - vm_compute. reflexivity.
  - vm_compute. reflexivity.
  - repeat constructor.
  - vm_compute. reflexivity.
Defined.

(** C6 as stated fails: in [odd_archive] the hard-link entry
    [files/bin/gunzip] and the regular file [files/./files/etc/x] are
    neither skipped by the stated rules nor written at [/] followed by their
    stripped name ([/bin/gunzip], [/./files/etc/x]): extraction succeeds,
    creates nothing at those two paths and returns [["/etc/x"]]. *)
Lemma C6_counterexample :
  gunzip_tar env0 "odd.mixpkg" = Some odd_archive
  ∧ spec_target (hdr_Name hardlink_entry) = Some "/bin/gunzip"
  ∧ spec_target (hdr_Name nested_entry) = Some "/./files/etc/x"
  ∧ snd (installFiles env0 "/cache/odd-1.0.mixpkg" world0) = (["/etc/x"], None)
  ∧ omap created_path (added world0 (fst (installFiles env0 "/cache/odd-1.0.mixpkg" world0)))
    = ["/etc"; "/etc/x"; "/etc/x"].
Proof. vm_compute. split_and!; reflexivity. Qed.

(** * Further properties *)

(** ** The resolver *)

Section resolver_more.
Variable db : Database.

Lemma tc_flip_cycle {A} (R : relation A) x y : tc (flip R) x y → tc R y x.
Proof.
  induction 1 as [x y H | x y z H _ IH]; [by apply tc_once |].
  eapply tc_r; [exact IH | exact H].
Qed.

(** A successful call leaves [unresolved] as it found it. *)
Lemma resolve_deps_keeps_unresolved rec :
  (∀ pkg r r', rec pkg r = Some (Ok r') → unresolved r' = unresolved r) →
  ∀ deps r r', resolve_deps db rec deps r = Some (Ok r') → unresolved r' = unresolved r.
Proof.
  intros Hrec. induction deps as [| dep rest IH]; intros r r' Hrun; simpl in Hrun.
  - by injection Hrun as <-.
  - destruct (IsInstalled db (parseDependency dep)).
    + by rewrite (IH _ _ Hrun).
    + destruct (rec (parseDependency dep) r) as [[r1 | e] |] eqn:Hcall; try discriminate.
      rewrite (IH _ _ Hrun). by eapply Hrec.
Qed.

Lemma resolve_keeps_unresolved fuel :
  ∀ pkg r r', resolve db fuel pkg r = Some (Ok r') → unresolved r' = unresolved r.
Proof.
  induction fuel as [| fuel IH]; intros pkg r r' Hrun; simpl in Hrun; [done |].
  case_bool_decide as Hun; [done |].
  case_bool_decide as Hres; [by injection Hrun as <- |].
  destruct (GetDependencies db pkg) as [deps |].
  - destruct (resolve_deps db (resolve db fuel) deps (mark_unresolved pkg r))
      as [[r2 | e] |] eqn:Hloop; try discriminate.
    injection Hrun as <-. simpl.
    rewrite (resolve_deps_keeps_unresolved _ IH _ _ _ Hloop). simpl. set_solver.
  - injection Hrun as <-. simpl. set_solver.
Qed.

(** *** What [resolve] appends is reachable from its argument *)

Lemma resolve_deps_reach rec :
  (∀ pkg r r', rec pkg r = Some (Ok r') →
     ∃ ext, order r' = order r ++ ext ∧ ∀ x, x ∈ ext → rtc (flip (needed db)) pkg x) →
  ∀ deps r r', resolve_deps db rec deps r = Some (Ok r') →
    ∃ ext, order r' = order r ++ ext ∧
      ∀ x, x ∈ ext → ∃ dep, dep ∈ deps ∧ IsInstalled db (parseDependency dep) = false
                            ∧ rtc (flip (needed db)) (parseDependency dep) x.
Proof.
  intros Hrec. induction deps as [| dep rest IH]; intros r r' Hrun; simpl in Hrun.
  - injection Hrun as <-. exists []. rewrite app_nil_r.
    split; [done | intros x Hx; by apply elem_of_nil in Hx].
  - destruct (IsInstalled db (parseDependency dep)) eqn:Hinst.
    + destruct (IH _ _ Hrun) as (ext & Ho & Hext). exists ext. split; [done |].
      intros x Hx. destruct (Hext x Hx) as (d & Hd & ?). exists d. split; [by right | done].
    + destruct (rec (parseDependency dep) r) as [[r1 | e] |] eqn:Hcall; try discriminate.
      destruct (Hrec _ _ _ Hcall) as (e1 & Ho1 & He1).
      destruct (IH _ _ Hrun) as (e2 & Ho2 & He2).
      exists (e1 ++ e2). split; [by rewrite Ho2, Ho1, <- app_assoc |].
      intros x [Hx | Hx]%elem_of_app.
      * exists dep. split_and!; [by left | done | by apply He1].
      * destruct (He2 x Hx) as (d & Hd & ?). exists d. split; [by right | done].
Qed.

Lemma resolve_reach fuel :
  ∀ pkg r r', resolve db fuel pkg r = Some (Ok r') →
    ∃ ext, order r' = order r ++ ext ∧ ∀ x, x ∈ ext → rtc (flip (needed db)) pkg x.
Proof.
  induction fuel as [| fuel IH]; intros pkg r r' Hrun; simpl in Hrun; [done |].
  case_bool_decide as Hun; [done |].
  case_bool_decide as Hres.
  { injection Hrun as <-. exists []. rewrite app_nil_r.
    split; [done | intros x Hx; by apply elem_of_nil in Hx]. }
  destruct (GetDependencies db pkg) as [deps |] eqn:Hdeps.
  - destruct (resolve_deps db (resolve db fuel) deps (mark_unresolved pkg r))
      as [[r2 | e] |] eqn:Hloop; try discriminate.
    injection Hrun as <-.
    destruct (resolve_deps_reach _ IH _ _ _ Hloop) as (ext & Ho & Hext). simpl in *.
    exists (ext ++ [pkg]). split; [by rewrite Ho, <- app_assoc |].
    intros x [Hx | ->%list_elem_of_singleton]%elem_of_app; [| apply rtc_refl].
    destruct (Hext x Hx) as (dep & Hd & Hni & Hreach).
    eapply rtc_l; [| exact Hreach]. split; [| done]. by exists deps, dep.
  - injection Hrun as <-. simpl. exists [pkg]. split; [done |].
    intros x ->%list_elem_of_singleton. apply rtc_refl.
Qed.

Lemma resolve_each_reach fuel pkgs :
  ∀ r r', resolve_each db fuel pkgs r = Some (Ok r') → Pre db r →
    (∀ p, p ∈ pkgs → IsInstalled db p = true → p ∈ resolved r) →
    ∃ ext, order r' = order r ++ ext ∧ ∀ x, x ∈ ext → wanted db pkgs x.
Proof.
  induction pkgs as [| p rest IH]; intros r r' Hrun Hpre Hinst; simpl in Hrun.
  - injection Hrun as <-. exists []. rewrite app_nil_r.
    split; [done | intros x Hx; by apply elem_of_nil in Hx].
  - assert (Hweak : ∀ x, wanted db rest x → wanted db (p :: rest) x).
    { intros x (q & Hq & ?). exists q. split; [by right | done]. }
    case_bool_decide as Hres.
    + destruct (IH _ _ Hrun Hpre) as (ext & Ho & Hext); [intros q Hq; apply Hinst; by right |].
      exists ext. split; [done | intros x Hx; by apply Hweak, Hext].
    + destruct (resolve db fuel p r) as [[r1 | e] |] eqn:Hcall; try discriminate.
      assert (Hfresh : IsInstalled db p = false).
      { destruct (IsInstalled db p) eqn:Hp; [| done]. exfalso. apply Hres, Hinst; [by left | done]. }
      destruct (resolve_ok db fuel _ _ _ Hcall Hfresh Hpre) as [Hs1 _].
      destruct (resolve_reach fuel _ _ _ Hcall) as (e1 & Ho1 & He1).
      destruct (IH _ _ Hrun (Step_Pre db _ _ Hpre Hs1)) as (e2 & Ho2 & He2).
      { intros q Hq Hqi. apply (step_resolved db _ _ Hs1), Hinst; [by right | done]. }
      exists (e1 ++ e2). split; [by rewrite Ho2, Ho1, <- app_assoc |].
      intros x [Hx | Hx]%elem_of_app; [| by apply Hweak, He2].
      exists p. split_and!; [by left | done | by apply He1].
Qed.

Lemma mark_installed_order pkgs r : order (mark_installed db pkgs r) = order r.
Proof.
  revert r. induction pkgs as [| p rest IH]; intros r; [done |].
  unfold mark_installed in *. simpl. rewrite IH. by destruct (IsInstalled db p).
Qed.

End resolver_more.

(** The members of a list returned by [Resolve]. *)
Lemma Resolve_members d pkgs l :
  Resolve d pkgs = Some (Ok l) →
  NoDup l ∧ ∀ x, x ∈ l ↔ wanted d pkgs x.
Proof.
  intros Hrun. destruct (Resolve_Ok d pkgs l Hrun) as (Hnd & Hfresh & Hreq & Hdeps).
  split; [done |]. intros x. split.
  - revert Hrun. unfold Resolve, Resolve_fuel.
    destruct (resolve_each d _ pkgs _) as [[r | e] |] eqn:Hloop; try discriminate.
    intros [= <-].
    destruct (mark_installed_spec d pkgs new_run (Inv_new_run d)) as [Hs0 Hin0].
    assert (Hpre0 : Pre d (mark_installed d pkgs new_run)).
    { apply (Step_Pre d new_run); [split; [apply Inv_new_run | set_solver] | done]. }
    destruct (resolve_each_reach d _ _ _ _ Hloop Hpre0 Hin0) as (ext & Ho & Hext).
    intros Hx%list_elem_of_filter. destruct Hx as [_ Hx].
    rewrite Ho, mark_installed_order in Hx. by apply Hext.
  - intros (p & Hp & Hni & Hreach). eapply needed_reach_in_list; eauto.
Qed.

(** X1: a list returned by [Resolve] has no duplicates, and its members
    are exactly the names that some requested, not installed name reaches
    through dependencies that are not installed (the requested name
    included). *)
Theorem Resolve_exact d pkgs l :
  Resolve d pkgs = Some (Ok l) →
  NoDup l ∧ ∀ x, x ∈ l ↔ wanted d pkgs x.
Proof. exact (Resolve_members d pkgs l). Qed.

(** The list of the deep chain of manager_test.go. *)
Lemma Resolve_exact_witness :
  NoDup ["level0"; "level1"; "level2"; "level3"]
  ∧ ∀ x, x ∈ ["level0"; "level1"; "level2"; "level3"] ↔ wanted db_chain ["level3"] x.
Proof.
  apply (Resolve_exact db_chain ["level3"]). vm_compute. reflexivity.
Defined.

Section resolver_errors.
Variable db : Database.

(** *** An error names a package that needs itself *)

Lemma resolve_deps_cycle rec pkg :
  (∀ a r r', rec a r = Some (Ok r') → unresolved r' = unresolved r) →
  (∀ a r, needed db a pkg → on_stack db r a → cycle_found db a (rec a r)) →
  ∀ deps deps0 r,
    GetDependencies db pkg = Some deps0 → deps ⊆ deps0 →
    (∀ a, needed db a pkg → on_stack db r a) →
    cycle_found db pkg (resolve_deps db rec deps r).
Proof.
  intros Hkeep Hrec. induction deps as [| dep rest IH]; intros deps0 r Hd Hsub Hstack e;
    simpl; [done |].
  destruct (IsInstalled db (parseDependency dep)) eqn:Hinst.
  - apply (IH deps0); [done | set_solver | done].
  - assert (Hneed : needed db (parseDependency dep) pkg).
    { split; [| done]. exists deps0, dep. split_and!; [done | set_solver | done]. }
    destruct (rec (parseDependency dep) r) as [[r1 | e1] |] eqn:Hcall.
    + apply (IH deps0); [done | set_solver |].
      intros a Ha u. rewrite (Hkeep _ _ _ Hcall). by apply Hstack.
    + intros [= <-].
      destruct (Hrec _ r Hneed (Hstack _ Hneed) e1) as (y & -> & Hcyc & Hreach);
        [by rewrite Hcall |].
      exists y. split_and!; [done | done |]. eapply rtc_l; [exact Hneed | exact Hreach].
    + done.
Qed.

Lemma resolve_cycle fuel :
  ∀ pkg r, on_stack db r pkg → cycle_found db pkg (resolve db fuel pkg r).
Proof.
  induction fuel as [| fuel IH]; intros pkg r Hstack e; simpl; [done |].
  case_bool_decide as Hun.
  { intros [= <-]. exists pkg. split_and!; [done | | apply rtc_refl].
    apply tc_flip_cycle. by apply Hstack. }
  case_bool_decide as Hres; [done |].
  destruct (GetDependencies db pkg) as [deps |] eqn:Hdeps; [| done].
  destruct (resolve_deps db (resolve db fuel) deps (mark_unresolved pkg r))
    as [[r2 | e2] |] eqn:Hloop; [done | | done].
  intros [= <-].
  apply (resolve_deps_cycle (resolve db fuel) pkg (resolve_keeps_unresolved db fuel)
           (fun a r0 _ Hs => IH a r0 Hs) deps deps (mark_unresolved pkg r) Hdeps);
    [done | | by rewrite Hloop].
  intros a Ha u. simpl. intros [->%elem_of_singleton | Hu]%elem_of_union.
  - by apply tc_once.
  - eapply tc_r; [by apply Hstack | exact Ha].
Qed.

Lemma resolve_each_cycle fuel pkgs :
  ∀ r e, unresolved r = ∅ →
    (∀ p, p ∈ pkgs → IsInstalled db p = true → p ∈ resolved r) →
    (∀ r1 r2 p, resolve db fuel p r1 = Some (Ok r2) → resolved r1 ⊆ resolved r2) →
    resolve_each db fuel pkgs r = Some (Err e) →
    ∃ y, e = CircularDependency y ∧ tc (needed db) y y ∧ wanted db pkgs y.
Proof.
  induction pkgs as [| p rest IH]; intros r e Hu Hinst Hmono Hrun; simpl in Hrun; [done |].
  assert (Hweak : ∀ x, wanted db rest x → wanted db (p :: rest) x).
  { intros x (q & Hq & ?). exists q. split; [by right | done]. }
  case_bool_decide as Hres.
  - destruct (IH r e Hu) as (y & ? & ? & ?); [intros q Hq; apply Hinst; by right | done | done |].
    exists y. split_and!; [done | done | by apply Hweak].
  - assert (Hfresh : IsInstalled db p = false).
    { destruct (IsInstalled db p) eqn:Hp; [| done]. exfalso. apply Hres, Hinst; [by left | done]. }
    destruct (resolve db fuel p r) as [[r1 | e1] |] eqn:Hcall; [| | done].
    + destruct (IH r1 e) as (y & ? & ? & ?); [| | done | done |].
      * by rewrite (resolve_keeps_unresolved db fuel _ _ _ Hcall).
      * intros q Hq Hqi. apply (Hmono _ _ _ Hcall), Hinst; [by right | done].
      * exists y. split_and!; [done | done | by apply Hweak].
    + injection Hrun as <-.
      destruct (resolve_cycle fuel p r) with (e := e1) as (y & -> & Hcyc & Hreach);
        [intros u; rewrite Hu; set_solver | done |].
      exists y. split_and!; [done | done |]. exists p. split_and!; [by left | done | done].
Qed.

(** A successful call only adds to [resolved]. *)
Lemma resolve_deps_resolved_mono rec :
  (∀ pkg r r', rec pkg r = Some (Ok r') → resolved r ⊆ resolved r') →
  ∀ deps r r', resolve_deps db rec deps r = Some (Ok r') → resolved r ⊆ resolved r'.
Proof.
  intros Hrec. induction deps as [| dep rest IH]; intros r r' Hrun; simpl in Hrun.
  - by injection Hrun as <-.
  - destruct (IsInstalled db (parseDependency dep)).
    + specialize (IH _ _ Hrun). simpl in IH. set_solver.
    + destruct (rec (parseDependency dep) r) as [[r1 | e] |] eqn:Hcall; try discriminate.
      specialize (IH _ _ Hrun). specialize (Hrec _ _ _ Hcall). set_solver.
Qed.

Lemma resolve_resolved_mono fuel :
  ∀ pkg r r', resolve db fuel pkg r = Some (Ok r') → resolved r ⊆ resolved r'.
Proof.
  induction fuel as [| fuel IH]; intros pkg r r' Hrun; simpl in Hrun; [done |].
  case_bool_decide as Hun; [done |].
  case_bool_decide as Hres; [by injection Hrun as <- |].
  destruct (GetDependencies db pkg) as [deps |].
  - destruct (resolve_deps db (resolve db fuel) deps (mark_unresolved pkg r))
      as [[r2 | e] |] eqn:Hloop; try discriminate.
    injection Hrun as <-. simpl.
    pose proof (resolve_deps_resolved_mono _ IH _ _ _ Hloop) as H. simpl in H. set_solver.
  - injection Hrun as <-. simpl. set_solver.
Qed.

(** *** The result does not depend on the bound on the recursion depth *)

Lemma resolve_deps_more rec rec' :
  (∀ pkg r o, rec pkg r = Some o → rec' pkg r = Some o) →
  ∀ deps r o, resolve_deps db rec deps r = Some o → resolve_deps db rec' deps r = Some o.
Proof.
  intros Hrec. induction deps as [| dep rest IH]; intros r o Hrun; simpl in *; [done |].
  destruct (IsInstalled db (parseDependency dep)); [by apply IH |].
  destruct (rec (parseDependency dep) r) as [[r1 | e] |] eqn:Hcall; [| | done].
  - rewrite (Hrec _ _ _ Hcall). by apply IH.
  - by rewrite (Hrec _ _ _ Hcall).
Qed.

Lemma resolve_more fuel :
  ∀ fuel' pkg r o, (fuel ≤ fuel')%nat →
    resolve db fuel pkg r = Some o → resolve db fuel' pkg r = Some o.
Proof.
  induction fuel as [| fuel IH]; intros fuel' pkg r o Hle Hrun; [done |].
  destruct fuel' as [| fuel']; [lia |]. simpl in *.
  case_bool_decide; [done |]. case_bool_decide; [done |].
  destruct (GetDependencies db pkg) as [deps |]; [| done].
  destruct (resolve_deps db (resolve db fuel) deps (mark_unresolved pkg r)) as [o1 |] eqn:Hloop;
    [| done].
  rewrite (resolve_deps_more (resolve db fuel) (resolve db fuel')
             (fun p r0 o0 => IH fuel' p r0 o0 ltac:(lia)) _ _ _ Hloop).
  done.
Qed.

Lemma resolve_each_more fuel fuel' pkgs :
  (fuel ≤ fuel')%nat →
  ∀ r o, resolve_each db fuel pkgs r = Some o → resolve_each db fuel' pkgs r = Some o.
Proof.
  intros Hle. induction pkgs as [| p rest IH]; intros r o Hrun; simpl in *; [done |].
  case_bool_decide; [by apply IH |].
  destruct (resolve db fuel p r) as [[r1 | e] |] eqn:Hcall; [| | done].
  - rewrite (resolve_more fuel fuel' _ _ _ Hle Hcall). by apply IH.
  - by rewrite (resolve_more fuel fuel' _ _ _ Hle Hcall).
Qed.

End resolver_errors.

(** What an error of [Resolve] names. *)
Lemma Resolve_Err d pkgs e :
  Resolve d pkgs = Some (Err e) →
  ∃ y, e = CircularDependency y ∧ tc (needed d) y y ∧ wanted d pkgs y.
Proof.
  unfold Resolve, Resolve_fuel. intros Hrun.
  destruct (resolve_each d _ pkgs _) as [[r | e'] |] eqn:Hloop; try discriminate.
  injection Hrun as <-.
  apply (resolve_each_cycle d _ _ _ _ (mark_installed_unresolved d pkgs new_run)) in Hloop;
    [done | | intros r1 r2 p; apply resolve_resolved_mono].
  apply (mark_installed_spec d pkgs new_run (Inv_new_run d)).
Qed.

(** X2: when [Resolve] returns an error, the error names a package that
    needs itself through dependencies that are not installed, and that a
    requested, not installed name reaches through such dependencies: the
    cycle detection raises no false alarm. *)
Theorem Resolve_error_is_a_cycle d pkgs e :
  Resolve d pkgs = Some (Err e) →
  ∃ y, e = CircularDependency y ∧ tc (needed d) y y ∧ wanted d pkgs y.
Proof. exact (Resolve_Err d pkgs e). Qed.

(** The two-package cycle of manager_test.go. *)
Lemma Resolve_error_is_a_cycle_witness :
  ∃ y, CircularDependency "a" = CircularDependency y
       ∧ tc (needed db_circular) y y ∧ wanted db_circular ["a"] y.
Proof.
  apply (Resolve_error_is_a_cycle db_circular ["a"]). vm_compute. reflexivity.
Defined.

Lemma needed_dependency d a b : tc (needed d) a b → tc (dependency d) a b.
Proof.
  induction 1 as [a b [H _] | a b c [H _] _ IH]; [by apply tc_once | by eapply tc_l].
Qed.

(** X3: on a catalog whose dependency graph has no cycle, [Resolve]
    returns a list for every request. *)
Theorem Resolve_succeeds_on_DAG d pkgs :
  acyclic d → ∃ l, Resolve d pkgs = Some (Ok l).
Proof.
  intros Hdag. destruct (Resolve_total d pkgs) as [[l | e] Hrun]; [by exists l |].
  destruct (Resolve_Err d pkgs e Hrun) as (y & _ & Hcyc & _).
  destruct (Hdag y). by apply needed_dependency.
Qed.

(** The deep chain of manager_test.go is acyclic. *)
Lemma Resolve_succeeds_on_DAG_witness : ∃ l, Resolve db_chain ["level3"; "level1"] = Some (Ok l).
Proof.
  apply (Resolve_succeeds_on_DAG db_chain).
  apply (ranked_acyclic _ rank_chain). unfold ranked.
  refine (bool_decide_unpack _ _). vm_compute. exact I.
Defined.

(** X4: the recursion of [resolve] is never deeper than the number of
    catalog rows plus one: with any larger bound on the depth [Resolve]
    returns the same result, on cyclic catalogs too. *)
Theorem Resolve_depth_bound d pkgs fuel :
  (size (packages d) < fuel)%nat → Resolve_fuel d fuel pkgs = Resolve d pkgs.
Proof.
  intros Hlt. destruct (Resolve_total d pkgs) as [o Hrun]. rewrite Hrun.
  revert Hrun. unfold Resolve, Resolve_fuel.
  destruct (resolve_each d (S (size (packages d))) pkgs _) as [o1 |] eqn:Hloop; [| done].
  assert (Hle : (S (size (packages d)) ≤ fuel)%nat) by lia.
  rewrite (resolve_each_more d _ fuel pkgs Hle _ _ Hloop). done.
Qed.

Lemma Resolve_depth_bound_witness :
  Resolve_fuel db_circular 50 ["b"; "a"] = Resolve db_circular ["b"; "a"].
Proof.
  apply (Resolve_depth_bound db_circular ["b"; "a"] 50).
  replace (size (packages db_circular)) with 2%nat by (vm_compute; reflexivity). lia.
Defined.

(** *** [CheckDependencies] *)

Lemma CheckDependencies_loop_spec d deps : ∀ missing,
  CheckDependencies_loop d deps missing
  = missing ++ filter (fun a => IsInstalled d a = false) (map parseDependency deps).
Proof.
  induction deps as [| dep rest IH]; intros missing; simpl; [by rewrite app_nil_r |].
  destruct (IsInstalled d (parseDependency dep)) eqn:Hinst.
  - rewrite IH, filter_cons_False by congruence. done.
  - rewrite IH, filter_cons_True by done. by rewrite <- app_assoc.
Qed.

Lemma resolve_deps_all_installed d rec deps : ∀ r,
  Forall (fun dep => IsInstalled d (parseDependency dep) = true) deps →
  ∃ r', resolve_deps d rec deps r = Some (Ok r')
        ∧ order r' = order r ∧ unresolved r' = unresolved r.
Proof.
  induction deps as [| dep rest IH]; intros r Hall; simpl; [by exists r |].
  apply Forall_cons in Hall as [Hd Hrest]. rewrite Hd.
  destruct (IH (mark_resolved (parseDependency dep) r) Hrest) as (r' & -> & Ho & Hu).
  by exists r'.
Qed.

(** X5: [CheckDependencies] fails exactly on a package that is not in the
    catalog; otherwise it returns, in catalog order, the names of the
    dependencies that are not installed.  When it returns the empty list for
    a package that is not installed, [Resolve] on that package alone returns
    just that package. *)
Theorem CheckDependencies_spec d pkg :
  (CheckDependencies d pkg = None ↔ packages d !! pkg = None)
  ∧ (∀ missing, CheckDependencies d pkg = Some missing →
       (∀ a, a ∈ missing ↔ needed d a pkg)
       ∧ (missing = [] → IsInstalled d pkg = false → Resolve d [pkg] = Some (Ok [pkg]))).
Proof.
  unfold CheckDependencies, GetDependencies. split.
  - destruct (packages d !! pkg); simpl; split; done.
  - intros missing Hm.
    destruct (packages d !! pkg) as [row |] eqn:Hrow; simpl in Hm; [| done].
    injection Hm as <-. rewrite CheckDependencies_loop_spec. simpl. split.
    + intros a. rewrite list_elem_of_filter, list_elem_of_fmap. split.
      * intros (Hni & dep & -> & Hdep). split; [| done].
        exists (pkg_dependencies row), dep. unfold GetDependencies. rewrite Hrow. done.
      * intros [(deps & dep & Hd & Hdep & <-) Hni]. split; [done |].
        unfold GetDependencies in Hd. rewrite Hrow in Hd. injection Hd as <-. by exists dep.
    + intros Hnil Hfresh.
      assert (Hall : Forall (fun dep => IsInstalled d (parseDependency dep) = true)
                       (pkg_dependencies row)).
      { apply Forall_forall. intros dep Hdep.
        destruct (IsInstalled d (parseDependency dep)) eqn:Hi; [done |]. exfalso.
        assert (Hin : parseDependency dep
                        ∈ filter (fun a => IsInstalled d a = false)
                            (map parseDependency (pkg_dependencies row))).
        { apply list_elem_of_filter. split; [done |]. apply list_elem_of_fmap. by exists dep. }
        rewrite Hnil in Hin. by apply elem_of_nil in Hin. }
      unfold Resolve, Resolve_fuel, mark_installed. simpl. rewrite Hfresh.
      case_bool_decide as H1; [by apply elem_of_empty in H1 |].
      case_bool_decide as H2; [by apply elem_of_empty in H2 |].
      unfold GetDependencies. rewrite Hrow. simpl.
      destruct (resolve_deps_all_installed d (resolve d (size (packages d)))
                  (pkg_dependencies row) (mark_unresolved pkg new_run) Hall)
        as (r' & -> & Ho & _).
      simpl. rewrite Ho. simpl. rewrite filter_cons_True by done. done.
Qed.

(** *** [GetReverseDependencies] and [GetRemoveOrder] *)

Lemma omap_fst_sublist {A} (f : string * A → bool) (l : list (string * A)) :
  omap (fun kv => if f kv then Some kv.1 else None) l `sublist_of` l.*1.
Proof.
  induction l as [| kv l IH]; simpl; [constructor |].
  destruct (f kv); [by apply sublist_skip | by apply sublist_cons].
Qed.

(** The members of the list of [GetReverseDependencies]. *)
Lemma GetReverseDependencies_members d name :
  NoDup (GetReverseDependencies d name)
  ∧ ∀ q, q ∈ GetReverseDependencies d name ↔
         IsInstalled d q = true
         ∧ ∃ row, packages d !! q = Some row
                  ∧ ∃ dep, dep ∈ pkg_dependencies row ∧ revdep_name dep = name.
Proof.
  unfold GetReverseDependencies.
  set (f := fun kv : string * InstalledRow =>
              match packages d !! kv.1 with
              | Some row =>
                  bool_decide (Exists (fun dep => revdep_name dep = name) (pkg_dependencies row))
              | None => false
              end).
  assert (Heq : ∀ l : list (string * InstalledRow),
            omap (fun kv => match packages d !! kv.1 with
                            | Some row =>
                                if bool_decide (Exists (fun dep => revdep_name dep = name)
                                                  (pkg_dependencies row))
                                then Some kv.1 else None
                            | None => None
                            end) l
            = omap (fun kv => if f kv then Some kv.1 else None) l).
  { intros l. apply list_omap_ext, Forall_Forall2_diag, Forall_forall.
    intros kv _. unfold f. by destruct (packages d !! kv.1). }
  rewrite Heq. split.
  - apply (sublist_NoDup _ (map_to_list (installed d)).*1);
      [apply NoDup_fst_map_to_list | apply omap_fst_sublist].
  - intros q. rewrite list_elem_of_omap. split.
    + intros ([k i] & Hin & Hq). apply elem_of_map_to_list in Hin.
      unfold f in Hq. simpl in Hq.
      destruct (packages d !! k) as [row |] eqn:Hrow; [| done].
      case_bool_decide as Hex; [| done]. injection Hq as <-.
      split; [unfold IsInstalled; apply bool_decide_eq_true; by eexists |].
      exists row. split; [done |]. by apply Exists_exists in Hex.
    + intros (Hinst & row & Hrow & dep & Hdep & Hname).
      unfold IsInstalled in Hinst. apply bool_decide_eq_true in Hinst as [i Hi].
      exists (q, i). split; [by apply elem_of_map_to_list |].
      unfold f. simpl. rewrite Hrow. rewrite bool_decide_true; [done |].
      apply Exists_exists. by exists dep.
Qed.

(** X6: [GetReverseDependencies name] lists, each once, exactly the
    installed packages that have a catalog row with a dependency specifier
    whose text before the first [>=], [<=] or [=], trimmed, is [name]. *)
Theorem GetReverseDependencies_spec d name :
  NoDup (GetReverseDependencies d name)
  ∧ ∀ q, q ∈ GetReverseDependencies d name ↔
         IsInstalled d q = true
         ∧ ∃ row, packages d !! q = Some row
                  ∧ ∃ dep, dep ∈ pkg_dependencies row ∧ revdep_name dep = name.
Proof. exact (GetReverseDependencies_members d name). Qed.

Section remove_order_facts.
Variable db : Database.

Lemma dependant_installed p q : dependant db p q → q ∈ dom (installed db).
Proof.
  intros H. apply GetReverseDependencies_members in H as [Hinst _].
  unfold IsInstalled in Hinst. apply bool_decide_eq_true in Hinst. by apply elem_of_dom.
Qed.

Lemma getRemoveOrder_loop_spec rec :
  remove_rec_spec db rec →
  ∀ l st st', getRemoveOrder_loop rec l st = Some st' → RInv db st →
    (∀ q, q ∈ l → callers_reach db st q) →
    RInv db st' ∧
    (∃ ext, st'.2 = st.2 ++ ext ∧ st'.1 = st.1 ∪ list_to_set ext
            ∧ (∀ x, x ∈ ext → x ∉ st.1)
            ∧ (∀ x, x ∈ ext → ∃ q, q ∈ l ∧ rtc (dependant db) q x))
    ∧ ∀ q, q ∈ l → q ∈ st'.1.
Proof.
  intros Hrec. induction l as [| q l IH]; intros st st' Hrun HI Hcall; simpl in Hrun.
  - injection Hrun as <-. split_and!; [done | | intros q Hq; by apply elem_of_nil in Hq].
    exists []. rewrite app_nil_r. split_and!; [done | set_solver | set_solver | set_solver].
  - destruct (rec q st) as [st1 |] eqn:Hq; [| done].
    destruct (Hrec _ _ _ Hq HI) as [HI1 (e1 & Ho1 & Hv1 & Hd1 & Hr1) Hin1];
      [apply Hcall; by left |].
    destruct (IH _ _ Hrun HI1) as (HI2 & (e2 & Ho2 & Hv2 & Hd2 & Hr2) & Hin2).
    { intros q' Hq' u Hu Hnu. apply (Hcall q'); [by right | |].
      - rewrite Hv1 in Hu. apply elem_of_union in Hu as [Hu | Hu]; [done |].
        exfalso. apply Hnu. rewrite Ho1. apply elem_of_app. right.
        by apply elem_of_list_to_set in Hu.
      - intros Hin. apply Hnu. rewrite Ho1. apply elem_of_app. by left. }
    split_and!; [done | |].
    + exists (e1 ++ e2). split_and!.
      * by rewrite Ho2, Ho1, <- app_assoc.
      * rewrite Hv2, Hv1, list_to_set_app_L. set_solver.
      * intros x [Hx | Hx]%elem_of_app; [by apply Hd1 |].
        specialize (Hd2 x Hx). rewrite Hv1 in Hd2. set_solver.
      * intros x [Hx | Hx]%elem_of_app.
        -- exists q. split; [by left | by apply Hr1].
        -- destruct (Hr2 x Hx) as (q' & ? & ?). exists q'. split; [by right | done].
    + intros q' [-> | Hq']%elem_of_cons; [| by apply Hin2].
      rewrite Hv2. set_solver.
Qed.

Lemma getRemoveOrder_spec fuel : remove_rec_spec db (getRemoveOrder db fuel).
Proof.
  induction fuel as [| fuel IH]; intros pkg [V O] st' Hrun HI Hcall; simpl in Hrun; [done |].
  case_bool_decide as Hvis.
  { injection Hrun as <-. split; [done | | done].
    exists []. simpl. rewrite app_nil_r.
    split_and!; [done | set_solver | set_solver | set_solver]. }
  destruct (getRemoveOrder_loop (getRemoveOrder db fuel)
              (GetReverseDependencies db pkg) ({[pkg]} ∪ V, O)) as [[V2 O2] |] eqn:Hloop;
    [| done].
  injection Hrun as <-.
  destruct HI as [J1 J2 J3 J4]. simpl in *.
  assert (HnO : pkg ∉ O) by (intros Hin; by apply Hvis, J1).
  destruct (getRemoveOrder_loop_spec _ IH _ _ _ Hloop)
    as ([K1 K2 K3 K4] & (ext & Ho & Hv & Hd & Hr) & Hin); simpl in *.
  { split; simpl; [set_solver | done | set_solver | done]. }
  { intros q Hq u Hu Hnu. simpl in *.
    apply elem_of_union in Hu as [->%elem_of_singleton | Hu].
    - by apply tc_once.
    - eapply tc_r; [by apply Hcall | exact Hq]. }
  assert (HnO2 : pkg ∉ O2).
  { rewrite Ho. intros [Hx | Hx]%elem_of_app; [done |]. apply (Hd _ Hx). set_solver. }
  split; simpl.
  - split; simpl.
    + intros x [Hx | ->%list_elem_of_singleton]%elem_of_app; [by apply K1 |].
      rewrite Hv. set_solver.
    + apply NoDup_app. split_and!; [done | | apply NoDup_singleton].
      intros x Hx ->%list_elem_of_singleton. done.
    + intros x q [Hx | ->%list_elem_of_singleton]%elem_of_app Hq; [by eapply K3 |].
      by apply Hin.
    + intros x q [Hx | ->%list_elem_of_singleton]%elem_of_app Hq.
      * destruct (K4 x q Hx Hq) as [Hp | Hc]; [left | by right].
        destruct Hp as (i & j & Hi & Hj & Hij). exists i, j.
        split_and!; [by apply lookup_app_l_Some | by apply lookup_app_l_Some | done].
      * specialize (Hin q Hq). rewrite Hv in Hin.
        destruct (decide (q ∈ O2)) as [HqO | HqO].
        { left. apply list_elem_of_lookup in HqO as [i Hi]. exists i, (length O2).
          split_and!; [by apply lookup_app_l_Some | | by eapply lookup_lt_Some].
          rewrite lookup_app_r by lia. by rewrite Nat.sub_diag. }
        right.
        assert (Hqe : q ∉ ext) by (intros He; apply HqO; rewrite Ho; apply elem_of_app; by right).
        assert (HqnO : q ∉ O) by (intros He; apply HqO; rewrite Ho; apply elem_of_app; by left).
        apply elem_of_union in Hin as [Hin | Hin]; [| by apply elem_of_list_to_set in Hin].
        apply elem_of_union in Hin as [->%elem_of_singleton | Hin]; [by apply tc_once |].
        eapply tc_r; [by apply Hcall | exact Hq].
  - exists (ext ++ [pkg]). split_and!.
    + by rewrite Ho, <- app_assoc.
    + rewrite Hv, list_to_set_app_L. set_solver.
    + intros x [Hx | ->%list_elem_of_singleton]%elem_of_app; [| done].
      specialize (Hd x Hx). set_solver.
    + intros x [Hx | ->%list_elem_of_singleton]%elem_of_app; [| apply rtc_refl].
      destruct (Hr x Hx) as (q & Hq & Hreach). eapply rtc_l; [exact Hq | exact Hreach].
  - rewrite Hv. set_solver.
Qed.

Lemma getRemoveOrder_loop_total fuel :
  remove_total db fuel →
  ∀ l st, (∀ q, q ∈ l → q ∈ dom (installed db)) →
    (size (dom (installed db) ∖ st.1) < fuel)%nat →
    ∃ st', getRemoveOrder_loop (getRemoveOrder db fuel) l st = Some st' ∧ st.1 ⊆ st'.1.
Proof.
  intros Hrec. induction l as [| q l IH]; intros st Hl Hsize; simpl; [by exists st |].
  destruct (Hrec q st) as (st1 & -> & Hsub); [apply Hl; by left | done |].
  destruct (IH st1) as (st' & -> & Hsub'); [intros q' Hq'; apply Hl; by right | |].
  - eapply Nat.le_lt_trans; [| exact Hsize]. apply subseteq_size. set_solver.
  - exists st'. split; [done | set_solver].
Qed.

Lemma getRemoveOrder_total fuel : remove_total db fuel.
Proof.
  induction fuel as [| fuel IH]; intros q [V O] Hq Hsize; [simpl in *; lia |]. simpl in *.
  case_bool_decide as Hvis; [by eexists |].
  destruct (getRemoveOrder_loop_total fuel IH (GetReverseDependencies db q) ({[q]} ∪ V, O))
    as ([V2 O2] & -> & Hsub).
  - intros q' Hq'. by eapply dependant_installed.
  - simpl. assert (size (dom (installed db) ∖ ({[q]} ∪ V)) < size (dom (installed db) ∖ V))%nat;
      [| lia].
    apply subset_size. set_solver.
  - eexists. split; [done |]. simpl in *. set_solver.
Qed.

Lemma getRemoveOrder_top_total pkg st :
  ∃ st', getRemoveOrder db (S (S (size (installed db)))) pkg st = Some st'.
Proof.
  destruct st as [V O]. simpl. case_bool_decide; [by eexists |].
  destruct (getRemoveOrder_loop_total _ (getRemoveOrder_total (S (size (installed db))))
              (GetReverseDependencies db pkg) ({[pkg]} ∪ V, O)) as (st2 & Hrun & _).
  - intros q Hq. by eapply dependant_installed.
  - simpl. rewrite <- size_dom.
    eapply Nat.le_lt_trans; [apply subseteq_size | apply Nat.lt_succ_diag_r]. set_solver.
  - simpl in Hrun. rewrite Hrun. by eexists.
Qed.

Lemma GetRemoveOrder_total pkgs : ∃ out, GetRemoveOrder db pkgs = Some out.
Proof.
  unfold GetRemoveOrder, GetRemoveOrder_fuel.
  generalize (∅ : gset string, [] : list string). induction pkgs as [| p l IH]; intros st.
  - by eexists.
  - simpl. destruct (getRemoveOrder_top_total p st) as [st1 Hrun].
    simpl in Hrun. rewrite Hrun. apply IH.
Qed.

Lemma GetRemoveOrder_facts pkgs out :
  GetRemoveOrder db pkgs = Some out →
  NoDup out
  ∧ (∀ p, p ∈ pkgs → p ∈ out)
  ∧ (∀ x q, x ∈ out → dependant db x q → q ∈ out)
  ∧ (∀ x, x ∈ out → ∃ p, p ∈ pkgs ∧ rtc (dependant db) p x)
  ∧ (∀ x q, x ∈ out → dependant db x q → precedes out q x ∨ tc (dependant db) q q).
Proof.
  unfold GetRemoveOrder, GetRemoveOrder_fuel. intros Hrun.
  destruct (getRemoveOrder_loop _ pkgs (∅, [])) as [[V O] |] eqn:Hloop; [| done].
  injection Hrun as <-.
  destruct (getRemoveOrder_loop_spec _ (getRemoveOrder_spec _) _ _ _ Hloop)
    as ([K1 K2 K3 K4] & (ext & Ho & Hv & Hd & Hr) & Hin); simpl in *.
  { split; simpl; [set_solver | apply NoDup_nil_2 | set_solver | set_solver]. }
  { intros q _ u Hu. set_solver. }
  subst O. assert (HV : ∀ x, x ∈ V ↔ x ∈ ext).
  { intros x. rewrite Hv, elem_of_union, elem_of_list_to_set. set_solver. }
  split_and!; [done | | | done | done].
  - intros p Hp. by apply HV, Hin.
  - intros x q Hx Hq. apply HV. by eapply K3.
Qed.

End remove_order_facts.

(** X7: [GetRemoveOrder] returns on every request; the list has no
    duplicates and holds exactly the requested names and their direct and
    indirect reverse dependencies as [GetReverseDependencies] reports
    them. *)
Theorem GetRemoveOrder_closure d pkgs :
  ∃ out, GetRemoveOrder d pkgs = Some out ∧ NoDup out
         ∧ ∀ x, x ∈ out ↔ ∃ p, p ∈ pkgs ∧ rtc (dependant d) p x.
Proof.
  destruct (GetRemoveOrder_total d pkgs) as [out Hrun]. exists out.
  destruct (GetRemoveOrder_facts d pkgs out Hrun) as (Hnd & Hreq & Hclosed & Hreach & _).
  split_and!; [done | done |]. intros x. split; [apply Hreach |].
  intros (p & Hp & Hrtc). assert (Hin : p ∈ out) by by apply Hreq. clear Hp.
  induction Hrtc as [p | p q x Hpq _ IH]; [done |]. apply IH. by apply (Hclosed p q).
Qed.

(** X8: in the list [GetRemoveOrder] returns, a reverse dependency [q] of a
    member [p] stands strictly before [p], unless [q] is among its own
    direct or indirect reverse dependencies. *)
Theorem GetRemoveOrder_dependants_first d pkgs out p q :
  GetRemoveOrder d pkgs = Some out →
  p ∈ out → dependant d p q → ¬ tc (dependant d) q q →
  precedes out q p.
Proof.
  intros Hrun Hp Hq Hacyc.
  destruct (GetRemoveOrder_facts d pkgs out Hrun) as (_ & _ & _ & _ & Hfirst).
  by destruct (Hfirst p q Hp Hq).
Qed.

Lemma ranked_dependants_acyclic d rank :
  ranked_dependants d rank → ∀ q, ¬ tc (dependant d) q q.
Proof.
  intros Hr.
  assert (Hedge : ∀ p q, dependant d p q → (rank p < rank q)%nat).
  { intros p q H. apply GetReverseDependencies_members in H
      as (Hinst & row & Hrow & dep & Hdep & <-).
    specialize (Hr q row Hrow Hinst). rewrite Forall_forall in Hr. by apply Hr. }
  assert (Hlt : ∀ p q, tc (dependant d) p q → (rank p < rank q)%nat).
  { induction 1 as [p q H | p q r H _ IH]; [by apply Hedge |].
    specialize (Hedge _ _ H). lia. }
  intros q Hq. specialize (Hlt _ _ Hq). lia.
Qed.

Example GetRemoveOrder_lib :
  GetReverseDependencies db_dependants "lib" = ["gui"; "tool"]
  ∧ GetRemoveOrder db_dependants ["lib"] = Some ["gui"; "tool"; "lib"].
Proof. vm_compute. auto. Qed.

(** [tool] depends on [lib] and is removed before it. *)
Lemma GetRemoveOrder_dependants_first_witness :
  precedes ["gui"; "tool"; "lib"] "tool" "lib".
Proof.
  apply (GetRemoveOrder_dependants_first db_dependants ["lib"] _ "lib" "tool").
  - vm_compute. reflexivity.
  - set_solver.
  - unfold dependant. vm_compute. set_solver.
  - apply (ranked_dependants_acyclic _ rank_dependants). unfold ranked_dependants.
    refine (bool_decide_unpack _ _). vm_compute. exact I.
Defined.

(** ** The package store *)

Lemma lookup_foldl_insert (name : string) (fs : list string) : ∀ (m : gmap string string) f,
  foldl (fun m file => <[file := name]> m) m fs !! f
  = if bool_decide (f ∈ fs) then Some name else m !! f.
Proof.
  induction fs as [| g fs IH]; intros m f; simpl; [done |].
  rewrite IH. destruct (decide (f ∈ fs)) as [Hin | Hin].
  - rewrite !bool_decide_true; [done | by right | done].
  - rewrite (bool_decide_false _ Hin). destruct (decide (g = f)) as [-> | Hne].
    + rewrite lookup_insert_eq, bool_decide_true; [done | by left].
    + rewrite lookup_insert_ne by done. rewrite bool_decide_false; [done |].
      intros [-> | ?]%elem_of_cons; done.
Qed.

(** X9: after [RecordInstallation name version fs] the package is
    installed with exactly the files [fs], every path of [fs] is owned by
    [name] whoever owned it before, and the catalog, the other ledger rows
    and the ownership of all other paths are unchanged. *)
Theorem RecordInstallation_lookup d name version fs :
  let d' := RecordInstallation d name version fs in
  IsInstalled d' name = true
  ∧ GetInstalledFiles d' name = Some fs
  ∧ (∀ f, f ∈ fs → files d' !! f = Some name)
  ∧ (∀ f, f ∉ fs → files d' !! f = files d !! f)
  ∧ (∀ other, other ≠ name → installed d' !! other = installed d !! other)
  ∧ packages d' = packages d.
Proof.
  simpl. unfold IsInstalled, GetInstalledFiles. simpl. split_and!.
  - rewrite lookup_insert_eq. by apply bool_decide_eq_true.
  - by rewrite lookup_insert_eq.
  - intros f Hf. by rewrite lookup_foldl_insert, bool_decide_true.
  - intros f Hf. by rewrite lookup_foldl_insert, bool_decide_false.
  - intros other Hne. by rewrite lookup_insert_ne.
  - done.
Qed.

(** X10: after [RemoveInstallation name] the package is not installed and
    owns no path; the catalog, the other ledger rows and the paths owned by
    other packages are unchanged. *)
Theorem RemoveInstallation_lookup d name :
  let d' := RemoveInstallation d name in
  IsInstalled d' name = false
  ∧ GetInstalledFiles d' name = None
  ∧ (∀ f, files d' !! f ≠ Some name)
  ∧ (∀ f owner, owner ≠ name → files d !! f = Some owner → files d' !! f = Some owner)
  ∧ (∀ other, other ≠ name → installed d' !! other = installed d !! other)
  ∧ packages d' = packages d.
Proof.
  simpl. unfold IsInstalled, GetInstalledFiles. simpl. split_and!.
  - rewrite lookup_delete_eq. apply bool_decide_eq_false. by intros [? ?].
  - by rewrite lookup_delete_eq.
  - intros f Hf. apply map_lookup_filter_Some in Hf as [_ Hne]. by apply Hne.
  - intros f owner Hne Hf. by apply map_lookup_filter_Some.
  - intros other Hne. by rewrite lookup_delete_ne.
  - done.
Qed.

(** X11: recording a package that was not installed and removing it again
    restores the ledger, but not the ownership table: every path of the
    recorded list is left without an owner, also one that another package
    owned before; the ownership of the other paths is restored unless the
    name owned them before. *)
Theorem record_then_remove d name version fs :
  IsInstalled d name = false →
  let d' := RemoveInstallation (RecordInstallation d name version fs) name in
  installed d' = installed d
  ∧ (∀ f, f ∈ fs → files d' !! f = None)
  ∧ (∀ f, f ∉ fs → files d !! f ≠ Some name → files d' !! f = files d !! f).
Proof.
  intros Hfresh. simpl. split_and!.
  - rewrite delete_insert_eq. apply delete_id.
    unfold IsInstalled in Hfresh. apply bool_decide_eq_false in Hfresh.
    destruct (installed d !! name) eqn:H; [| done]. exfalso. apply Hfresh. by eexists.
  - intros f Hf. apply map_lookup_filter_None. right. intros owner Hown.
    rewrite lookup_foldl_insert, bool_decide_true in Hown by done.
    injection Hown as <-. simpl. by intros ?.
  - intros f Hf Hown.
    destruct (files d !! f) as [owner |] eqn:Hd.
    + apply map_lookup_filter_Some. split.
      * by rewrite lookup_foldl_insert, bool_decide_false.
      * simpl. congruence.
    + apply map_lookup_filter_None. left.
      by rewrite lookup_foldl_insert, bool_decide_false.
Qed.

(** [svc] takes over [/etc/hosts] from [base]; removing [svc] leaves the
    path without an owner. *)
Lemma record_then_remove_witness :
  let d := RecordInstallation empty_db "base" "1.0.0" ["/etc/hosts"] in
  let d' := RemoveInstallation (RecordInstallation d "svc" "1.0.0" ["/etc/hosts"]) "svc" in
  installed d' = installed d
  ∧ (∀ f, f ∈ ["/etc/hosts"] → files d' !! f = None)
  ∧ (∀ f, f ∉ ["/etc/hosts"] → files d !! f ≠ Some "svc" → files d' !! f = files d !! f).
Proof.
  apply (record_then_remove
           (RecordInstallation empty_db "base" "1.0.0" ["/etc/hosts"]) "svc" "1.0.0"
           ["/etc/hosts"]).
  vm_compute. reflexivity.
Defined.

(** X12: [AddPackage] followed by [GetPackage] on the same name returns the
    record with [Installed] false and without its remove scripts, which the
    catalog does not store; [GetDependencies] returns its dependency list;
    the other catalog rows and the ledger are unchanged. *)
Theorem AddPackage_GetPackage d pkg :
  GetPackage (AddPackage d pkg) (info_Name pkg)
  = Some {| info_Name := info_Name pkg; info_Version := info_Version pkg;
            info_Description := info_Description pkg;
            info_Dependencies := info_Dependencies pkg;
            info_Files := info_Files pkg; info_Checksum := info_Checksum pkg;
            info_Size := info_Size pkg; info_Installed := false;
            info_PreRemove := ""; info_PostRemove := "" |}
  ∧ GetDependencies (AddPackage d pkg) (info_Name pkg) = Some (info_Dependencies pkg)
  ∧ (∀ other, other ≠ info_Name pkg →
       GetPackage (AddPackage d pkg) other = GetPackage d other)
  ∧ installed (AddPackage d pkg) = installed d
  ∧ files (AddPackage d pkg) = files d.
Proof.
  unfold GetPackage, GetDependencies, AddPackage. simpl. split_and!.
  - by rewrite lookup_insert_eq.
  - by rewrite lookup_insert_eq.
  - intros other Hne. by rewrite lookup_insert_ne.
  - done.
  - done.
Qed.

(** ** The transaction engine *)

Section engine_more.
Variable E : Env.
Variable cfg : Config.

Lemma no_script_existsb (l : list Event) :
  Forall (fun ev => is_script ev = false) l → existsb is_script l = false.
Proof. induction 1 as [| ev l Hev _ IH]; simpl; [done | by rewrite Hev]. Qed.

(** Every way [Install] can end. *)
Lemma Install_cases name w :
  match Install E cfg name w with
  | (w', Ok _) =>
      IsInstalled (w_db w) name = false
      ∧ ∃ info pkgPath w1 w2 installedFiles,
          GetPackage (w_db w) name = Some info
          ∧ installFiles E pkgPath w1 = (w2, (installedFiles, None))
          ∧ w_db w' = RecordInstallation (w_db w) name (info_Version info) installedFiles
  | (w', Err e) => w_db w' = w_db w
  end.
Proof.
  assert (Hq : quiet (fun _ => True)) by done.
  unfold Install. destruct (IsInstalled (w_db w) name) eqn:Hinst; [done |].
  destruct (GetPackage (w_db w) name) as [info |] eqn:Hinfo; [| done].
  set (w0 := send E cfg "start" 0 "Starting installation" w).
  assert (H0 : w_db w0 = w_db w) by apply send_db.
  pose proof (downloadPackage_db E cfg name (info_Version info) w0) as Hd1.
  destruct (downloadPackage E cfg name (info_Version info) w0) as [wd [c1 | pkgPath]];
    simpl in Hd1; [congruence |].
  destruct (if bool_decide (info_Checksum info ≠ "") then _ else _) as [wv verified] eqn:Hver.
  assert (Hd2 : w_db wv = w_db wd).
  { case_bool_decide; [| by injection Hver as <-].
    destruct (verifyChecksum E pkgPath (info_Checksum info) _).
    - injection Hver as <- _. etrans; [apply do_Remove_log | apply send_db].
    - injection Hver as <- _. apply send_db. }
  destruct verified as [cv |]; [congruence |].
  set (we := send E cfg "extract" 50 "Extracting package" wv).
  assert (Hd3 : w_db we = w_db wv) by apply send_db.
  destruct (extractPackage E pkgPath we) as [c3 | metadata]; [congruence |].
  destruct (if bool_decide (meta_PreInstall metadata ≠ "") then _ else _) as [wp pre] eqn:Hpre.
  assert (Hd4 : w_db wp = w_db we).
  { case_bool_decide; [| by injection Hpre as <-].
    pose proof (runScript_grows E (fun _ => True) (meta_PreInstall metadata) "pre-install" we Hq I)
      as [Hg _]. by rewrite Hpre in Hg. }
  destruct pre as [cp |]; [congruence |].
  set (w1 := send E cfg "install" 75 "Installing files" wp).
  assert (Hd5 : w_db w1 = w_db wp) by apply send_db.
  destruct (installFiles E pkgPath w1) as [w2 [installedFiles [ci |]]] eqn:Hfiles.
  { pose proof (installFiles_db E _ _ _ _ _ Hfiles). congruence. }
  pose proof (installFiles_db E _ _ _ _ _ Hfiles) as Hd6.
  destruct (if bool_decide (meta_PostInstall metadata ≠ "") then _ else _) as [wq post] eqn:Hpost.
  assert (Hd7 : w_db wq = w_db w2).
  { case_bool_decide; [| by injection Hpost as <-].
    pose proof (runScript_grows E (fun _ => True) (meta_PostInstall metadata) "post-install" w2 Hq I)
      as [Hg _].
    destruct (runScript E (meta_PostInstall metadata) "post-install" w2) as [w3 [c3 |]];
      injection Hpost as <- _; simpl in Hg; [| done].
    etrans; [apply (removeFiles_grows E (fun _ => True) _ _ Hq) | done]. }
  destruct post as [cq |]; [congruence |].
  split; [done |].
  exists info, pkgPath, w1, w2, installedFiles. split_and!; [done | done |].
  rewrite send_db. simpl. f_equal. congruence.
Qed.

(** With package information that carries no script, [Remove_with] is the
    three progress messages around [removeFiles] and the deletion of the
    ledger row. *)
Lemma Remove_with_no_scripts info files name w :
  from_option info_PreRemove "" info = "" → from_option info_PostRemove "" info = "" →
  Remove_with E cfg info files name w
  = (let w1 := fst (removeFiles E files
                      (send E cfg "remove-files" 50 "Removing files"
                         (send E cfg "start" 0 "Starting removal" w))) in
     (send E cfg "done" 100 "Removal complete"
        (with_db E w1 (RemoveInstallation (w_db w1) name)), Ok tt)).
Proof.
  intros Hpre Hpost. unfold Remove_with.
  destruct info as [i |]; simpl in *; [rewrite Hpre, Hpost |]; reflexivity.
Qed.

Lemma Remove_installed name purge w :
  IsInstalled (w_db w) name = true →
  ∃ w' files,
    Remove E cfg name purge w = (w', Ok tt)
    ∧ GetInstalledFiles (w_db w) name = Some files
    ∧ w_db w' = RemoveInstallation (w_db w) name
    ∧ (∀ f, f ∈ files → EvRemove f ∈ added w w')
    ∧ existsb is_script (added w w') = false.
Proof.
  assert (Hq : quiet (fun _ => True)) by done.
  intros Hinst. unfold Remove. rewrite Hinst. simpl.
  assert (Hrow : is_Some (installed (w_db w) !! name))
    by (unfold IsInstalled in Hinst; by apply bool_decide_eq_true in Hinst).
  destruct Hrow as [row Hrow]. unfold GetInstalledFiles. rewrite Hrow. simpl.
  assert (Hscripts : from_option info_PreRemove "" (GetInstalledPackage E (w_db w) name) = ""
                     ∧ from_option info_PostRemove "" (GetInstalledPackage E (w_db w) name) = "").
  { destruct (GetInstalledPackage E (w_db w) name) as [i |] eqn:Hi; [| done].
    by apply GetInstalledPackage_scripts in Hi. }
  destruct Hscripts as [Hpre Hpost].
  rewrite (Remove_with_no_scripts _ _ _ _ Hpre Hpost).
  set (wa := send E cfg "remove-files" 50 "Removing files"
               (send E cfg "start" 0 "Starting removal" w)).
  set (w1 := fst (removeFiles E (inst_files row) wa)).
  eexists _, (inst_files row). split_and!; [reflexivity | done | | |].
  - rewrite send_db. simpl. f_equal.
    etrans; [apply (removeFiles_grows E (fun _ => True) _ _ Hq) |].
    unfold wa. by rewrite !send_db.
  - intros f Hf.
    assert (Ha : extends E (fun _ => True) w wa).
    { eapply extends_trans; apply grows_extends; by apply send_grows. }
    destruct Ha as (e1 & Hl1 & _).
    pose proof (removeFiles_attempts E (inst_files row) wa f Hf) as Hin.
    fold w1 in Hin.
    assert (H1 : extends E (fun _ => True) wa w1)
      by (apply grows_extends; by apply removeFiles_grows).
    destruct H1 as (e2 & Hl2 & _).
    unfold added in Hin. rewrite Hl2, drop_app_length in Hin.
    destruct (send_grows E cfg (fun _ => True) "done" 100 "Removal complete"
                (with_db E w1 (RemoveInstallation (w_db w1) name)) Hq) as [_ (e3 & Hl3 & _)].
    unfold added. rewrite Hl3. simpl. rewrite Hl2, Hl1, <- !app_assoc, drop_app_length.
    set_solver.
  - destruct (Remove_with_quiet E cfg (fun ev => is_script ev = false)
                (GetInstalledPackage E (w_db w) name) (inst_files row) name w)
      as (w' & Heq & _ & Hall); [by unfold quiet | done | done |].
    rewrite (Remove_with_no_scripts _ _ _ _ Hpre Hpost) in Heq. injection Heq as <-.
    by apply no_script_existsb.
Qed.

End engine_more.

(** What [Install] does to the database. *)
Lemma Install_db_cases E cfg name (w : World E) :
  match Install E cfg name w with
  | (w', Ok _) =>
      IsInstalled (w_db w) name = false
      ∧ IsInstalled (w_db w') name = true
      ∧ packages (w_db w') = packages (w_db w)
      ∧ (∀ other, other ≠ name →
           installed (w_db w') !! other = installed (w_db w) !! other)
      ∧ ∃ row pkgPath w1 w2 installedFiles,
          packages (w_db w) !! name = Some row
          ∧ installFiles E pkgPath w1 = (w2, (installedFiles, None))
          ∧ installed (w_db w') !! name
            = Some (mkInstalledRow (pkg_version row) installedFiles)
  | (w', Err e) => w_db w' = w_db w
  end.
Proof.
  pose proof (Install_cases E cfg name w) as H.
  destruct (Install E cfg name w) as [w' [[] | e]]; [| done].
  destruct H as (Hfresh & info & pkgPath & w1 & w2 & installedFiles & Hinfo & Hfiles & Hdb).
  unfold GetPackage in Hinfo.
  destruct (packages (w_db w) !! name) as [row |] eqn:Hrow; [| done].
  injection Hinfo as <-. simpl in Hdb. rewrite Hdb. unfold IsInstalled. simpl.
  split_and!; [done | | done | |].
  - rewrite lookup_insert_eq. by apply bool_decide_eq_true.
  - intros other Hne. by rewrite lookup_insert_ne.
  - exists row, pkgPath, w1, w2, installedFiles. split_and!; [done | done |].
    by rewrite lookup_insert_eq.
Qed.

(** X13: [Install] changes the database only when it succeeds.  It
    succeeds only on a package that was not installed and is in the
    catalog, and then the ledger has one new row, with the catalog's version
    and the paths [installFiles] returned; the catalog and the other ledger
    rows are unchanged.  An installed package is refused with
    [AlreadyInstalled] and a package missing from the catalog with
    [NotInDatabase], nothing being touched. *)
Theorem Install_outcome E cfg name (w : World E) :
  match Install E cfg name w with
  | (w', Ok _) =>
      IsInstalled (w_db w) name = false
      ∧ IsInstalled (w_db w') name = true
      ∧ packages (w_db w') = packages (w_db w)
      ∧ (∀ other, other ≠ name →
           installed (w_db w') !! other = installed (w_db w) !! other)
      ∧ ∃ row pkgPath w1 w2 installedFiles,
          packages (w_db w) !! name = Some row
          ∧ installFiles E pkgPath w1 = (w2, (installedFiles, None))
          ∧ installed (w_db w') !! name
            = Some (mkInstalledRow (pkg_version row) installedFiles)
  | (w', Err e) => w_db w' = w_db w
  end
  ∧ (IsInstalled (w_db w) name = true →
       Install E cfg name w = (w, Err (AlreadyInstalled name)))
  ∧ (IsInstalled (w_db w) name = false → packages (w_db w) !! name = None →
       Install E cfg name w = (w, Err (NotInDatabase name))).
Proof.
  split_and!.
  - apply Install_db_cases.
  - intros Hinst. unfold Install. by rewrite Hinst.
  - intros Hinst Hrow. unfold Install, GetPackage. by rewrite Hinst, Hrow.
Qed.

(** X14: [Remove] refuses a package that is not installed with
    [NotInstalled] and touches nothing.  On an installed package it always
    succeeds: it attempts [os.Remove] on every recorded path, runs no
    script, and leaves the database without the ledger row and the
    ownership rows of the package. *)
Theorem Remove_outcome E cfg name purge (w : World E) :
  (IsInstalled (w_db w) name = false →
     Remove E cfg name purge w = (w, Err (NotInstalled name)))
  ∧ (IsInstalled (w_db w) name = true →
     ∃ w' files,
       Remove E cfg name purge w = (w', Ok tt)
       ∧ GetInstalledFiles (w_db w) name = Some files
       ∧ w_db w' = RemoveInstallation (w_db w) name
       ∧ (∀ f, f ∈ files → EvRemove f ∈ added w w')
       ∧ existsb is_script (added w w') = false).
Proof.
  split.
  - intros Hinst. unfold Remove. by rewrite Hinst.
  - apply Remove_installed.
Qed.

(** X15: [Upgrade] is not atomic.  On a package that is not installed it
    fails with [NotInstalled] and touches nothing.  On an installed package
    the old ledger row is always deleted first: when [Upgrade] then fails,
    the package is left not installed, and when it succeeds the package is
    installed with the version of the catalog. *)
Theorem Upgrade_outcome E cfg name (w : World E) :
  (IsInstalled (w_db w) name = false →
     Upgrade E cfg name w = (w, Err (NotInstalled name)))
  ∧ (IsInstalled (w_db w) name = true →
     match Upgrade E cfg name w with
     | (w', Ok _) =>
         ∃ row files, packages (w_db w) !! name = Some row
                      ∧ installed (w_db w') !! name
                        = Some (mkInstalledRow (pkg_version row) files)
     | (w', Err e) =>
         IsInstalled (w_db w') name = false
         ∧ w_db w' = RemoveInstallation (w_db w) name
     end).
Proof.
  split.
  - intros Hinst. unfold Upgrade, Remove. by rewrite Hinst.
  - intros Hinst. unfold Upgrade.
    destruct (Remove_installed E cfg name false w Hinst) as (w1 & files & -> & _ & Hdb & _).
    pose proof (Install_db_cases E cfg name w1) as H.
    destruct (Install E cfg name w1) as [w' [[] | e]].
    + destruct H as (_ & _ & _ & _ & row & _ & _ & _ & fs & Hrow & _ & Hnew).
      exists row, fs. split; [| done]. by rewrite Hdb in Hrow.
    + rewrite H, Hdb. split; [| done].
      unfold IsInstalled. simpl. rewrite lookup_delete_eq.
      apply bool_decide_eq_false. by intros [? ?].
Qed.

(** After the cache is emptied, with the network down, upgrading the
    installed [svc] fails in the download and leaves [svc] not installed. *)
Example Upgrade_loses_package :
  let w1 := mkWorld (w_db (fst (Install env0 test_cfg "svc" world0))) (∅ : FS env0) [] in
  IsInstalled (w_db w1) "svc" = true
  ∧ snd (Upgrade env0 test_cfg "svc" w1) = Err (DownloadFailed TransportError)
  ∧ IsInstalled (w_db (fst (Upgrade env0 test_cfg "svc" w1))) "svc" = false.
Proof. vm_compute. auto. Qed.

(** ** Versions *)

Lemma segment_padded v n i :
  (length (segment_values v) ≤ n)%nat → (i < n)%nat →
  pad n (segment_values v) !! i = Some (segment v i).
Proof. intros Hn Hi. unfold segment. by apply pad_lookup. Qed.

Lemma segment_beyond v i : (length (segment_values v) ≤ i)%nat → segment v i = 0.
Proof. intros H. unfold segment. by rewrite lookup_ge_None_2. Qed.

(** The lexicographic comparison of two lists of equal length. *)
Lemma lex_compare_cases (l1 l2 : list Z) :
  length l1 = length l2 →
  (lex_compare l1 l2 = 0 ∧ l1 = l2)
  ∨ (∃ i x y, l1 !! i = Some x ∧ l2 !! i = Some y ∧ take i l1 = take i l2
              ∧ ((lex_compare l1 l2 = -1 ∧ x < y) ∨ (lex_compare l1 l2 = 1 ∧ y < x))).
Proof.
  revert l2. induction l1 as [| x l1 IH]; intros [| y l2] Hlen; simpl in *; try done.
  { by left. }
  destruct (x <? y) eqn:Hlt.
  { right. exists 0%nat, x, y. split_and!; [done | done | done |]. left. split; [done | lia]. }
  destruct (x >? y) eqn:Hgt.
  { right. exists 0%nat, x, y. split_and!; [done | done | done |]. right. split; [done | lia]. }
  assert (x = y) by lia. subst y.
  destruct (IH l2) as [[H0 ->] | (i & a & b & Ha & Hb & Htake & Hcase)]; [lia | by left |].
  right. exists (S i), a, b. split_and!; [done | done | by simpl; rewrite Htake | done].
Qed.

Lemma compareVersions_lex v1 v2 :
  compareVersions v1 v2
  = lex_compare
      (pad (Nat.max (length (segment_values v1)) (length (segment_values v2)))
           (segment_values v1))
      (pad (Nat.max (length (segment_values v1)) (length (segment_values v2)))
           (segment_values v2)).
Proof.
  unfold compareVersions, segment_values. rewrite !length_map.
  rewrite (compareVersions_loop_spec _ _ _ (Nat.le_max_l _ _) (Nat.le_max_r _ _) _ 0%nat) by lia.
  reflexivity.
Qed.

Lemma compareVersions_cases v1 v2 :
  (compareVersions v1 v2 = 0 ∧ ∀ i, segment v1 i = segment v2 i)
  ∨ (compareVersions v1 v2 = -1 ∧ version_lt v1 v2)
  ∨ (compareVersions v1 v2 = 1 ∧ version_lt v2 v1).
Proof.
  set (n := Nat.max (length (segment_values v1)) (length (segment_values v2))).
  assert (H1 : (length (segment_values v1) ≤ n)%nat) by apply Nat.le_max_l.
  assert (H2 : (length (segment_values v2) ≤ n)%nat) by apply Nat.le_max_r.
  assert (Heq : compareVersions v1 v2
                = lex_compare (pad n (segment_values v1)) (pad n (segment_values v2)))
    by apply compareVersions_lex.
  assert (Hseg : ∀ v, (length (segment_values v) ≤ n)%nat → ∀ i,
            segment v i = default 0 (pad n (segment_values v) !! i)).
  { intros v Hv i. destruct (decide (i < n)%nat) as [Hi | Hi].
    - by rewrite (segment_padded v n i).
    - rewrite segment_beyond by lia. rewrite lookup_ge_None_2; [done |].
      rewrite pad_length by done. lia. }
  assert (Hprefix : ∀ i j, (j < i)%nat →
            take i (pad n (segment_values v1)) = take i (pad n (segment_values v2)) →
            segment v1 j = segment v2 j).
  { intros i j Hj Htake. rewrite !Hseg by done.
    rewrite <- (lookup_take_lt _ i j) by done.
    rewrite <- (lookup_take_lt (pad n (segment_values v2)) i j) by done. by rewrite Htake. }
  rewrite Heq.
  destruct (lex_compare_cases (pad n (segment_values v1)) (pad n (segment_values v2)))
    as [[H0 Hl] | (i & x & y & Hx & Hy & Htake & [[Hc Hxy] | [Hc Hxy]])].
  - by rewrite !pad_length.
  - left. split; [done |]. intros i. rewrite !Hseg by done. by rewrite Hl.
  - right. left. split; [done |]. exists i. split.
    + rewrite !Hseg by done. by rewrite Hx, Hy.
    + intros j Hj. by apply (Hprefix i).
  - right. right. split; [done |]. exists i. split.
    + rewrite !Hseg by done. by rewrite Hx, Hy.
    + intros j Hj. symmetry. by apply (Hprefix i).
Qed.

Lemma version_lt_irrefl v1 v2 : version_lt v1 v2 → (∀ i, segment v1 i = segment v2 i) → False.
Proof. intros (i & Hlt & _) Heq. specialize (Heq i). lia. Qed.

Lemma version_lt_asym v1 v2 : version_lt v1 v2 → version_lt v2 v1 → False.
Proof.
  intros (i & Hi & Hbi) (j & Hj & Hbj).
  destruct (Nat.lt_trichotomy i j) as [H | [-> | H]].
  - specialize (Hbj i H). lia.
  - lia.
  - specialize (Hbi j H). lia.
Qed.

Lemma version_lt_trans v1 v2 v3 : version_lt v1 v2 → version_lt v2 v3 → version_lt v1 v3.
Proof.
  intros (i & Hi & Hbi) (j & Hj & Hbj).
  destruct (Nat.lt_trichotomy i j) as [H | [-> | H]].
  - exists i. split; [rewrite <- (Hbj i H); done |].
    intros k Hk. rewrite (Hbi k Hk). apply Hbj. lia.
  - exists j. split; [lia |]. intros k Hk. rewrite (Hbi k Hk). by apply Hbj.
  - exists j. split; [rewrite (Hbi j H); done |].
    intros k Hk. rewrite <- (Hbj k Hk). apply Hbi. lia.
Qed.

Lemma version_lt_eq_l v1 v2 v3 :
  (∀ i, segment v1 i = segment v2 i) → version_lt v2 v3 → version_lt v1 v3.
Proof.
  intros Heq (i & Hi & Hb). exists i. split; [by rewrite Heq |].
  intros j Hj. rewrite Heq. by apply Hb.
Qed.

Lemma version_lt_eq_r v1 v2 v3 :
  version_lt v1 v2 → (∀ i, segment v2 i = segment v3 i) → version_lt v1 v3.
Proof.
  intros (i & Hi & Hb) Heq. exists i. split; [by rewrite <- Heq |].
  intros j Hj. rewrite <- Heq. by apply Hb.
Qed.

(** The three results of [compareVersions], each with what it means. *)
Lemma compareVersions_meaning v1 v2 :
  (compareVersions v1 v2 = 0 ↔ ∀ i, segment v1 i = segment v2 i)
  ∧ (compareVersions v1 v2 = -1 ↔ version_lt v1 v2)
  ∧ (compareVersions v1 v2 = 1 ↔ version_lt v2 v1).
Proof.
  destruct (compareVersions_cases v1 v2) as [[Hc Hm] | [[Hc Hm] | [Hc Hm]]]; rewrite Hc.
  - split_and!; split; try done.
    + intros H. by destruct (version_lt_irrefl v1 v2).
    + intros H. destruct (version_lt_irrefl v2 v1); [done | by symmetry].
  - split_and!; split; try done.
    + intros H. by destruct (version_lt_irrefl v1 v2).
    + intros H. by destruct (version_lt_asym v1 v2).
  - split_and!; split; try done.
    + intros H. destruct (version_lt_irrefl v2 v1); [done | by symmetry].
    + intros H. by destruct (version_lt_asym v1 v2).
Qed.

(** X16: [compareVersions] is the three-way comparison of a total order
    on versions read as sequences of segment numbers padded with zeros: it
    returns 0 exactly when all segments agree, -1 exactly when the first
    differing segment is smaller on the left, 1 exactly when it is smaller
    on the right; swapping the arguments negates the result, and the order
    is transitive. *)
Theorem compareVersions_total_order v1 v2 v3 :
  (compareVersions v1 v2 = 0 ↔ ∀ i, segment v1 i = segment v2 i)
  ∧ (compareVersions v1 v2 = -1 ↔ version_lt v1 v2)
  ∧ (compareVersions v1 v2 = 1 ↔ version_lt v2 v1)
  ∧ compareVersions v1 v1 = 0
  ∧ compareVersions v2 v1 = - compareVersions v1 v2
  ∧ (compareVersions v1 v2 <= 0 → compareVersions v2 v3 <= 0 → compareVersions v1 v3 <= 0).
Proof.
  destruct (compareVersions_meaning v1 v2) as (M0 & M1 & M2).
  split_and!; [done | done | done | | |].
  - by apply (compareVersions_meaning v1 v1).
  - destruct (compareVersions_meaning v2 v1) as (N0 & N1 & N2).
    destruct (compareVersions_cases v1 v2) as [[Hc Hm] | [[Hc Hm] | [Hc Hm]]]; rewrite Hc.
    + apply N0. intros i. by rewrite Hm.
    + by apply N2.
    + by apply N1.
  - destruct (compareVersions_meaning v2 v3) as (P0 & P1 & P2).
    destruct (compareVersions_meaning v1 v3) as (Q0 & Q1 & Q2).
    destruct (compareVersions_cases v1 v2) as [[Hc Hm] | [[Hc Hm] | [Hc Hm]]]; rewrite Hc;
      [| | lia];
      (destruct (compareVersions_cases v2 v3) as [[Hd Hn] | [[Hd Hn] | [Hd Hn]]]; rewrite Hd;
       [| | lia]); intros _ _.
    + replace (compareVersions v1 v3) with 0; [lia |]. symmetry. apply Q0.
      intros i. by rewrite Hm.
    + replace (compareVersions v1 v3) with (-1); [lia |]. symmetry. apply Q1.
      by apply (version_lt_eq_l v1 v2).
    + replace (compareVersions v1 v3) with (-1); [lia |]. symmetry. apply Q1.
      by apply (version_lt_eq_r v1 v2).
    + replace (compareVersions v1 v3) with (-1); [lia |]. symmetry. apply Q1.
      by apply (version_lt_trans v1 v2).
Qed.

(** ** Upgrades *)

(** X17: [CheckUpgrade] offers an upgrade only for a package that is in
    the ledger and in the catalog and whose catalog version is strictly
    above its installed version in the order of [compareVersions]; it
    reports "not in repository" only for an installed package without a
    catalog row. *)
Theorem CheckUpgrade_spec E d name :
  match CheckUpgrade E d name with
  | inr (Some up) =>
      up_Name up = name
      ∧ (∃ row i, packages d !! name = Some row ∧ installed d !! name = Some i
                  ∧ up_NewVersion up = pkg_version row
                  ∧ up_CurrentVersion up = inst_version i)
      ∧ compareVersions (up_NewVersion up) (up_CurrentVersion up) = 1
      ∧ version_lt (up_CurrentVersion up) (up_NewVersion up)
  | inr None =>
      ∃ row i, packages d !! name = Some row ∧ installed d !! name = Some i
               ∧ compareVersions (pkg_version row) (inst_version i) <= 0
  | inl PackageNotInstalled => GetInstalledPackage E d name = None
  | inl PackageNotInRepository => IsInstalled d name = true ∧ packages d !! name = None
  end.
Proof.
  unfold CheckUpgrade.
  destruct (GetInstalledPackage E d name) as [inst |] eqn:Hinst; [| done].
  unfold GetInstalledPackage in Hinst.
  destruct (installed d !! name) as [i |] eqn:Hi; [| done].
  destruct (sql_scan_strings E _) as [deps |]; [| done]. injection Hinst as <-.
  unfold GetPackage. destruct (packages d !! name) as [row |] eqn:Hrow; simpl.
  - destruct (compareVersions (pkg_version row) (inst_version i) >? 0) eqn:Hcmp; simpl.
    + assert (Hone : compareVersions (pkg_version row) (inst_version i) = 1).
      { destruct (compareVersions_cases (pkg_version row) (inst_version i))
          as [[Hc _] | [[Hc _] | [Hc _]]]; rewrite Hc in Hcmp; done. }
      split_and!; [done | by exists row, i | done |].
      by apply (compareVersions_meaning (pkg_version row) (inst_version i)).
    + exists row, i. split_and!; [done | done | lia].
  - split; [| done]. unfold IsInstalled. rewrite Hi. by apply bool_decide_eq_true.
Qed.

Lemma CheckUpgrade_same_version E d name row i :
  packages d !! name = Some row → installed d !! name = Some i →
  inst_version i = pkg_version row →
  ∀ up, CheckUpgrade E d name ≠ inr (Some up).
Proof.
  intros Hrow Hi Hv up. unfold CheckUpgrade, GetInstalledPackage, GetPackage.
  rewrite Hi, Hrow. destruct (sql_scan_strings E _); [| done]. simpl.
  rewrite Hv. destruct (compareVersions_meaning (pkg_version row) (pkg_version row)) as [H0 _].
  rewrite (proj2 H0) by done. done.
Qed.

(** X18: a package that [Install] or [Upgrade] has just installed is never
    offered an upgrade by [CheckUpgrade]. *)
Theorem fresh_install_not_upgradable E cfg name (w w' : World E) :
  Install E cfg name w = (w', Ok tt) ∨ Upgrade E cfg name w = (w', Ok tt) →
  ∀ up, CheckUpgrade E (w_db w') name ≠ inr (Some up).
Proof.
  assert (Hinstall : ∀ w0 w1 : World E, Install E cfg name w0 = (w1, Ok tt) →
            ∃ row files, packages (w_db w1) !! name = Some row
                         ∧ installed (w_db w1) !! name = Some (mkInstalledRow (pkg_version row) files)).
  { intros w0 w1 Hrun. pose proof (Install_cases E cfg name w0) as H. rewrite Hrun in H.
    destruct H as (_ & info & _ & _ & _ & files & Hinfo & _ & Hdb).
    unfold GetPackage in Hinfo.
    destruct (packages (w_db w0) !! name) as [row |] eqn:Hrow; [| done].
    injection Hinfo as <-. exists row, files. rewrite Hdb. simpl.
    split; [done | by rewrite lookup_insert_eq]. }
  intros [Hrun | Hrun].
  - destruct (Hinstall _ _ Hrun) as (row & files & Hrow & Hi).
    by apply (CheckUpgrade_same_version E _ name row _ Hrow Hi).
  - unfold Upgrade in Hrun.
    destruct (Remove E cfg name false w) as [w1 [[] | e]]; [| done].
    destruct (Hinstall _ _ Hrun) as (row & files & Hrow & Hi).
    by apply (CheckUpgrade_same_version E _ name row _ Hrow Hi).
Qed.

Lemma fresh_install_not_upgradable_witness :
  CheckUpgrade env0 (w_db (fst (Install env0 test_cfg "svc" world0))) "svc"
  ≠ inr (Some (mkPackageUpgrade "svc" "1.0.0" "1.0.1")).
Proof.
  apply (fresh_install_not_upgradable env0 test_cfg "svc" world0).
  left. vm_compute. reflexivity.
Defined.

(** ** Catalog synchronisation *)

Section update_facts.
Variable E : Env.
Variable I : IndexEnv E.
Variable cfg : Config.

Lemma catalog_grew_refl d : catalog_grew d d.
Proof. by split_and!. Qed.

Lemma catalog_grew_trans d1 d2 d3 : catalog_grew d1 d2 → catalog_grew d2 d3 → catalog_grew d1 d3.
Proof. intros (? & ? & ?) (? & ? & ?). split_and!; [congruence | congruence | set_solver]. Qed.

Lemma catalog_grew_AddPackage d pkg : catalog_grew d (AddPackage d pkg).
Proof. split_and!; [done | done |]. simpl. rewrite dom_insert_L. set_solver. Qed.

Lemma foldl_AddPackage_grew pkgs : ∀ d, catalog_grew d (foldl AddPackage d pkgs).
Proof.
  induction pkgs as [| p l IH]; intros d; simpl; [apply catalog_grew_refl |].
  eapply catalog_grew_trans; [apply catalog_grew_AddPackage | apply IH].
Qed.

Lemma foldl_scan_one found : ∀ w,
  catalog_grew (w_db w) (w_db (foldl (scan_one E) w found))
  ∧ w_fs (foldl (scan_one E) w found) = w_fs w
  ∧ w_log (foldl (scan_one E) w found) = w_log w.
Proof.
  induction found as [| f l IH]; intros w; simpl; [by split_and!; [apply catalog_grew_refl | |] |].
  destruct (IH (scan_one E w f)) as (Hg & Hf & Hl).
  unfold scan_one in *. destruct (readPackageMetadata E f w) as [c | m]; [done |].
  split_and!; [| done | done].
  eapply catalog_grew_trans; [apply catalog_grew_AddPackage | exact Hg].
Qed.

Lemma foldl_AddPackage_lookup pkgs : ∀ d name,
  packages (foldl AddPackage d pkgs) !! name
  = match last_named pkgs name with
    | Some pkg => Some (row_of pkg)
    | None => packages d !! name
    end.
Proof.
  induction pkgs as [| p l IH] using rev_ind; intros d name; [done |].
  rewrite foldl_app. simpl. unfold last_named. rewrite reverse_app. simpl.
  case_decide as Hname; simpl.
  - subst name. by rewrite lookup_insert_eq.
  - rewrite lookup_insert_ne by done. rewrite IH. unfold last_named.
    destruct (list_find _ (reverse l)) as [[i q] |]; done.
Qed.

End update_facts.

(** X19: whatever the repository answers, [UpdateDatabase] leaves the
    ledger, the file ownership, the file system and the event log as they
    were and removes no name from the catalog; when it fails nothing has
    changed at all. *)
Theorem UpdateDatabase_only_grows_catalog E (I : IndexEnv E) cfg (w : World E) :
  match UpdateDatabase E I cfg w with
  | (w', None) =>
      catalog_grew (w_db w) (w_db w') ∧ w_fs w' = w_fs w ∧ w_log w' = w_log w
  | (w', Some _) => w' = w
  end.
Proof.
  assert (Hscan : match scanLocalPackages E I cfg w with
                  | (w', None) =>
                      catalog_grew (w_db w) (w_db w') ∧ w_fs w' = w_fs w ∧ w_log w' = w_log w
                  | (w', Some _) => w' = w
                  end).
  { unfold scanLocalPackages. destruct (filepath_Glob I _ _) as [found |]; [| done].
    apply foldl_scan_one. }
  unfold UpdateDatabase. destruct (http_Get E _) as [[status body] |]; [| exact Hscan].
  destruct (negb (status =? 200)); [exact Hscan |].
  destruct (json_index I body) as [pkgs |]; [| done].
  split_and!; [| done | done]. apply foldl_AddPackage_grew.
Qed.

(** X20: when the repository answers 200 with an index that decodes,
    [UpdateDatabase] gives every name of the index the row of the LAST
    record that carries it, leaves the rows of all other names as they were,
    and does not look at the cache. *)
Theorem UpdateDatabase_index E (I : IndexEnv E) cfg (w : World E) body pkgs :
  http_Get E (repoURL cfg +:+ "/index.json") = Some (200, body) →
  json_index I body = Some pkgs →
  ∃ w', UpdateDatabase E I cfg w = (w', None)
        ∧ ∀ name,
            packages (w_db w') !! name
            = match last_named pkgs name with
              | Some pkg => Some (row_of pkg)
              | None => packages (w_db w) !! name
              end.
Proof.
  intros Hget Hjson. unfold UpdateDatabase. rewrite Hget. simpl. rewrite Hjson.
  eexists. split; [done |]. intros name. simpl. apply foldl_AddPackage_lookup.
Qed.

Lemma UpdateDatabase_index_witness :
  ∃ w', UpdateDatabase env_net (index_env env_net) test_cfg world_net = (w', None)
        ∧ ∀ name,
            packages (w_db w') !! name
            = match last_named index0 name with
              | Some pkg => Some (row_of pkg)
              | None => packages (w_db world_net) !! name
              end.
Proof.
  apply (UpdateDatabase_index env_net (index_env env_net) test_cfg world_net "index" index0).
  - vm_compute. reflexivity.
  - vm_compute. reflexivity.
Defined.

(** ** The install command *)

Section command_facts.
Variable E : Env.
Variable cfg : Config.

(** Where the loop of [runInstall] can end. *)
Lemma install_each_spec l : ∀ w,
  match install_each E cfg l w with
  | (w', None) =>
      NoDup l
      ∧ (∀ x, x ∈ l →
           IsInstalled (w_db w) x = false ∧ is_Some (packages (w_db w) !! x)
           ∧ IsInstalled (w_db w') x = true)
      ∧ packages (w_db w') = packages (w_db w)
      ∧ (∀ x, x ∉ l → installed (w_db w') !! x = installed (w_db w) !! x)
  | (w', Some err) =>
      ∃ l1 pkg e l2,
        err = InstallFailed pkg e ∧ l = l1 ++ pkg :: l2
        ∧ (∀ x, x ∈ l1 → IsInstalled (w_db w') x = true ∧ is_Some (packages (w_db w) !! x))
        ∧ packages (w_db w') = packages (w_db w)
        ∧ (∀ x, x ∉ l1 → installed (w_db w') !! x = installed (w_db w) !! x)
  end.
Proof.
  induction l as [| pkg rest IH]; intros w; simpl.
  { split_and!; [constructor | by intros x ?%elem_of_nil | done | done]. }
  pose proof (Install_db_cases E cfg pkg w) as H.
  destruct (Install E cfg pkg w) as [w1 [[] | e]].
  - destruct H as (Hfresh & Hnow & Hcat & Hothers & row & _ & _ & _ & _ & Hrow & _).
    specialize (IH w1). destruct (install_each E cfg rest w1) as [w' [err |]].
    + destruct IH as (l1 & p & e & l2 & -> & -> & Hl1 & Hcat' & Hrest).
      exists (pkg :: l1), p, e, l2. split_and!; [done | done | | congruence |].
      * intros x [-> | Hx]%elem_of_cons.
        -- split; [| by rewrite Hrow].
           destruct (decide (pkg ∈ l1)) as [Hin | Hout]; [by apply Hl1 |].
           unfold IsInstalled in *. by rewrite (Hrest pkg Hout).
        -- destruct (Hl1 x Hx) as [? ?]. split; [done | by rewrite <- Hcat].
      * intros x Hx. rewrite not_elem_of_cons in Hx. destruct Hx as [Hne Hx].
        rewrite (Hrest x Hx). by apply Hothers.
    + destruct IH as (Hnd & Hin & Hcat' & Hrest).
      assert (Hpkg : pkg ∉ rest).
      { intros Hp. destruct (Hin pkg Hp) as (Hf & _). congruence. }
      split_and!; [by constructor | | congruence |].
      * intros x [-> | Hx]%elem_of_cons.
        -- split_and!; [done | by rewrite Hrow |].
           unfold IsInstalled in *. by rewrite (Hrest pkg Hpkg).
        -- destruct (Hin x Hx) as (Hf & Hc & Hi). split_and!; [| by rewrite <- Hcat | done].
           assert (x ≠ pkg) by (by intros ->).
           unfold IsInstalled in *. by rewrite <- (Hothers x).
      * intros x Hx. rewrite not_elem_of_cons in Hx. destruct Hx as [Hne Hx].
        rewrite (Hrest x Hx). by apply Hothers.
  - exists [], pkg, e, rest. split_and!; [done | done | by intros x ?%elem_of_nil | by rewrite H | by rewrite H].
Qed.

Lemma confirmed_proceeds yes response :
  confirmed yes response →
  negb yes && bool_decide (response ≠ "y" ∧ response ≠ "Y") = false.
Proof.
  intros [-> | Hr]; [done |]. apply andb_false_iff. right.
  apply bool_decide_eq_false. intros [? ?]. by destruct Hr.
Qed.

Lemma wanted_not_installed d args x : wanted d args x → IsInstalled d x = false.
Proof.
  intros (p & _ & Hp & Hreach). apply rtc_inv_r in Hreach as [-> | (y & _ & [_ Hx])]; done.
Qed.

Lemma wanted_requested d args x : x ∈ args → IsInstalled d x = false → wanted d args x.
Proof. intros Hx Hni. by exists x. Qed.

Lemma ResolveDependencies_Resolve d args :
  Resolve d args = Some (ResolveDependencies d args).
Proof.
  unfold ResolveDependencies. by destruct (Resolve_total d args) as [r ->].
Qed.

Lemma runInstall_confirmed yes noDeps response args (w : World E) l :
  confirmed yes response → toInstall noDeps (w_db w) args = Ok l →
  runInstall E cfg yes noDeps response args w = install_each E cfg l w.
Proof.
  intros Hc Hl. unfold runInstall. rewrite Hl. destruct l; [done |].
  by rewrite confirmed_proceeds.
Qed.

End command_facts.

(** X21: when the install command was confirmed and returns without an
    error, every requested name is installed and the catalog is unchanged.
    Without [--no-deps] the names installed by the run are exactly the
    requested names that were not installed and everything they reach
    through dependencies that were not installed, each of which has a
    catalog row; the other ledger rows are untouched.  With [--no-deps] the
    arguments had no duplicate and none of them was installed before. *)
Theorem runInstall_success E cfg yes noDeps response args (w w' : World E) :
  confirmed yes response →
  runInstall E cfg yes noDeps response args w = (w', None) →
  packages (w_db w') = packages (w_db w)
  ∧ (∀ x, x ∈ args → IsInstalled (w_db w') x = true)
  ∧ if noDeps
    then NoDup args
         ∧ (∀ x, x ∈ args → IsInstalled (w_db w) x = false)
         ∧ (∀ x, x ∉ args → installed (w_db w') !! x = installed (w_db w) !! x)
    else (∀ x, wanted (w_db w) args x →
            IsInstalled (w_db w') x = true ∧ is_Some (packages (w_db w) !! x))
         ∧ (∀ x, ¬ wanted (w_db w) args x →
              installed (w_db w') !! x = installed (w_db w) !! x).
Proof.
  intros Hc Hrun.
  destruct (toInstall noDeps (w_db w) args) as [l | e] eqn:Hl;
    [| by unfold runInstall in Hrun; rewrite Hl in Hrun].
  rewrite (runInstall_confirmed E cfg _ _ _ _ _ l Hc Hl) in Hrun.
  pose proof (install_each_spec E cfg l w) as H. rewrite Hrun in H.
  destruct H as (Hnd & Hin & Hcat & Hrest).
  destruct noDeps; simpl in Hl.
  - injection Hl as <-.
    split_and!; [done | intros x Hx; apply (Hin x Hx) | done | intros x Hx; apply (Hin x Hx) | done].
  - pose proof (ResolveDependencies_Resolve (w_db w) args) as HR. unfold toInstall in Hl.
    rewrite Hl in HR. destruct (Resolve_members _ _ _ HR) as [_ Hmem].
    split_and!; [done | | |].
    + intros x Hx. destruct (IsInstalled (w_db w) x) eqn:Hi.
      * assert (Hout : x ∉ l).
        { intros Hxl. destruct (Hin x Hxl) as [? _]. congruence. }
        unfold IsInstalled in *. by rewrite (Hrest x Hout).
      * apply Hin, Hmem. by apply wanted_requested.
    + intros x Hx%Hmem. destruct (Hin x Hx) as (_ & ? & ?). done.
    + intros x Hx. apply Hrest. by rewrite Hmem.
Qed.

(** Installing [svc] on the fresh system. *)
Lemma runInstall_success_witness :
  let w' := fst (runInstall env0 test_cfg true false "" ["svc"] world0) in
  packages (w_db w') = packages (w_db world0)
  ∧ (∀ x, x ∈ ["svc"] → IsInstalled (w_db w') x = true)
  ∧ (∀ x, wanted (w_db world0) ["svc"] x →
       IsInstalled (w_db w') x = true ∧ is_Some (packages (w_db world0) !! x))
    ∧ (∀ x, ¬ wanted (w_db world0) ["svc"] x →
         installed (w_db w') !! x = installed (w_db world0) !! x).
Proof.
  apply (runInstall_success env0 test_cfg true false "" ["svc"] world0).
  - by left.
  - vm_compute. reflexivity.
Defined.

(** X22: the install command is not atomic.  When dependency resolution
    fails nothing has changed.  When an installation fails, the packages
    that precede the failing one in the order are left installed, the
    catalog and all other ledger rows are as before.  When the user
    declines, nothing changes and no error is returned. *)
Theorem runInstall_failure E cfg yes noDeps response args (w : World E) :
  (∀ w' e, runInstall E cfg yes noDeps response args w = (w', Some (ResolutionFailed e)) →
     w' = w ∧ noDeps = false ∧ Resolve (w_db w) args = Some (Err e))
  ∧ (∀ w' pkg e,
       runInstall E cfg yes noDeps response args w = (w', Some (InstallFailed pkg e)) →
       confirmed yes response
       ∧ ∃ l1 l2,
           toInstall noDeps (w_db w) args = Ok (l1 ++ pkg :: l2)
           ∧ (∀ x, x ∈ l1 → IsInstalled (w_db w') x = true)
           ∧ packages (w_db w') = packages (w_db w)
           ∧ (∀ x, x ∉ l1 → installed (w_db w') !! x = installed (w_db w) !! x))
  ∧ (¬ confirmed yes response →
       fst (runInstall E cfg yes noDeps response args w) = w
       ∧ ∀ pkg e, snd (runInstall E cfg yes noDeps response args w)
                  ≠ Some (InstallFailed pkg e)).
Proof.
  split_and!.
  - intros w' e Hrun. unfold runInstall in Hrun.
    destruct (toInstall noDeps (w_db w) args) as [l | e'] eqn:Hl.
    + destruct l as [| p l]; [done |].
      destruct (negb yes && _); [done |].
      pose proof (install_each_spec E cfg (p :: l) w) as H. rewrite Hrun in H.
      by destruct H as (? & ? & ? & ? & ? & _).
    + injection Hrun as <- <-. destruct noDeps; [done |]. split_and!; [done | done |].
      unfold toInstall in Hl. by rewrite ResolveDependencies_Resolve, Hl.
  - intros w' pkg e Hrun. unfold runInstall in Hrun.
    destruct (toInstall noDeps (w_db w) args) as [l | e'] eqn:Hl; [| done].
    destruct l as [| p l]; [done |].
    destruct (negb yes && _) eqn:Hyes; [done |].
    split.
    { apply andb_false_iff in Hyes as [Hy | Hr].
      - left. by destruct yes.
      - right. apply bool_decide_eq_false in Hr.
        destruct (decide (response = "y")) as [? | H1]; [by left |].
        destruct (decide (response = "Y")) as [? | H2]; [by right |].
        exfalso. by apply Hr. }
    pose proof (install_each_spec E cfg (p :: l) w) as H. rewrite Hrun in H.
    destruct H as (l1 & pkg' & e'' & l2 & [= <- <-] & Heq & Hl1 & Hcat & Hrest).
    exists l1, l2. rewrite Heq. split_and!; [done | intros x Hx; apply (Hl1 x Hx) | done | done].
  - intros Hn. unfold runInstall.
    destruct (toInstall noDeps (w_db w) args) as [[| p l] | e']; [done | | done].
    assert (Hd : negb yes && bool_decide (response ≠ "y" ∧ response ≠ "Y") = true).
    { apply andb_true_iff. split.
      - destruct yes; [| done]. exfalso. apply Hn. by left.
      - apply bool_decide_eq_true. split; intros ->; apply Hn; right; auto. }
    by rewrite Hd.
Qed.

(** X23: without [--no-deps], a confirmed install command never succeeds
    when a requested name that is not installed, or a name it reaches
    through dependencies that are not installed, has no catalog row
    ([resolve] puts such a name in the order): the command returns an error
    and the name is not installed, although names that precede it in the
    order may have been. *)
Theorem runInstall_unknown_package E cfg yes response args (w : World E) x :
  confirmed yes response →
  wanted (w_db w) args x →
  packages (w_db w) !! x = None →
  ∃ e, snd (runInstall E cfg yes false response args w) = Some e
       ∧ IsInstalled (w_db (fst (runInstall E cfg yes false response args w))) x = false.
Proof.
  intros Hc Hx Hrow. pose proof (wanted_not_installed _ _ _ Hx) as Hni.
  destruct (toInstall false (w_db w) args) as [l | e] eqn:Hl.
  - rewrite (runInstall_confirmed E cfg _ _ _ _ _ l Hc Hl).
    pose proof (ResolveDependencies_Resolve (w_db w) args) as HR. unfold toInstall in Hl.
    rewrite Hl in HR. destruct (Resolve_members _ _ _ HR) as [_ Hmem].
    apply Hmem in Hx.
    pose proof (install_each_spec E cfg l w) as H.
    destruct (install_each E cfg l w) as [w' [err |]].
    + destruct H as (l1 & pkg & e & l2 & -> & -> & Hl1 & _ & Hrest).
      eexists. split; [done |]. simpl.
      assert (Hout : x ∉ l1).
      { intros Hin. destruct (Hl1 x Hin) as [_ [row Hr]]. congruence. }
      unfold IsInstalled in *. by rewrite (Hrest x Hout).
    + destruct H as (_ & Hin & _). destruct (Hin x Hx) as (_ & [row Hr] & _). congruence.
  - unfold runInstall. rewrite Hl. by eexists.
Qed.

(** A package that nobody serves. *)
Lemma runInstall_unknown_package_witness :
  ∃ e, snd (runInstall env0 test_cfg true false "" ["svc"; "ghost"] world0) = Some e
       ∧ IsInstalled
           (w_db (fst (runInstall env0 test_cfg true false "" ["svc"; "ghost"] world0)))
           "ghost" = false.
Proof.
  apply (runInstall_unknown_package env0 test_cfg true "" ["svc"; "ghost"] world0 "ghost").
  - by left.
  - apply wanted_requested; [set_solver | vm_compute; reflexivity].
  - vm_compute. reflexivity.
Defined.

(** The run of the witness: [svc] is installed, then the command fails. *)
Example runInstall_partial :
  let run := runInstall env0 test_cfg true false "" ["svc"; "ghost"] world0 in
  snd run = Some (InstallFailed "ghost" (NotInDatabase "ghost"))
  ∧ IsInstalled (w_db (fst run)) "svc" = true.
Proof. vm_compute. auto. Qed.

(** X24: when every requested name is installed, the install command
    without [--no-deps] reports success and changes nothing, with or without
    confirmation; with [--no-deps] and confirmation it fails on the first
    argument with [AlreadyInstalled], again changing nothing. *)
Theorem runInstall_already_installed E cfg yes response args (w : World E) :
  (∀ x, x ∈ args → IsInstalled (w_db w) x = true) →
  runInstall E cfg yes false response args w = (w, None)
  ∧ (confirmed yes response → ∀ p rest, args = p :: rest →
       runInstall E cfg yes true response args w
       = (w, Some (InstallFailed p (AlreadyInstalled p)))).
Proof.
  intros Hall. split.
  - unfold runInstall, toInstall. pose proof (ResolveDependencies_Resolve (w_db w) args) as HR.
    destruct (ResolveDependencies (w_db w) args) as [l | e].
    + destruct (Resolve_members _ _ _ HR) as [_ Hmem]. destruct l as [| p l]; [done |].
      assert (Hp : wanted (w_db w) args p) by (apply Hmem; set_solver).
      destruct Hp as (q & Hq & Hni & _). rewrite (Hall q Hq) in Hni. done.
    + destruct (Resolve_Err _ _ _ HR) as (y & _ & _ & q & Hq & Hni & _).
      rewrite (Hall q Hq) in Hni. done.
  - intros Hc p rest ->.
    rewrite (runInstall_confirmed E cfg yes true response (p :: rest) w (p :: rest) Hc eq_refl).
    simpl. unfold Install. rewrite Hall by set_solver. done.
Qed.

Lemma runInstall_already_installed_witness :
  let w1 := fst (Install env0 test_cfg "svc" world0) in
  runInstall env0 test_cfg true false "" ["svc"] w1 = (w1, None)
  ∧ (confirmed true "" → ∀ p rest, ["svc"] = p :: rest →
       runInstall env0 test_cfg true true "" ["svc"] w1
       = (w1, Some (InstallFailed p (AlreadyInstalled p)))).
Proof.
  apply (runInstall_already_installed env0 test_cfg true "" ["svc"]
           (fst (Install env0 test_cfg "svc" world0))).
  intros x ->%list_elem_of_singleton. vm_compute. reflexivity.
Defined.

(** ** Listings *)

Lemma name_le_total : Total name_le.
Proof. intros a b. apply String.leb_total. Qed.

Lemma ListInstalled_names d :
  info_Name <$> ListInstalled d = (sorting.merge_sort name_le (map_to_list (installed d))).*1.
Proof.
  unfold ListInstalled. rewrite <- list_fmap_compose. by apply list_fmap_ext.
Qed.

Lemma Sorted_fmap_fst (l : list (string * InstalledRow)) :
  Sorted.Sorted name_le l → Sorted.Sorted (fun a b => String.leb a b = true) l.*1.
Proof.
  induction 1 as [| kv l _ IH Hhd]; simpl; constructor; [done |].
  destruct Hhd; simpl; by constructor.
Qed.

(** What [ListInstalled] lists. *)
Lemma ListInstalled_facts d :
  NoDup (info_Name <$> ListInstalled d)
  ∧ Sorted.Sorted (fun a b => String.leb a b = true) (info_Name <$> ListInstalled d)
  ∧ (∀ name, name ∈ info_Name <$> ListInstalled d ↔ IsInstalled d name = true)
  ∧ ∀ pkg, pkg ∈ ListInstalled d →
      info_Installed pkg = true
      ∧ (∃ files, installed d !! info_Name pkg
                  = Some (mkInstalledRow (info_Version pkg) files))
      ∧ info_Description pkg
        = from_option pkg_description "" (packages d !! info_Name pkg).
Proof.
  rewrite ListInstalled_names.
  pose proof (sorting.merge_sort_Permutation name_le (map_to_list (installed d))) as Hperm.
  split_and!.
  - rewrite Hperm. apply NoDup_fst_map_to_list.
  - pose proof name_le_total. apply Sorted_fmap_fst, sorting.Sorted_merge_sort, _.
  - intros name. rewrite Hperm. unfold IsInstalled.
    rewrite bool_decide_eq_true, list_elem_of_fmap. split.
    + intros ([k i] & -> & Hin%elem_of_map_to_list). by exists i.
    + intros [i Hi]. exists (name, i). split; [done |]. by apply elem_of_map_to_list.
  - intros pkg Hin. unfold ListInstalled in Hin. apply list_elem_of_fmap in Hin.
    destruct Hin as ([k [v fs]] & -> & Hin). rewrite Hperm in Hin.
    apply elem_of_map_to_list in Hin. simpl. split_and!; [done | by exists fs | done].
Qed.

(** X25: [ListInstalled] lists the installed packages, each once, in
    ascending byte order of their names, each with the version of its ledger
    row and the flag [Installed]; a package without a catalog row is listed
    with an empty description. *)
Theorem ListInstalled_spec d :
  NoDup (info_Name <$> ListInstalled d)
  ∧ Sorted.Sorted (fun a b => String.leb a b = true) (info_Name <$> ListInstalled d)
  ∧ (∀ name, name ∈ info_Name <$> ListInstalled d ↔ IsInstalled d name = true)
  ∧ ∀ pkg, pkg ∈ ListInstalled d →
      info_Installed pkg = true
      ∧ (∃ files, installed d !! info_Name pkg
                  = Some (mkInstalledRow (info_Version pkg) files))
      ∧ info_Description pkg
        = from_option pkg_description "" (packages d !! info_Name pkg).
Proof. exact (ListInstalled_facts d). Qed.

(** X26: [GetUpgradablePackages] lists exactly the upgrades that
    [CheckUpgrade] reports, one for each package it reports one for, in
    ascending byte order of the names. *)
Theorem GetUpgradablePackages_spec E d :
  (∀ up, up ∈ GetUpgradablePackages E d ↔ CheckUpgrade E d (up_Name up) = inr (Some up))
  ∧ NoDup (up_Name <$> GetUpgradablePackages E d)
  ∧ up_Name <$> GetUpgradablePackages E d `sublist_of` info_Name <$> ListInstalled d.
Proof.
  assert (Hname : ∀ name up, CheckUpgrade E d name = inr (Some up) → up_Name up = name).
  { intros name up. unfold CheckUpgrade.
    destruct (GetInstalledPackage E d name); [| done].
    destruct (GetPackage d name); [| done].
    destruct (_ >? 0); [| done]. by intros [= <-]. }
  assert (Hsub : ∀ l : list PackageInfo,
            up_Name <$> omap (fun pkg => match CheckUpgrade E d (info_Name pkg) with
                                         | inr (Some upgrade) => Some upgrade
                                         | _ => None
                                         end) l
            `sublist_of` info_Name <$> l).
  { induction l as [| pkg l IH]; simpl; [constructor |].
    destruct (CheckUpgrade E d (info_Name pkg)) as [err | [up |]] eqn:Hup; simpl.
    - by apply sublist_cons.
    - rewrite (Hname _ _ Hup). by apply sublist_skip.
    - by apply sublist_cons. }
  destruct (ListInstalled_facts d) as (Hnd & _ & Hmem & _).
  split_and!.
  - intros up. unfold GetUpgradablePackages. rewrite list_elem_of_omap. split.
    + intros (pkg & _ & Hup).
      destruct (CheckUpgrade E d (info_Name pkg)) as [err | [up' |]] eqn:Hc; try done.
      injection Hup as ->. by rewrite (Hname _ _ Hc).
    + intros Hup.
      assert (Hin : up_Name up ∈ info_Name <$> ListInstalled d).
      { apply Hmem. unfold CheckUpgrade in Hup. unfold IsInstalled. apply bool_decide_eq_true.
        unfold GetInstalledPackage in Hup. by destruct (installed d !! up_Name up). }
      apply list_elem_of_fmap in Hin as (pkg & Hn & Hin).
      exists pkg. split; [done |]. by rewrite <- Hn, Hup.
  - eapply sublist_NoDup; [exact Hnd | apply Hsub].
  - apply Hsub.
Qed.
